(** * Textual analysis of SEC filings: a shallow embedding

    The two scripts of the repository, [SEC_API_Analysis.py] and
    [SEC_Scrape_Analysis.py], fetch regulatory filings, cut fields out of
    their text with regular expressions and aggregate the results.  This
    development embeds the parts the specification talks about:

    - the fragment of Python's [re] the scripts use, as a backtracking
      matcher ([Re]);
    - the [str] methods they call ([PyStr]);
    - the extractors of both scripts ([Extract]);
    - the paginated fetcher with its sampling step ([Fetch]);
    - the header enrichment, the document fetcher and the per-state
      aggregation ([Pipeline]).

    Text is a list of 7-bit ASCII characters; characters above 127 carry
    no case and are not white space. *)

From Stdlib Require Import Ascii String ZArith Lia.
From stdpp Require Import base option list gmap strings.

Local Open Scope list_scope.

(** ** Characters *)

Module Chr.

Definition code (c : ascii) : nat := nat_of_ascii c.

(** [str.isspace] and the class [\s] on ASCII: tab, line feed, vertical
    tab, form feed, carriage return, the four separators 28..31, space. *)
Definition is_space (c : ascii) : bool :=
  let n := code c in
  ((9 <=? n) && (n <=? 13)) || ((28 <=? n) && (n <=? 32)).

Definition is_digit (c : ascii) : bool :=
  let n := code c in (48 <=? n) && (n <=? 57).

Definition is_upper (c : ascii) : bool :=
  let n := code c in (65 <=? n) && (n <=? 90).

Definition is_lower (c : ascii) : bool :=
  let n := code c in (97 <=? n) && (n <=? 122).

Definition lower (c : ascii) : ascii :=
  if is_upper c then ascii_of_nat (code c + 32) else c.

Definition upper (c : ascii) : ascii :=
  if is_lower c then ascii_of_nat (code c - 32) else c.

Definition eqb (a b : ascii) : bool := Ascii.eqb a b.

#[global] Arguments eqb : simpl never.
#[global] Arguments is_space : simpl never.
#[global] Arguments is_digit : simpl never.
#[global] Arguments is_upper : simpl never.
#[global] Arguments is_lower : simpl never.
#[global] Arguments lower : simpl never.
#[global] Arguments upper : simpl never.

End Chr.

(** A Python string literal. *)
Definition str (s : string) : list ascii := list_ascii_of_string s.

(** ** The regular expressions of the scripts *)

Module Re.

(** The two flags the scripts pass: [re.IGNORECASE] and [re.DOTALL]. *)
Record flags := Flags { ignorecase : bool; dotall : bool }.

(** One-character atoms: a literal, [\s], [\d], [.] and a set of
    literals [[...]]. *)
Inductive cclass :=
| CLit (c : ascii)
| CSpace
| CDigit
| CAny
| CSet (members : list ascii).

Definition lit_match (fl : flags) (c x : ascii) : bool :=
  if ignorecase fl then Chr.eqb (Chr.lower c) (Chr.lower x) else Chr.eqb c x.

Definition class_match (fl : flags) (cl : cclass) (x : ascii) : bool :=
  match cl with
  | CLit c => lit_match fl c x
  | CSpace => Chr.is_space x
  | CDigit => Chr.is_digit x
  | CAny => dotall fl || negb (Chr.eqb x "010"%char)
  | CSet ms => existsb (fun c => lit_match fl c x) ms
  end.

(** The syntax of the patterns embedded below: every quantifier ranges
    over a one-character atom ([\s*], [\s+], [\d+], [.*?]) or is the
    optional [\.?]; look-ahead holds a pattern, look-behind a
    one-character atom ([(?<=[.!?])]). *)
Inductive regex :=
| Eps
| Atom (c : cclass)
| Cat (r1 r2 : regex)
| Rep (greedy : bool) (min : nat) (c : cclass)
| Opt (r : regex)
| Group (n : nat) (r : regex)
| Ahead (r : regex)
| Behind (c : cclass).

(** The matcher's position: the text already passed (nearest character
    first), the text still ahead, and the groups closed so far. *)
Record mstate := MState {
  before : list ascii;
  rest : list ascii;
  caps : list (nat * list ascii)
}.

Definition pos (s : mstate) : nat := length (before s).

(** The text between two positions of one run, [s] the earlier. *)
Definition span (s e : mstate) : list ascii :=
  rev (take (pos e - pos s) (before e)).

Definition orelse {A} (a b : option A) : option A :=
  match a with Some x => Some x | None => b end.

Section Matcher.
Variable fl : flags.

(** [c*], [c+], [c*?]: greedy tries the longer run first, lazy the
    shorter; [min] characters are owed before the continuation may run. *)
Fixpoint rep (greedy : bool) (c : cclass) (k : mstate -> option mstate)
    (min : nat) (bef rst : list ascii) (cp : list (nat * list ascii))
    : option mstate :=
  let stay := if min is 0 then k (MState bef rst cp) else None in
  match rst with
  | [] => stay
  | x :: t =>
      let more := if class_match fl c x
                  then rep greedy c k (Nat.pred min) (x :: bef) t cp
                  else None in
      if greedy then orelse more stay else orelse stay more
  end.

(** Backtracking by continuation: [k] is the rest of the pattern; [None]
    sends the matcher back to the latest open choice. *)
Fixpoint exec (r : regex) (s : mstate) (k : mstate -> option mstate)
    : option mstate :=
  match r with
  | Eps => k s
  | Atom c =>
      match rest s with
      | x :: t => if class_match fl c x
                  then k (MState (x :: before s) t (caps s)) else None
      | [] => None
      end
  | Cat r1 r2 => exec r1 s (fun s1 => exec r2 s1 k)
  | Rep g min c => rep g c k min (before s) (rest s) (caps s)
  | Opt r1 => orelse (exec r1 s k) (k s)
  | Group n r1 =>
      exec r1 s (fun e => k (MState (before e) (rest e) ((n, span s e) :: caps e)))
  | Ahead r1 =>
      match exec r1 s Some with
      | Some e => k (MState (before s) (rest s) (caps e))
      | None => None
      end
  | Behind c =>
      match before s with
      | x :: _ => if class_match fl c x then k s else None
      | [] => None
      end
  end.

(** The last continuation.  With [must_advance] (set after an empty match
    by [findall] and [split]) a match that ends where the search began
    is refused. *)
Definition accept (must_advance : bool) (start : nat) (e : mstate)
    : option mstate :=
  if must_advance && (pos e =? start) then None else Some e.

(** [search]: the leftmost position where the pattern matches, with the
    match the backtracking order finds first there. *)
Fixpoint scan (r : regex) (bef rst : list ascii)
    : option (mstate * mstate) :=
  let s := MState bef rst [] in
  match exec r s Some with
  | Some e => Some (s, e)
  | None =>
      match rst with
      | [] => None
      | x :: t => scan r (x :: bef) t
      end
  end.

Definition scan_from (r : regex) (must_advance : bool) (bef rst : list ascii)
    : option (mstate * mstate) :=
  let s := MState bef rst [] in
  match exec r s (accept must_advance (length bef)) with
  | Some e => Some (s, e)
  | None =>
      match rst with
      | [] => None
      | x :: t => scan r (x :: bef) t
      end
  end.

(** The loop shared by [findall] and [split]: successive searches, each
    from the end of the match before. *)
Fixpoint matches (fuel : nat) (r : regex) (must_advance : bool)
    (bef rst : list ascii) : list (mstate * mstate) :=
  match fuel with
  | 0 => []
  | S fuel' =>
      match scan_from r must_advance bef rst with
      | None => []
      | Some (s, e) =>
          (s, e) :: matches fuel' r (pos e =? pos s) (before e) (rest e)
      end
  end.

(** Two rounds per character and two at the end are enough. *)
Definition rounds (text : list ascii) : nat := 2 * length text + 2.

Definition search (r : regex) (text : list ascii) : option (mstate * mstate) :=
  scan r [] text.

(** [m.group(0)] and [m.group(n)]. *)
Definition group0 (m : mstate * mstate) : list ascii := span (fst m) (snd m).

Definition group (n : nat) (m : mstate * mstate) : option (list ascii) :=
  snd <$> List.find (fun p => fst p =? n) (caps (snd m)).

(** [findall] for a pattern without groups: the matched texts. *)
Definition findall (r : regex) (text : list ascii) : list (list ascii) :=
  group0 <$> matches (rounds text) r false [] text.

(** [split] for a pattern without groups: the pieces between matches. *)
Fixpoint pieces (last : nat) (ms : list (mstate * mstate)) (text : list ascii)
    : list (list ascii) :=
  match ms with
  | [] => [drop last text]
  | (s, e) :: ms' => take (pos s - last) (drop last text) :: pieces (pos e) ms' text
  end.

Definition split (r : regex) (text : list ascii) : list (list ascii) :=
  pieces 0 (matches (rounds text) r false [] text) text.

End Matcher.

(** What a pattern denotes, apart from the order of the search: the
    words [w] it can match between the text [bef] behind (nearest
    character first) and the text [aft] ahead. *)
Fixpoint Lang (fl : flags) (r : regex) (bef w aft : list ascii) : Prop :=
  match r with
  | Eps => w = []
  | Atom c => exists x, w = [x] /\ class_match fl c x = true
  | Cat r1 r2 =>
      exists w1 w2, w = w1 ++ w2 /\ Lang fl r1 bef w1 (w2 ++ aft)
                    /\ Lang fl r2 (rev w1 ++ bef) w2 aft
  | Rep _ min c => min <= length w /\ forallb (class_match fl c) w = true
  | Opt r1 => w = [] \/ Lang fl r1 bef w aft
  | Group _ r1 => Lang fl r1 bef w aft
  | Ahead r1 => w = [] /\ exists w' aft', aft = w' ++ aft' /\ Lang fl r1 bef w' aft'
  | Behind c => w = [] /\ exists x b, bef = x :: b /\ class_match fl c x = true
  end.

(** The pattern occurs in the text that follows [bef]: some piece of the
    text is one of its words. *)
Definition occurs_from (fl : flags) (r : regex) (bef text : list ascii) : Prop :=
  exists pre w post, text = pre ++ w ++ post /\ Lang fl r (rev pre ++ bef) w post.

Definition occurs (fl : flags) (r : regex) (text : list ascii) : Prop :=
  occurs_from fl r [] text.

Definition found {A} (m : option A) : bool :=
  match m with Some _ => true | None => false end.

(** The run of a greedy quantifier ends at [aft]: nothing, or a character
    outside the class, comes next. *)
Definition stops (fl : flags) (c : cclass) (aft : list ascii) : bool :=
  match aft with
  | [] => true
  | y :: _ => negb (class_match fl c y)
  end.

(** Patterns that look neither ahead nor behind and have no [.]: what
    they match depends on the matched word alone, and not on [DOTALL]. *)
Fixpoint simple (r : regex) : bool :=
  match r with
  | Eps => true
  | Atom c | Rep _ _ c => if c is CAny then false else true
  | Cat r1 r2 => simple r1 && simple r2
  | Opt r1 | Group _ r1 => simple r1
  | Ahead _ | Behind _ => false
  end.

(** The position after the white space ahead. *)
Fixpoint run_spaces (bef rst : list ascii) : mstate :=
  match rst with
  | c :: t => if Chr.is_space c then run_spaces (c :: bef) t else MState bef rst []
  | [] => MState bef [] []
  end.

(** Pattern builders. *)
Definition lits (s : string) : regex :=
  foldr (fun c r => Cat (Atom (CLit c)) r) Eps (str s).

Fixpoint cats (rs : list regex) : regex :=
  match rs with
  | [] => Eps
  | r :: rs' => Cat r (cats rs')
  end.

Definition ws_star : regex := Rep true 0 CSpace.
Definition ws_plus : regex := Rep true 1 CSpace.

End Re.

(** ** The [str] methods the scripts call *)

Module PyStr.

(** [s.strip()] *)
Fixpoint lstrip (s : list ascii) : list ascii :=
  match s with
  | c :: s' => if Chr.is_space c then lstrip s' else s
  | [] => []
  end.

Definition strip (s : list ascii) : list ascii := rev (lstrip (rev (lstrip s))).

(** [s.upper()], [s.lower()] *)
Definition upper (s : list ascii) : list ascii := map Chr.upper s.
Definition lower (s : list ascii) : list ascii := map Chr.lower s.

(** [s.startswith(p)] *)
Fixpoint startswith (p s : list ascii) : bool :=
  match p, s with
  | [], _ => true
  | a :: p', b :: s' => Chr.eqb a b && startswith p' s'
  | _ :: _, [] => false
  end.

(** [p in s] *)
Fixpoint contains (p s : list ascii) : bool :=
  startswith p s || match s with [] => false | _ :: s' => contains p s' end.

(** [s.replace(old, new)] for a non-empty [old], as in every call of the
    scripts: occurrences are taken from the left and do not overlap;
    [skip] counts the characters of an occurrence still to be dropped. *)
Fixpoint replace_from (skip : nat) (old new s : list ascii) : list ascii :=
  match s with
  | [] => []
  | c :: s' =>
      match skip with
      | S n => replace_from n old new s'
      | 0 => if startswith old s
             then new ++ replace_from (length old - 1) old new s'
             else c :: replace_from 0 old new s'
      end
  end.

Definition replace (old new s : list ascii) : list ascii :=
  replace_from 0 old new s.

(** [s.split()] without arguments: the maximal runs of characters that
    are not white space; [cur] is the run being read, last character
    first. *)
Fixpoint split_ws (cur s : list ascii) : list (list ascii) :=
  match s with
  | [] => if cur is [] then [] else [rev cur]
  | c :: s' =>
      if Chr.is_space c
      then (if cur is [] then split_ws [] s' else rev cur :: split_ws [] s')
      else split_ws (c :: cur) s'
  end.

Definition split (s : list ascii) : list (list ascii) := split_ws [] s.

(** [sep.join(parts)] *)
Fixpoint join (sep : list ascii) (parts : list (list ascii)) : list ascii :=
  match parts with
  | [] => []
  | [p] => p
  | p :: ps => p ++ sep ++ join sep ps
  end.

(** [s.zfill(width)] for a string without sign. *)
Definition zfill (width : nat) (s : list ascii) : list ascii :=
  replicate (width - length s) "0"%char ++ s.

End PyStr.

(** ** The field extractors *)

Module Extract.
Import Re.

Definition dot_opt : regex := Opt (Atom (CLit "."%char)).

(** [ITEM\s+1\s*\.?\s*BUSINESS] *)
Definition item1_start : regex :=
  cats [lits "ITEM"; ws_plus; lits "1"; ws_star; dot_opt; ws_star; lits "BUSINESS"].

(** [ITEM\s+1A\s*\.?\s*RISK\s+FACTORS] *)
Definition item1_end : regex :=
  cats [lits "ITEM"; ws_plus; lits "1A"; ws_star; dot_opt; ws_star;
        lits "RISK"; ws_plus; lits "FACTORS"].

(** [ITEM\s+1\s*\.?\s*BUSINESS.*?(?=ITEM\s+1A\s*\.?\s*RISK\s+FACTORS)] *)
Definition item1_pattern : regex :=
  Cat item1_start (Cat (Rep false 0 CAny) (Ahead item1_end)).

Definition icase_dotall : flags := Flags true true.
Definition icase : flags := Flags true false.
Definition plain : flags := Flags false false.

(** The text of the specification's example. *)
Definition item1_example : list ascii :=
  str "...ITEM 1. BUSINESS Foo bar. ITEM 1A. RISK FACTORS Baz...".

(** SEC_API_Analysis.py, [extract_item1_business]. *)
Definition extract_item1_business (text : list ascii) : list ascii :=
  let matches := findall icase_dotall item1_pattern text in
  match matches with
  | m :: _ => m
  | [] => []
  end.

(** [artificial intelligence] *)
Definition pattern_ai : regex := lits "artificial intelligence".

(** [(?<=[.!?])\s+] *)
Definition sentence_break : regex :=
  Cat (Behind (CSet ["."; "!"; "?"]%char)) ws_plus.

(** SEC_API_Analysis.py, [extract_ai_sentences]. *)
Definition extract_ai_sentences (text : list ascii) : list (list ascii) :=
  let sentences := Re.split plain sentence_break text in
  List.filter (fun s => found (search icase pattern_ai s)) sentences.

(** [<\s*name\s*>] and [<\s*/\s*name\s*>] *)
Definition open_tag (name : string) : regex :=
  cats [lits "<"; ws_star; lits name; ws_star; lits ">"].

Definition close_tag (name : string) : regex :=
  cats [lits "<"; ws_star; lits "/"; ws_star; lits name; ws_star; lits ">"].

(** [<\s*isOfficer\s*>\s*(\d+)\s*<\s*/\s*isOfficer\s*>] *)
Definition is_officer_pattern : regex :=
  cats [open_tag "isOfficer"; ws_star; Group 1 (Rep true 1 CDigit); ws_star;
        close_tag "isOfficer"].

(** SEC_Scrape_Analysis.py, [extract_is_officer]; [None] is the
    missing-value sentinel. *)
Definition extract_is_officer (text : list ascii) : option (list ascii) :=
  match search icase is_officer_pattern text with
  | Some m => PyStr.strip <$> group 1 m
  | None => None
  end.

(** [<\s*officerTitle\s*>\s*(.*?)\s*<\s*/\s*officerTitle\s*>] *)
Definition officer_title_pattern : regex :=
  cats [open_tag "officerTitle"; ws_star; Group 1 (Rep false 0 CAny); ws_star;
        close_tag "officerTitle"].

(** The cleaning of a raw title, lines 252 and 253. *)
Definition clean_title (title : list ascii) : list ascii :=
  let title_clean := PyStr.replace (str ",") [] (PyStr.replace (str "&amp;") [] title) in
  PyStr.upper (PyStr.join (str " ") (PyStr.split title_clean)).

(** SEC_Scrape_Analysis.py, [extract_officer_title]. *)
Definition extract_officer_title (text : list ascii) : list ascii :=
  match search icase_dotall officer_title_pattern text with
  | Some m => clean_title (default [] (group 1 m))
  | None => str "UNKNOWN"
  end.

(** [<\s*transactionAcquiredDisposedCode\s*>\s*<\s*value\s*>\s*([AD])\s*
     <\s*/\s*value\s*>\s*<\s*/\s*transactionAcquiredDisposedCode\s*>] *)
Definition transaction_type_pattern : regex :=
  cats [open_tag "transactionAcquiredDisposedCode"; ws_star;
        open_tag "value"; ws_star;
        Group 1 (Atom (CSet ["A"; "D"]%char)); ws_star;
        close_tag "value"; ws_star;
        close_tag "transactionAcquiredDisposedCode"].

(** SEC_Scrape_Analysis.py, [extract_transaction_type]. *)
Definition extract_transaction_type (text : list ascii) : option (list ascii) :=
  match search icase transaction_type_pattern text with
  | Some m => (fun v => PyStr.upper (PyStr.strip v)) <$> group 1 m
  | None => None
  end.

(** The specification's sentence matcher, in its own words: the text is
    cut at white space that follows sentence-terminal punctuation, and
    the sentences whose lower-case form holds the phrase are kept.
    [cur] is the sentence being read, last character first; [in_break]
    says that the white space of a cut is being passed. *)
Definition terminal (c : ascii) : bool :=
  Chr.eqb c "."%char || Chr.eqb c "!"%char || Chr.eqb c "?"%char.

Definition ends_sentence (cur : list ascii) : bool :=
  match cur with
  | c :: _ => terminal c
  | [] => false
  end.

Fixpoint split_sentences (in_break : bool) (cur text : list ascii)
    : list (list ascii) :=
  match text with
  | [] => [rev cur]
  | c :: t =>
      if Chr.is_space c then
        if in_break then split_sentences true [] t
        else if ends_sentence cur then rev cur :: split_sentences true [] t
        else split_sentences false (c :: cur) t
      else split_sentences false (c :: cur) t
  end.

Definition mentions_ai (s : list ascii) : bool :=
  PyStr.contains (str "artificial intelligence") (PyStr.lower s).

Definition ai_sentences_spec (text : list ascii) : list (list ascii) :=
  List.filter mentions_ai (split_sentences false [] text).

(** What a cleaned title never holds: a lower-case letter, a comma, the
    sequence [&amp;], two white-space characters in a row. *)
Fixpoint no_double_space (s : list ascii) : bool :=
  match s with
  | a :: (b :: _) as t => negb (Chr.is_space a && Chr.is_space b) && no_double_space t
  | _ => true
  end.

Definition normalized (t : list ascii) : bool :=
  forallb (fun c => negb (Chr.is_lower c)) t
  && negb (existsb (Chr.eqb ","%char) t)
  && negb (PyStr.contains (str "&amp;") t)
  && no_double_space t.

(** Texts without the letter [I], in either case, and texts without
    [<]: no marker of item 1 and no tag begins in them. *)
Definition no_i (s : list ascii) : bool :=
  forallb (fun c => negb (lit_match icase "I"%char c)) s.

Definition no_lt (s : list ascii) : bool :=
  forallb (fun c => negb (Chr.eqb "<"%char c)) s.

(** After its white space the text does not go on with [<]. *)
Fixpoint blocked (rst : list ascii) : bool :=
  match rst with
  | [] => true
  | x :: t => if Chr.is_space x then blocked t else negb (Chr.eqb "<"%char x)
  end.

(** Texts that do not begin with white space. *)
Definition solid (aft : list ascii) : bool := stops icase CSpace aft.

(** A word of [split()]: not empty, without white space, of characters
    that satisfy [P]. *)
Definition word_of (P : ascii -> bool) (w : list ascii) : Prop :=
  w <> [] /\ forallb (fun c => negb (Chr.is_space c) && P c) w = true.

(** The texts the tag patterns are made for: a tag with white space
    between the angle brackets and the name or the slash. *)
Definition blank (w : list ascii) : bool := forallb Chr.is_space w.
Definition digits (w : list ascii) : bool := forallb Chr.is_digit w.

Definition open_text (w1 : list ascii) (name : string) (w2 : list ascii) : list ascii :=
  str "<" ++ w1 ++ str name ++ w2 ++ str ">".

Definition close_text (w1 w2 : list ascii) (name : string) (w3 : list ascii)
    : list ascii :=
  str "<" ++ w1 ++ str "/" ++ w2 ++ str name ++ w3 ++ str ">".

(** The text holds an opening tag and, somewhere after it, the closing
    tag of the same name. *)
Definition has_tag_pair (name : string) (text : list ascii) : Prop :=
  exists pre o mid c post,
    text = pre ++ o ++ mid ++ c ++ post
    /\ Lang icase (open_tag name) (rev pre) o (mid ++ c ++ post)
    /\ Lang icase (close_tag name) (rev (pre ++ o ++ mid)) c post.

End Extract.

(** ** The paginated fetcher and the sampling step *)

Module Fetch.

(** A call returns or raises. *)
Inductive outcome (A : Type) :=
| Returned (a : A)
| Raised (e : string).
Arguments Returned {A} a.
Arguments Raised {A} e.

(** The query of one page: the query string, [from] and [size]; the sort
    order is the same in every request. *)
Record query := Query {
  q_query : list ascii;
  q_from : Z;
  q_size : Z
}.

(** A filing as the search endpoint returns it: a dictionary. *)
Abbreviation dict := (gmap string (list ascii)).

(** What [api.get_filings] returns: the value under ["filings"] of the
    result, if the key is there. *)
Definition api_result : Type := option (list dict).

(** A row of [filings_list]; each field is the [.get] of a key and so
    may be [None]. *)
Record filing_row := FilingRow {
  cik : option (list ascii);
  companyName : option (list ascii);
  formType : option (list ascii);
  filedAt : option (list ascii);
  accessionNumber : option (list ascii);
  fileLink : option (list ascii)
}.

Definition to_row (filing : dict) : filing_row :=
  {| cik := filing !! "cik";
     companyName := filing !! "companyName";
     formType := filing !! "formType";
     filedAt := filing !! "filedAt";
     accessionNumber := filing !! "accessionNo";
     fileLink := filing !! "linkToFilingDetails" |}.

(** What the loop does to the world, in order. *)
Inductive event :=
| Request (q : query) (r : outcome api_result)
| Sleep (seconds : nat).

(** [random.sample(population, k)] with its draws made explicit: [rnd i]
    is the [i]-th raw draw, reduced to the pool still left; the chosen
    slot is refilled with the last item of the pool. *)
Fixpoint sample_pool {A} (rnd : nat -> nat) (i k : nat) (pool : list A) : list A :=
  match k with
  | 0 => []
  | S k' =>
      let n := length pool in
      let j := rnd i mod n in
      match pool !! j, last pool with
      | Some x, Some y => x :: sample_pool rnd (S i) k' (take (n - 1) (<[j := y]> pool))
      | _, _ => []
      end
  end.

Definition random_sample {A} (rnd : nat -> nat) (population : list A) (k : Z)
    : outcome (list A) :=
  if ((k <? 0) || (Z.of_nat (length population) <? k))%Z
  then Raised "ValueError"
  else Returned (sample_pool rnd 0 (Z.to_nat k) population).

(** Lines 88 to 90: the sampling step. *)
Definition sampling_reducer {A} (rnd : nat -> nat) (filings_list : list A)
    (desired_count : Z) : outcome (list A) :=
  if (Z.of_nat (length filings_list) >? desired_count)%Z
  then random_sample rnd filings_list desired_count
  else Returned filings_list.

Section Fetcher.
Variable World : Type.
Variable get_filings : query -> World -> outcome api_result * World.
Variable query_str : list ascii.
Variable desired_count page_size : Z.

(** Lines 63 to 85: the [while] loop.  Every round that goes on adds a
    row, so [desired_count] rounds are enough; [None] would be a loop
    that has not ended within [fuel] rounds. *)
Fixpoint fetch_loop (fuel : nat) (start : Z) (filings_list : list filing_row)
    (w : World) : option (outcome (list filing_row) * list event * World) :=
  if (Z.of_nat (length filings_list) <? desired_count)%Z then
    match fuel with
    | 0 => None
    | S fuel' =>
        let q := Query query_str start page_size in
        match get_filings q w with
        | (Raised e, w') => Some (Raised e, [Request q (Raised e)], w')
        | (Returned result, w') =>
            let filings := default [] result in
            match filings with
            | [] => Some (Returned filings_list, [Request q (Returned result)], w')
            | _ :: _ =>
                match fetch_loop fuel' (start + page_size)%Z
                        (filings_list ++ map to_row filings) w' with
                | Some (res, tr, w'') =>
                    Some (res, Request q (Returned result) :: Sleep 1 :: tr, w'')
                | None => None
                end
            end
        end
    end
  else Some (Returned filings_list, [], w).

(** SEC_API_Analysis.py, [query_filings]: the rows of the data frame it
    returns, or the exception that leaves it. *)
Definition query_filings (rnd : nat -> nat) (w : World)
    : option (outcome (list filing_row) * list event * World) :=
  match fetch_loop (Z.to_nat desired_count) 0 [] w with
  | Some (Returned filings_list, tr, w') =>
      Some (sampling_reducer rnd filings_list desired_count, tr, w')
  | Some (Raised e, tr, w') => Some (Raised e, tr, w')
  | None => None
  end.

End Fetcher.

(** The page requests of a trace, with their answers. *)
Fixpoint requests (tr : list event) : list (query * outcome api_result) :=
  match tr with
  | [] => []
  | Request q r :: tr' => (q, r) :: requests tr'
  | Sleep _ :: tr' => requests tr'
  end.

(** The rows a list of answered requests has brought. *)
Definition rows_of (r : outcome api_result) : list filing_row :=
  match r with
  | Returned result => map to_row (default [] result)
  | Raised _ => []
  end.

Definition rows_of_all (rs : list (query * outcome api_result)) : list filing_row :=
  flat_map (fun qr => rows_of (snd qr)) rs.

(** An answer without filings: the key is missing or its list is empty. *)
Definition no_filings (r : outcome api_result) : Prop :=
  exists result, r = Returned result /\ default [] result = [].

(** What a run of the loop that began with the rows [acc] at offset
    [start] and ended in [res] has done, [rs] being its page requests:
    - the requests go from offset to offset, a page apart;
    - a request was made only while the rows were fewer than the target;
    - a request that raised was the last, and its exception is [res];
    - a request that brought no filings was the last, and [res] is the
      rows before it;
    - rows that are returned are all the rows brought, and either they
      reach the target or the last request brought nothing;
    - an exception that leaves the loop was raised by the last request. *)
Definition run_ok (query_str : list ascii) (desired_count page_size start : Z)
    (acc : list filing_row) (res : outcome (list filing_row))
    (rs : list (query * outcome api_result)) : Prop :=
  (forall i q r, rs !! i = Some (q, r) ->
     q = Query query_str (start + Z.of_nat i * page_size) page_size)
  /\ (forall pre q r post, rs = pre ++ (q, r) :: post ->
       (Z.of_nat (length (acc ++ rows_of_all pre)) < desired_count)%Z
       /\ (forall e, r = Raised e -> post = [] /\ res = Raised e)
       /\ (no_filings r -> post = [] /\ res = Returned (acc ++ rows_of_all pre)))
  /\ (forall l, res = Returned l ->
       l = acc ++ rows_of_all rs
       /\ ((desired_count <= Z.of_nat (length l))%Z
           \/ exists pre q r, rs = pre ++ [(q, r)] /\ no_filings r))
  /\ (forall e, res = Raised e -> exists pre q, rs = pre ++ [(q, Raised e)]).

(** The number of page requests of a run. *)
Definition page_requests {W}
    (run : option (outcome (list filing_row) * list event * W)) : nat :=
  match run with
  | Some (_, tr, _) => length (requests tr)
  | None => 0
  end.

(** A mock source: [records] served in pages, [size] records from
    [from] on. *)
Definition mock_source (records : list dict) (q : query) (w : unit)
    : outcome api_result * unit :=
  (Returned (Some (take (Z.to_nat (q_size q)) (drop (Z.to_nat (q_from q)) records))), w).

(** A source that is down: every request raises. *)
Definition failing_source (q : query) (w : unit) : outcome api_result * unit :=
  (Raised "ConnectionError", w).

(** [ceil(a / b)] *)
Definition cdiv (a b : nat) : nat := (a + b - 1) / b.

(** The page requests a source of [N] records takes, with pages of [P]
    and a target of [target]: the pages that hold the target, or all
    pages and the one that comes back empty. *)
Definition expected_requests (N target P : nat) : nat :=
  if N <? target then cdiv N P + 1 else cdiv target P.

End Fetch.

(** ** Enrichment, document fetching and aggregation *)

Module Pipeline.
Import Fetch.

(** What [requests.get] returns. *)
Record response := Response {
  status_code : Z;
  text : list ascii
}.

(** The JSON object of the submissions endpoint: its text fields and its
    nested entries ([businessAddress], [mailingAddress]); such an entry
    is an object or [null], which is [None] here. *)
Record profile := Profile {
  fields : gmap string (list ascii);
  objects : gmap string (option (gmap string (list ascii)))
}.

Definition empty_profile : profile := Profile ∅ ∅.

(** [submission.get(key, "")] *)
Definition field (submission : profile) (key : string) : list ascii :=
  default [] (fields submission !! key).

(** [submission.get(key, {}).get(sub, "")]: the default [{}] stands in
    for a missing key only; [null] is returned as it is, and has no
    [get]. *)
Definition subfield (submission : profile) (key sub : string)
    : outcome (list ascii) :=
  match objects submission !! key with
  | None => Returned []
  | Some (Some entry) => Returned (default [] (entry !! sub))
  | Some None => Raised "AttributeError"
  end.

(** Lines 127 to 131: the state of a profile. *)
Definition resolve_state (submission : profile) : outcome (list ascii) :=
  let state := field submission "stateOfIncorporation" in
  if state is [] then
    match subfield submission "businessAddress" "state" with
    | Returned [] => subfield submission "mailingAddress" "state"
    | Returned state => Returned state
    | Raised e => Raised e
    end
  else Returned state.

(** The fallback chain in the specification's words: the first value
    that is not empty, else the empty string. *)
Fixpoint first_non_empty (candidates : list (list ascii)) : list ascii :=
  match candidates with
  | [] => []
  | [] :: rest => first_non_empty rest
  | (c :: s) :: _ => c :: s
  end.

(** A row of [headers_df]. *)
Record header := Header {
  CIK : option (list ascii);
  CompanyName : option (list ascii);
  FormType : option (list ascii);
  FilingDate : option (list ascii);
  SIC : list ascii;
  State : list ascii;
  City : list ascii;
  Zip : list ascii;
  AccessionNumber : option (list ascii);
  FileLink : option (list ascii)
}.

(** Lines 132 to 143; the state has been resolved before. *)
Definition header_of (row : filing_row) (submission : profile) : outcome header :=
  match resolve_state submission with
  | Returned state =>
      match subfield submission "businessAddress" "city" with
      | Returned city =>
          match subfield submission "businessAddress" "zip" with
          | Returned zip =>
              Returned
                {| CIK := cik row;
                   CompanyName := match fields submission !! "name" with
                                  | Some name => Some name
                                  | None => companyName row
                                  end;
                   FormType := formType row;
                   FilingDate := filedAt row;
                   SIC := field submission "sic";
                   State := state;
                   City := city;
                   Zip := zip;
                   AccessionNumber := accessionNumber row;
                   FileLink := fileLink row |}
          | Raised e => Raised e
          end
      | Raised e => Raised e
      end
  | Raised e => Raised e
  end.

(** The parsed page: text, comments and tags with their children. *)
#[local] Unset Elimination Schemes.
Inductive node :=
| Text (s : list ascii)
| Comment (s : list ascii)
| Tag (name : string) (children : list node).
#[local] Set Elimination Schemes.

(** All nodes below a node, in document order. *)
Fixpoint descendants (n : node) : list node :=
  match n with
  | Tag _ children => flat_map (fun c => c :: descendants c) children
  | _ => []
  end.

Definition is_tag (name : string) (n : node) : bool :=
  match n with
  | Tag nm _ => String.eqb nm name
  | _ => false
  end.

(** [n.find_all(name)] and [n.find(name)] *)
Definition find_all (name : string) (n : node) : list node :=
  List.filter (is_tag name) (descendants n).

Definition find (name : string) (n : node) : option node :=
  head (find_all name n).

(** The strings of [get_text]: the text below a node, without comments. *)
Definition strings (n : node) : list (list ascii) :=
  flat_map (fun d => match d with Text s => [s] | _ => [] end) (descendants n).

(** [n.get_text()] *)
Definition get_text (n : node) : list ascii := concat (strings n).

(** [n.get_text(separator=" ", strip=True)]: each string stripped, the
    empty ones dropped, the others joined by one space. *)
Definition stripped_strings (n : node) : list (list ascii) :=
  List.filter (fun s => negb (Nat.eqb (length s) 0)) (map PyStr.strip (strings n)).

Definition get_text_sep (n : node) : list ascii :=
  PyStr.join (str " ") (stripped_strings n).

(** The test of line 186 on one [document] block. *)
Definition is_10k (doc : node) : bool :=
  match find "type" doc with
  | Some type_tag =>
      bool_decide (PyStr.strip (get_text type_tag) = str "10-K")
  | None => false
  end.

(** Lines 184 to 188: the first block that passes the test, else the
    whole page. *)
Fixpoint first_10k (docs : list node) : option node :=
  match docs with
  | [] => None
  | doc :: docs' => if is_10k doc then Some doc else first_10k docs'
  end.

Definition page_text (soup : node) : list ascii :=
  match first_10k (find_all "document" soup) with
  | Some doc => get_text_sep doc
  | None => get_text_sep soup
  end.

Section Network.
Variable World : Type.
(** [requests.get(url, headers=HEADERS)], [resp.json()],
    [BeautifulSoup(text, "lxml")] and [pd.to_datetime] on one cell. *)
Variable http_get : list ascii -> World -> outcome response * World.
Variable json : list ascii -> outcome profile.
Variable lxml : list ascii -> outcome node.
Variable to_datetime : option (list ascii) -> outcome (option (list ascii)).

(** SEC_API_Analysis.py, [get_submission_data]. *)
Definition get_submission_data (cik : option (list ascii)) (w : World)
    : outcome profile * World :=
  let cik_str := PyStr.zfill 10 (default (str "None") cik) in
  let url := str "https://data.sec.gov/submissions/CIK" ++ cik_str ++ str ".json" in
  match http_get url w with
  | (Returned resp, w') =>
      if (status_code resp =? 200)%Z then (json (text resp), w')
      else (Returned empty_profile, w')
  | (Raised e, w') => (Raised e, w')
  end.

(** Lines 124 to 143: the loop over the rows. *)
Fixpoint header_rows (rows : list filing_row) (w : World)
    : outcome (list header) * World :=
  match rows with
  | [] => (Returned [], w)
  | row :: rows' =>
      match get_submission_data (cik row) w with
      | (Returned submission, w') =>
          match header_of row submission with
          | Returned h =>
              match header_rows rows' w' with
              | (Returned hs, w'') => (Returned (h :: hs), w'')
              | (Raised e, w'') => (Raised e, w'')
              end
          | Raised e => (Raised e, w')
          end
      | (Raised e, w') => (Raised e, w')
      end
  end.

(** Line 145: the dates of the column, parsed one by one. *)
Fixpoint parse_dates (hs : list header) : outcome (list header) :=
  match hs with
  | [] => Returned []
  | h :: hs' =>
      match to_datetime (FilingDate h) with
      | Returned d =>
          match parse_dates hs' with
          | Returned hs'' =>
              Returned (Header (CIK h) (CompanyName h) (FormType h) d (SIC h) (State h)
                          (City h) (Zip h) (AccessionNumber h) (FileLink h) :: hs'')
          | Raised e => Raised e
          end
      | Raised e => Raised e
      end
  end.

(** SEC_API_Analysis.py, [enrich_header_data].  A frame built from no
    rows has no [FilingDate] column, and line 145 raises. *)
Definition enrich_header_data (rows : list filing_row) (w : World)
    : outcome (list header) * World :=
  match header_rows rows w with
  | (Returned [], w') => (Raised "KeyError", w')
  | (Returned hs, w') => (parse_dates hs, w')
  | (Raised e, w') => (Raised e, w')
  end.

(** SEC_API_Analysis.py, [get_filing_text]: whatever is raised inside
    the [try] gives the empty string; a link that is [None] makes
    [requests.get] raise. *)
Definition get_filing_text (file_link : option (list ascii)) (w : World)
    : list ascii * World :=
  match file_link with
  | None => ([], w)
  | Some url =>
      match http_get url w with
      | (Returned response, w') =>
          if (status_code response =? 200)%Z then
            match lxml (text response) with
            | Returned soup => (page_text soup, w')
            | Raised _ => ([], w')
            end
          else ([], w')
      | (Raised _, w') => ([], w')
      end
  end.

(** SEC_API_Analysis.py, [process_filings_documents]: the dictionary
    from accession number to text; a later row with the same number
    overwrites an earlier one. *)
Fixpoint process_filings_documents (rows : list filing_row)
    (clean_docs : gmap (option (list ascii)) (list ascii)) (w : World)
    : gmap (option (list ascii)) (list ascii) * World :=
  match rows with
  | [] => (clean_docs, w)
  | row :: rows' =>
      let '(filing_text, w') := get_filing_text (fileLink row) w in
      process_filings_documents rows' (<[accessionNumber row := filing_text]> clean_docs) w'
  end.

End Network.

(** Lines 263 and 274 to 276 of [analyze_filings]: the flag of a row. *)
Definition ai_flag (clean_docs : gmap (option (list ascii)) (list ascii))
    (acc : option (list ascii)) : nat :=
  let ai_sentences := Extract.extract_ai_sentences <$> clean_docs in
  if 0 <? length (default [] (ai_sentences !! acc)) then 1 else 0.

Definition analyze_filings (headers : list header)
    (clean_docs : gmap (option (list ascii)) (list ascii)) : list (header * nat) :=
  map (fun h => (h, ai_flag clean_docs (AccessionNumber h))) headers.

(** Lines 303 to 306: the rows with a state, grouped by state;
    [Total_Filings] counts the accession numbers that are not null,
    [AI_Filings] sums the flags. *)
Definition has_state (hf : header * nat) : bool :=
  negb (Nat.eqb (length (State (fst hf))) 0).

Definition counted (h : header) : nat :=
  if AccessionNumber h is Some _ then 1 else 0.

Definition add_row (hf : header * nat) (agg : gmap (list ascii) (nat * nat))
    : gmap (list ascii) (nat * nat) :=
  let st := State (fst hf) in
  let b := default (0, 0) (agg !! st) in
  <[st := (fst b + counted (fst hf), snd b + snd hf)]> agg.

Definition state_agg (rows : list (header * nat)) : gmap (list ascii) (nat * nat) :=
  foldr add_row ∅ (List.filter has_state rows).

(** The sums of a column of flags and of the [AI_Filings] column. *)
Definition flag_sum (rows : list (header * nat)) : nat :=
  foldr (fun hf n => snd hf + n) 0 rows.

Definition ai_total (agg : gmap (list ascii) (nat * nat)) : nat :=
  map_fold (fun _ b n => snd b + n) 0 agg.

Definition filings_total (agg : gmap (list ascii) (nat * nat)) : nat :=
  map_fold (fun _ b n => fst b + n) 0 agg.

(** The rows of one state, and the two columns of its bucket. *)
Definition in_state (st : list ascii) (hf : header * nat) : bool :=
  bool_decide (State (fst hf) = st).

Definition bucket (st : list ascii) (rows : list (header * nat)) : nat * nat :=
  (foldr (fun hf n => n + counted (fst hf)) 0 (List.filter (in_state st) rows),
   foldr (fun hf n => n + snd hf) 0 (List.filter (in_state st) rows)).

(** An entry of an address as the specification reads it: what is not
    there is empty. *)
Definition address_field (submission : profile) (key sub : string) : list ascii :=
  match objects submission !! key with
  | Some (Some entry) => default [] (entry !! sub)
  | _ => []
  end.

(** The candidates of the state of a profile, in the order of the
    specification. *)
Definition state_candidates (submission : profile) : list (list ascii) :=
  [field submission "stateOfIncorporation";
   address_field submission "businessAddress" "state";
   address_field submission "mailingAddress" "state"].




(** The text of a row's document mentions the phrase. *)
Definition doc_mentions (clean_docs : gmap (option (list ascii)) (list ascii))
    (h : header) : bool :=
  match clean_docs !! AccessionNumber h with
  | Some t => Extract.mentions_ai t
  | None => false
  end.

End Pipeline.

(** ** The groups of a pattern *)

Module Groups.
Import Re.

(** The numbered groups of a pattern, with what stands inside them. *)
Fixpoint groups (r : regex) : list (nat * regex) :=
  match r with
  | Cat r1 r2 => groups r1 ++ groups r2
  | Opt r1 | Ahead r1 => groups r1
  | Group n r1 => (n, r1) :: groups r1
  | Eps | Atom _ | Rep _ _ _ | Behind _ => []
  end.

(** A closed group of [r]: its number and a word of what stands inside
    that group. *)
Definition captured (fl : flags) (r : regex) (nv : nat * list ascii) : Prop :=
  exists r1 bef aft, In (fst nv, r1) (groups r) /\ Lang fl r1 bef (snd nv) aft.

End Groups.

(** ** The other extractors of SEC_Scrape_Analysis.py *)

Module Scrape.
Import Re Extract.

(** [[\d\-]]: the ten digits and the hyphen. *)
Definition date_chars : cclass := CSet (str "0123456789-").

(** [<\s*transactionDate\s*>\s*<\s*value\s*>\s*([\d\-]+)\s*
     <\s*/\s*value\s*>\s*<\s*/\s*transactionDate\s*>] *)
Definition transaction_date_pattern : regex :=
  cats [open_tag "transactionDate"; ws_star;
        open_tag "value"; ws_star;
        Group 1 (Rep true 1 date_chars); ws_star;
        close_tag "value"; ws_star;
        close_tag "transactionDate"].

(** SEC_Scrape_Analysis.py, [extract_transaction_date]. *)
Definition extract_transaction_date (text : list ascii) : option (list ascii) :=
  match search icase transaction_date_pattern text with
  | Some m => (fun v => PyStr.replace (str "-") [] (PyStr.strip v)) <$> group 1 m
  | None => None
  end.

(** A text of digits and hyphens, and the same text without its
    hyphens. *)
Definition date_text (d : list ascii) : bool :=
  forallb (fun c => Chr.is_digit c || Chr.eqb "-"%char c) d.

Definition without_hyphens (d : list ascii) : list ascii :=
  List.filter (fun c => negb (Chr.eqb "-"%char c)) d.

(** [s.splitlines()] on ASCII: a line ends at line feed, vertical tab,
    form feed, carriage return (with a line feed after it, if any) and
    at the separators 28, 29 and 30; the line ends are dropped, and no
    empty line is added after the last one. *)
Definition is_linebreak (c : ascii) : bool :=
  let n := Chr.code c in
  ((10 <=? n) && (n <=? 13)) || ((28 <=? n) && (n <=? 30)).

Fixpoint splitlines_from (cur s : list ascii) : list (list ascii) :=
  match s with
  | [] => if cur is [] then [] else [rev cur]
  | c :: s' =>
      if is_linebreak c then
        match s' with
        | c' :: s'' =>
            if Chr.eqb c "013"%char && Chr.eqb c' "010"%char
            then rev cur :: splitlines_from [] s''
            else rev cur :: splitlines_from [] s'
        | [] => [rev cur]
        end
      else splitlines_from (c :: cur) s'
  end.

Definition splitlines (s : list ascii) : list (list ascii) := splitlines_from [] s.

(** [ITEM INFORMATION:\s*(.+)] *)
Definition first_topic_pattern : regex :=
  cats [lits "ITEM INFORMATION:"; ws_star; Group 1 (Rep true 1 CAny)].

(** SEC_Scrape_Analysis.py, [extract_first_topic]; indexing an empty
    list of lines would raise. *)
Definition extract_first_topic (text : list ascii) : Fetch.outcome (list ascii) :=
  match search icase first_topic_pattern text with
  | Some m =>
      match group 1 m with
      | Some g =>
          match splitlines g with
          | line :: _ => Fetch.Returned (PyStr.strip line)
          | [] => Fetch.Raised "IndexError"
          end
      | None => Fetch.Raised "AttributeError"
      end
  | None => Fetch.Returned (str "Unknown")
  end.

(** Texts of one line: without a line end. *)
Definition one_line (s : list ascii) : bool :=
  forallb (fun c => negb (is_linebreak c)) s.

End Scrape.

(** ** The trace of the fetcher *)

Module Report.
Import Fetch.

(** The events of a run, from its page requests: the loop sleeps one
    second after a page that brought filings, and only then (line 85). *)
Definition trace_of (rs : list (query * outcome api_result)) : list event :=
  flat_map (fun qr => Request (fst qr) (snd qr)
                      :: (if rows_of (snd qr) is [] then [] else [Sleep 1])) rs.

End Report.

(** * Facts *)

Module ReFacts.
Import Re.

Section Facts.
Variable fl : flags.

Lemma rep_sound g c k : forall rst min bef cp res,
  rep fl g c k min bef rst cp = Some res ->
  exists w aft, rst = w ++ aft /\ min <= length w
    /\ forallb (class_match fl c) w = true
    /\ k (MState (rev w ++ bef) aft cp) = Some res.
Proof.
  induction rst as [|x t IH]; intros min bef cp res H; simpl in H.
  - destruct min; [|discriminate].
    exists [], []. simpl. repeat split; auto.
  - assert (Hstay : (if min is 0 then k (MState bef (x :: t) cp) else None) = Some res ->
      exists w aft, x :: t = w ++ aft /\ min <= length w
        /\ forallb (class_match fl c) w = true
        /\ k (MState (rev w ++ bef) aft cp) = Some res).
    { intros Hs. destruct min; [|discriminate].
      exists [], (x :: t). simpl. repeat split; auto. }
    assert (Hmore : (if class_match fl c x
                     then rep fl g c k (Nat.pred min) (x :: bef) t cp
                     else None) = Some res ->
      exists w aft, x :: t = w ++ aft /\ min <= length w
        /\ forallb (class_match fl c) w = true
        /\ k (MState (rev w ++ bef) aft cp) = Some res).
    { intros Hm. destruct (class_match fl c x) eqn:Hx; [|discriminate].
      apply IH in Hm as (w & aft & -> & Hlen & Hall & Hk).
      exists (x :: w), aft. simpl. rewrite Hx, Hall. simpl.
      rewrite <- app_assoc. simpl. repeat split; auto. lia. }
    destruct g; simpl in H.
    + destruct (if class_match fl c x then _ else None) eqn:E; simpl in H.
      * inversion H; subst. auto.
      * auto.
    + destruct (if min is 0 then _ else None) eqn:E; simpl in H.
      * inversion H; subst. auto.
      * auto.
Qed.

Lemma exec_sound r : forall s k res,
  exec fl r s k = Some res ->
  exists w aft cp, rest s = w ++ aft /\ Lang fl r (before s) w aft
    /\ k (MState (rev w ++ before s) aft cp) = Some res.
Proof.
  induction r as [|c|r1 IH1 r2 IH2|g min c|r1 IH1|n r1 IH1|r1 IH1|c];
    intros s k res H; simpl in H.
  - exists [], (rest s), (caps s). destruct s; simpl in *. auto.
  - destruct (rest s) as [|x t] eqn:Hr; [discriminate|].
    destruct (class_match fl c x) eqn:Hx; [|discriminate].
    exists [x], t, (caps s). simpl. eauto.
  - apply IH1 in H as (w1 & aft1 & cp1 & Hr1 & HL1 & H).
    apply IH2 in H as (w2 & aft2 & cp2 & Hr2 & HL2 & H). simpl in *. subst aft1.
    exists (w1 ++ w2), aft2, cp2. rewrite <- app_assoc. split; [auto|]. split.
    + exists w1, w2. auto.
    + rewrite rev_app_distr, <- app_assoc. auto.
  - apply rep_sound in H as (w & aft & Hr & Hlen & Hall & Hk).
    exists w, aft, (caps s). simpl. auto.
  - destruct (exec fl r1 s k) eqn:E; simpl in H.
    + inversion H; subst. apply IH1 in E as (w & aft & cp & ? & ? & ?).
      exists w, aft, cp. simpl. auto.
    + exists [], (rest s), (caps s). destruct s; simpl in *. auto.
  - apply IH1 in H as (w & aft & cp & Hr & HL & H). simpl in H.
    exists w, aft, ((n, span s (MState (rev w ++ before s) aft cp)) :: cp). auto.
  - destruct (exec fl r1 s Some) as [e|] eqn:E; [|discriminate].
    apply IH1 in E as (w & aft & cp & Hr & HL & E).
    exists [], (rest s), (caps e). simpl. split; [auto|]. split; [|auto].
    split; [auto|]. exists w, aft. auto.
  - destruct (before s) as [|x b] eqn:Hb; [discriminate|].
    destruct (class_match fl c x) eqn:Hx; [|discriminate].
    exists [], (rest s), (caps s). destruct s; simpl in *. subst. eauto 10.
Qed.

Lemma rep_complete g c k : forall w aft min bef cp,
  min <= length w ->
  forallb (class_match fl c) w = true ->
  (forall cp', is_Some (k (MState (rev w ++ bef) aft cp'))) ->
  is_Some (rep fl g c k min bef (w ++ aft) cp).
Proof.
  induction w as [|x w IH]; intros aft min bef cp Hlen Hall Hk; simpl in *.
  - assert (min = 0) as -> by lia.
    destruct aft as [|y t]; simpl; [apply Hk|].
    destruct g; simpl.
    + destruct (if class_match fl c y then _ else None); simpl; [eauto|apply Hk].
    + destruct (Hk cp) as [v Hv]. rewrite Hv. simpl. eauto.
  - apply andb_true_iff in Hall as [Hx Hall]. rewrite Hx.
    assert (Hm : is_Some (rep fl g c k (Nat.pred min) (x :: bef) (w ++ aft) cp)).
    { apply IH; [lia|auto|]. intros cp'. specialize (Hk cp').
      rewrite <- app_assoc in Hk. exact Hk. }
    destruct Hm as [v Hv]. rewrite Hv.
    destruct g; simpl; [eauto|].
    destruct (if min is 0 then _ else None); simpl; eauto.
Qed.

Lemma exec_complete r : forall s k w aft,
  rest s = w ++ aft ->
  Lang fl r (before s) w aft ->
  (forall cp, is_Some (k (MState (rev w ++ before s) aft cp))) ->
  is_Some (exec fl r s k).
Proof.
  induction r as [|c|r1 IH1 r2 IH2|g min c|r1 IH1|n r1 IH1|r1 IH1|c];
    intros s k w aft Hr HL Hk; simpl in *.
  - subst w. destruct s; simpl in *. subst. apply Hk.
  - destruct HL as (x & -> & Hx). rewrite Hr. simpl. rewrite Hx. apply Hk.
  - destruct HL as (w1 & w2 & -> & HL1 & HL2).
    eapply IH1; [rewrite Hr, <- app_assoc; reflexivity|exact HL1|].
    intros cp. eapply IH2; simpl; [reflexivity|exact HL2|].
    intros cp'. specialize (Hk cp'). rewrite rev_app_distr, <- app_assoc in Hk.
    exact Hk.
  - destruct HL as [Hlen Hall]. rewrite Hr. apply rep_complete; auto.
  - destruct (exec fl r1 s k) eqn:E; simpl; [eauto|].
    destruct HL as [->|HL].
    + destruct s; simpl in *. subst. apply Hk.
    + assert (is_Some (exec fl r1 s k)) as [v Hv] by (eapply IH1; eauto).
      congruence.
  - eapply IH1; [exact Hr|exact HL|]. intros cp. simpl. apply Hk.
  - destruct HL as (-> & w' & aft' & -> & HL).
    assert (is_Some (exec fl r1 s Some)) as [e He].
    { eapply (IH1 s Some w' aft'); [exact Hr|exact HL|intros; simpl; eauto]. }
    rewrite He. destruct s; simpl in *. subst. apply Hk.
  - destruct HL as (-> & x & b & Hb & Hx). rewrite Hb, Hx.
    destruct s; simpl in *. subst. apply Hk.
Qed.

Lemma span_app bef w r1 c1 r2 c2 :
  span (MState bef r1 c1) (MState (rev w ++ bef) r2 c2) = w.
Proof.
  unfold span, pos. simpl. rewrite length_app, length_rev.
  replace (length w + length bef - length bef) with (length (rev w))
    by (rewrite length_rev; lia).
  rewrite take_app_length. apply rev_involutive.
Qed.

Lemma span_one bef x r1 c1 r2 c2 :
  span (MState bef r1 c1) (MState (x :: bef) r2 c2) = [x].
Proof. apply (span_app bef [x]). Qed.

(** A search that succeeds found a word of the pattern, and the state
    it returns are the two ends of that word. *)
Lemma scan_sound r : forall rst bef s e,
  scan fl r bef rst = Some (s, e) ->
  exists pre w post cp,
    rst = pre ++ w ++ post /\ Lang fl r (rev pre ++ bef) w post
    /\ s = MState (rev pre ++ bef) (w ++ post) []
    /\ e = MState (rev w ++ rev pre ++ bef) post cp.
Proof.
  induction rst as [|x t IH]; intros bef s e H; simpl in H.
  - destruct (exec fl r (MState bef [] []) Some) as [e'|] eqn:E; [|discriminate].
    inversion H; subst. apply exec_sound in E as (w & aft & cp & Hr & HL & E).
    simpl in *. inversion E; subst.
    exists [], w, aft, cp. simpl. rewrite <- Hr. auto.
  - destruct (exec fl r (MState bef (x :: t) []) Some) as [e'|] eqn:E.
    + inversion H; subst. apply exec_sound in E as (w & aft & cp & Hr & HL & E).
      simpl in *. inversion E; subst.
      exists [], w, aft, cp. simpl. rewrite <- Hr. auto.
    + apply IH in H as (pre & w & post & cp & -> & HL & -> & ->).
      exists (x :: pre), w, post, cp. simpl. rewrite <- !app_assoc. simpl. auto.
Qed.

Lemma scan_complete r : forall pre bef w post,
  Lang fl r (rev pre ++ bef) w post ->
  is_Some (scan fl r bef (pre ++ w ++ post)).
Proof.
  induction pre as [|x pre IH]; intros bef w post HL; simpl in *.
  - assert (is_Some (exec fl r (MState bef (w ++ post) []) Some)) as [e He].
    { eapply exec_complete; simpl; [reflexivity|exact HL|intros; simpl; eauto]. }
    destruct w, post; simpl in *; rewrite He; eauto.
  - destruct (exec fl r _ Some); [eauto|].
    apply IH. rewrite <- app_assoc in HL. exact HL.
Qed.

(** Searching decides whether the pattern occurs. *)
Lemma found_scan r bef text :
  found (scan fl r bef text) = true <-> occurs_from fl r bef text.
Proof.
  split.
  - destruct (scan fl r bef text) as [[s e]|] eqn:E; [|discriminate]. intros _.
    apply scan_sound in E as (pre & w & post & cp & ? & ? & _).
    exists pre, w, post. auto.
  - intros (pre & w & post & -> & HL).
    destruct (scan_complete r pre bef w post HL) as [m Hm]. rewrite Hm. reflexivity.
Qed.

Lemma found_search r text :
  found (search fl r text) = true <-> occurs fl r text.
Proof. apply found_scan. Qed.

Lemma search_none r text : search fl r text = None <-> ~ occurs fl r text.
Proof.
  rewrite <- found_search. destruct (search fl r text); simpl; split; intros H;
    try discriminate; auto. exfalso. auto.
Qed.

Lemma scan_from_false r bef rst : scan_from fl r false bef rst = scan fl r bef rst.
Proof. destruct rst; reflexivity. Qed.

(** A search from the end of a match: as [scan_sound], and after an
    empty match the next match at the same place is not empty. *)
Lemma scan_from_sound r adv rst bef s e :
  scan_from fl r adv bef rst = Some (s, e) ->
  exists pre w post cp,
    rst = pre ++ w ++ post
    /\ s = MState (rev pre ++ bef) (w ++ post) []
    /\ e = MState (rev w ++ rev pre ++ bef) post cp
    /\ (adv = true -> pre = [] -> w <> []).
Proof.
  unfold scan_from. intros H.
  destruct (exec fl r (MState bef rst []) (accept adv (length bef))) as [e'|] eqn:E.
  - inversion H; subst. apply exec_sound in E as (w & aft & cp & Hr & _ & E).
    simpl in *. subst rst. unfold accept in E.
    destruct (adv && (pos (MState (rev w ++ bef) aft cp) =? length bef)) eqn:Hadv;
      [discriminate|]. inversion E; subst.
    exists [], w, aft, cp. simpl. repeat split; auto.
    intros -> _ ->. simpl in Hadv. unfold pos in Hadv. simpl in Hadv.
    rewrite Nat.eqb_refl in Hadv. discriminate.
  - destruct rst as [|x t]; [discriminate|].
    apply scan_sound in H as (pre & w & post & cp & -> & _ & -> & ->).
    exists (x :: pre), w, post, cp. simpl. rewrite <- !app_assoc. simpl.
    repeat split; auto; discriminate.
Qed.

(** The loop of [findall] and [split] ends: past twice the length of the
    text, more rounds change nothing. *)
Lemma matches_fuel r : forall fuel (adv : bool) bef (rst : list ascii),
  2 * length rst + (if adv then 0 else 1) < fuel ->
  matches fl fuel r adv bef rst = matches fl (S fuel) r adv bef rst.
Proof.
  induction fuel as [|fuel IH]; intros adv bef rst Hfuel; [lia|].
  cbn [matches]. destruct (scan_from fl r adv bef rst) as [[s e]|] eqn:E; [|reflexivity].
  f_equal. apply scan_from_sound in E as (pre & w & post & cp & -> & -> & -> & Hadv).
  cbn [before rest]. apply IH. unfold pos. simpl.
  rewrite !length_app, !length_rev in *.
  destruct (Nat.eqb_spec (length w + (length pre + length bef))
                         (length pre + length bef)) as [Heq|Hne]; [|lia].
  assert (w = []) as -> by (destruct w; [reflexivity|simpl in Heq; lia]).
  simpl in *. destruct adv; [|lia].
  destruct pre; [exfalso; apply Hadv; reflexivity|simpl in *; lia].
Qed.

Lemma matches_rounds r text n :
  matches fl (rounds text + n) r false [] text = matches fl (rounds text) r false [] text.
Proof.
  induction n as [|n IH]; [rewrite Nat.add_0_r; reflexivity|].
  rewrite Nat.add_succ_r, <- matches_fuel; [exact IH|]. unfold rounds. lia.
Qed.

(** The first element of [findall] is the text of the first match. *)
Lemma findall_head r text :
  head (findall fl r text) = group0 <$> search fl r text.
Proof.
  unfold findall, rounds, search. replace (2 * length text + 2) with (S (2 * length text + 1)) by lia.
  simpl matches. rewrite scan_from_false.
  destruct (scan fl r [] text) as [[s e]|]; reflexivity.
Qed.

(** An occurrence in a later part of the text is an occurrence in the
    text. *)
Lemma occurs_from_app r bef pre text :
  occurs_from fl r (rev pre ++ bef) text -> occurs_from fl r bef (pre ++ text).
Proof.
  intros (a & w & post & -> & HL). exists (pre ++ a), w, post.
  rewrite rev_app_distr, <- !app_assoc. auto.
Qed.

Lemma occurs_later r pre text :
  occurs_from fl r (rev pre) text -> occurs fl r (pre ++ text).
Proof.
  intros H. apply occurs_from_app. rewrite app_nil_r. exact H.
Qed.

Lemma Lang_Cat r1 r2 bef w aft :
  Lang fl (Cat r1 r2) bef w aft <->
  exists w1 w2, w = w1 ++ w2 /\ Lang fl r1 bef w1 (w2 ++ aft)
                /\ Lang fl r2 (rev w1 ++ bef) w2 aft.
Proof. reflexivity. Qed.

Lemma Lang_Ahead r bef w aft :
  Lang fl (Ahead r) bef w aft <->
  w = [] /\ exists w' aft', aft = w' ++ aft' /\ Lang fl r bef w' aft'.
Proof. reflexivity. Qed.

End Facts.

Lemma class_match_simple fl fl' c x :
  ignorecase fl = ignorecase fl' -> (if c is CAny then false else true) = true ->
  class_match fl c x = class_match fl' c x.
Proof.
  intros Hi Hc. destruct c; simpl in *; try reflexivity; try discriminate;
    unfold lit_match; rewrite Hi; reflexivity.
Qed.

Lemma Lang_simple fl fl' r :
  ignorecase fl = ignorecase fl' -> simple r = true ->
  forall bef bef' w aft aft', Lang fl r bef w aft -> Lang fl' r bef' w aft'.
Proof.
  intros Hi. induction r as [|c|r1 IH1 r2 IH2|g min c|r1 IH1|n r1 IH1|r1 IH1|c];
    simpl; intros Hs bef bef' w aft aft' HL; try discriminate; auto.
  - destruct HL as (x & -> & Hx). exists x. split; [reflexivity|].
    rewrite <- Hx. symmetry. apply class_match_simple; auto.
  - apply andb_true_iff in Hs as [Hs1 Hs2].
    destruct HL as (w1 & w2 & -> & H1 & H2). exists w1, w2. eauto.
  - destruct HL as [Hlen Hall]. split; [exact Hlen|].
    rewrite <- Hall. clear Hall Hlen. induction w as [|x w IHw]; simpl; [reflexivity|].
    rewrite IHw. f_equal. symmetry. apply class_match_simple; auto.
  - destruct HL as [->|HL]; eauto.
  - eauto.
Qed.

Lemma simple_lits name : simple (lits name) = true.
Proof. unfold lits. induction (str name); simpl; auto. Qed.

End ReFacts.

(** ** The bounded section extractor *)

Module Item1Facts.
Import Re ReFacts Extract.

Lemma extract_item1_search text :
  extract_item1_business text =
  match search icase_dotall item1_pattern text with
  | Some m => group0 m
  | None => []
  end.
Proof.
  unfold extract_item1_business.
  pose proof (findall_head icase_dotall item1_pattern text) as H.
  destruct (findall icase_dotall item1_pattern text) as [|m ms];
    destruct (search icase_dotall item1_pattern text); simpl in H;
    congruence.
Qed.

(** Every match of the whole pattern is a start marker, a body and,
    ahead of it, an end marker; the matched text is marker and body. *)
Lemma item1_match text m0 :
  search icase_dotall item1_pattern text = Some m0 ->
  exists pre m body e post,
    text = pre ++ m ++ body ++ e ++ post
    /\ Lang icase_dotall item1_start (rev pre) m (body ++ e ++ post)
    /\ Lang icase_dotall item1_end (rev (pre ++ m ++ body)) e post
    /\ group0 m0 = m ++ body.
Proof.
  destruct m0 as [s e0]. intros H.
  apply scan_sound in H as (pre & w & post & cp & -> & HL & -> & ->).
  rewrite app_nil_r in *. unfold item1_pattern in HL.
  apply Lang_Cat in HL as (m & w2 & -> & Hm & HL).
  apply Lang_Cat in HL as (body & w3 & -> & _ & HL).
  apply Lang_Ahead in HL as (-> & e & post' & -> & He).
  exists pre, m, body, e, post'. rewrite app_nil_r in *. simpl in Hm.
  repeat split.
  - rewrite <- !app_assoc. reflexivity.
  - exact Hm.
  - rewrite !rev_app_distr, <- !app_assoc. exact He.
  - unfold group0. simpl. apply span_app.
Qed.

Lemma item1_nonempty text m0 :
  search icase_dotall item1_pattern text = Some m0 -> group0 m0 <> [].
Proof.
  intros H. apply item1_match in H as (pre & m & body & e & post & _ & Hm & _ & ->).
  unfold item1_start in Hm. simpl cats in Hm. apply Lang_Cat in Hm as (w1 & w2 & -> & H1 & _).
  unfold lits in H1. simpl in H1. destruct H1 as (a & b & -> & (x & -> & _) & _).
  discriminate.
Qed.

End Item1Facts.

(** ** Running a pattern along a text it was made for *)

Module RunFacts.
Import Re ReFacts.

Section Run.
Variable fl : flags.

Lemma lit_match_refl c : lit_match fl c c = true.
Proof. unfold lit_match, Chr.eqb. destruct (ignorecase fl); apply Ascii.eqb_refl. Qed.

Lemma run_chars p : forall bef aft cp k,
  exec fl (foldr (fun c r => Cat (Atom (CLit c)) r) Eps p) (MState bef (p ++ aft) cp) k
  = k (MState (rev p ++ bef) aft cp).
Proof.
  induction p as [|c p IH]; intros bef aft cp k; simpl; [reflexivity|].
  rewrite lit_match_refl, IH, <- app_assoc. reflexivity.
Qed.

Lemma run_lits name bef aft cp k :
  exec fl (lits name) (MState bef (str name ++ aft) cp) k
  = k (MState (rev (str name) ++ bef) aft cp).
Proof. apply run_chars. Qed.

Lemma run_rep_raw c k res : forall w aft min bef cp,
  forallb (class_match fl c) w = true ->
  min <= length w ->
  stops fl c aft = true ->
  k (MState (rev w ++ bef) aft cp) = Some res ->
  rep fl true c k min bef (w ++ aft) cp = Some res.
Proof.
  induction w as [|x w IH]; intros aft min bef cp Hall Hlen Hstop Hk; simpl in *.
  - assert (min = 0) as -> by lia.
    destruct aft as [|y t]; simpl in *; [exact Hk|].
    apply negb_true_iff in Hstop. rewrite Hstop. simpl. exact Hk.
  - apply andb_true_iff in Hall as [Hx Hall]. rewrite Hx.
    rewrite (IH aft (Nat.pred min) (x :: bef) cp); simpl; auto; [lia|].
    rewrite <- app_assoc in Hk. exact Hk.
Qed.

Lemma run_rep c min w bef aft cp k res :
  forallb (class_match fl c) w = true ->
  min <= length w ->
  stops fl c aft = true ->
  k (MState (rev w ++ bef) aft cp) = Some res ->
  exec fl (Rep true min c) (MState bef (w ++ aft) cp) k = Some res.
Proof. intros. simpl. apply run_rep_raw; auto. Qed.

Lemma run_ws w bef aft cp k res :
  forallb Chr.is_space w = true ->
  stops fl CSpace aft = true ->
  k (MState (rev w ++ bef) aft cp) = Some res ->
  exec fl ws_star (MState bef (w ++ aft) cp) k = Some res.
Proof. intros. apply run_rep; auto. lia. Qed.

Lemma run_cat r1 r2 s k :
  exec fl (Cat r1 r2) s k = exec fl r1 s (fun s1 => exec fl r2 s1 k).
Proof. reflexivity. Qed.

Lemma run_eps s k : exec fl Eps s k = k s.
Proof. reflexivity. Qed.

Lemma run_group n r s k :
  exec fl (Group n r) s k
  = exec fl r s (fun e => k (MState (before e) (rest e) ((n, span s e) :: caps e))).
Proof. reflexivity. Qed.

(** A lazy quantifier stops at the first place where the rest of the
    pattern matches. *)
Lemma run_lazy_raw c k res : forall w aft bef cp,
  forallb (class_match fl c) w = true ->
  (forall i, i < length w ->
     k (MState (rev (take i w) ++ bef) (drop i w ++ aft) cp) = None) ->
  k (MState (rev w ++ bef) aft cp) = Some res ->
  rep fl false c k 0 bef (w ++ aft) cp = Some res.
Proof.
  induction w as [|x w IH]; intros aft bef cp Hall Hnone Hk.
  - simpl in *. destruct aft; simpl; rewrite Hk; reflexivity.
  - simpl in Hall. apply andb_true_iff in Hall as [Hx Hall].
    pose proof (Hnone 0 ltac:(simpl; lia)) as H0. simpl in H0.
    cbn [app rep]. rewrite H0, Hx. simpl.
    apply IH; [exact Hall| |].
    + intros i Hi. specialize (Hnone (S i) ltac:(simpl; lia)). simpl in Hnone.
      rewrite <- app_assoc in Hnone. exact Hnone.
    + simpl in Hk. rewrite <- app_assoc in Hk. exact Hk.
Qed.

Lemma run_lazy c w bef aft cp k res :
  forallb (class_match fl c) w = true ->
  (forall i, i < length w ->
     k (MState (rev (take i w) ++ bef) (drop i w ++ aft) cp) = None) ->
  k (MState (rev w ++ bef) aft cp) = Some res ->
  exec fl (Rep false 0 c) (MState bef (w ++ aft) cp) k = Some res.
Proof. intros. simpl. apply run_lazy_raw; auto. Qed.

Lemma run_opt r s k res :
  exec fl r s k = Some res -> exec fl (Opt r) s k = Some res.
Proof. intros H. simpl. rewrite H. reflexivity. Qed.

(** The search passes over the places where the pattern cannot begin. *)
Lemma scan_skip r (ok : ascii -> bool) :
  (forall x t bef, ok x = false -> exec fl r (MState bef (x :: t) []) Some = None) ->
  forall pre bef rst,
    forallb (fun x => negb (ok x)) pre = true ->
    scan fl r bef (pre ++ rst) = scan fl r (rev pre ++ bef) rst.
Proof.
  intros Hfail. induction pre as [|x pre IH]; intros bef rst Hpre; [reflexivity|].
  simpl in Hpre. apply andb_true_iff in Hpre as [Hx Hpre]. apply negb_true_iff in Hx.
  cbn [app scan]. rewrite (Hfail x _ bef Hx). rewrite IH by exact Hpre.
  simpl. rewrite <- app_assoc. reflexivity.
Qed.

End Run.
End RunFacts.

Module TagFacts.
Import Re ReFacts RunFacts Extract.

Lemma space_not_digit c : Chr.is_space c = true -> Chr.is_digit c = false.
Proof. destruct c as [[] [] [] [] [] [] [] []]; vm_compute; congruence. Qed.

Lemma digit_not_space c : Chr.is_digit c = true -> Chr.is_space c = false.
Proof. destruct c as [[] [] [] [] [] [] [] []]; vm_compute; congruence. Qed.

Lemma run_open_tag fl name w1 w2 bef aft cp k res :
  blank w1 = true -> blank w2 = true ->
  solid (str name) = true -> str name <> [] ->
  k (MState (rev (open_text w1 name w2) ++ bef) aft cp) = Some res ->
  exec fl (open_tag name) (MState bef (open_text w1 name w2 ++ aft) cp) k = Some res.
Proof.
  intros H1 H2 Hs Hne Hk. unfold open_tag, open_text. simpl cats.
  rewrite <- !app_assoc.
  rewrite run_cat, run_lits, run_cat. apply run_ws; [exact H1| |].
  { destruct (str name); [congruence|exact Hs]. }
  rewrite run_cat, run_lits, run_cat. apply run_ws; [exact H2|reflexivity|].
  rewrite run_cat, run_lits, run_eps.
  unfold open_text, close_text in Hk.
  rewrite !rev_app_distr, <- !app_assoc in Hk. exact Hk.
Qed.

Lemma run_close_tag fl name w1 w2 w3 bef aft cp k res :
  blank w1 = true -> blank w2 = true -> blank w3 = true ->
  solid (str name) = true -> str name <> [] ->
  k (MState (rev (close_text w1 w2 name w3) ++ bef) aft cp) = Some res ->
  exec fl (close_tag name) (MState bef (close_text w1 w2 name w3 ++ aft) cp) k = Some res.
Proof.
  intros H1 H2 H3 Hs Hne Hk. unfold close_tag, close_text. simpl cats.
  rewrite <- !app_assoc.
  rewrite run_cat, run_lits, run_cat. apply run_ws; [exact H1|reflexivity|].
  rewrite run_cat, run_lits, run_cat. apply run_ws; [exact H2| |].
  { destruct (str name); [congruence|exact Hs]. }
  rewrite run_cat, run_lits, run_cat. apply run_ws; [exact H3|reflexivity|].
  rewrite run_cat, run_lits, run_eps.
  unfold open_text, close_text in Hk.
  rewrite !rev_app_distr, <- !app_assoc in Hk. exact Hk.
Qed.

Lemma simple_open_tag name : simple (open_tag name) = true.
Proof. unfold open_tag. simpl. rewrite simple_lits. reflexivity. Qed.

Lemma simple_close_tag name : simple (close_tag name) = true.
Proof. unfold close_tag. simpl. rewrite simple_lits. reflexivity. Qed.

Lemma has_tag_pair_intro fl name pre o mid c post b1 a1 b2 a2 :
  ignorecase fl = true ->
  Lang fl (open_tag name) b1 o a1 ->
  Lang fl (close_tag name) b2 c a2 ->
  has_tag_pair name (pre ++ o ++ mid ++ c ++ post).
Proof.
  intros Hi Ho Hc. exists pre, o, mid, c, post. split; [reflexivity|]. split.
  - eapply Lang_simple; [|apply simple_open_tag|exact Ho]. exact Hi.
  - eapply Lang_simple; [|apply simple_close_tag|exact Hc]. exact Hi.
Qed.

(** An opening tag is part of every tag pair. *)
Lemma has_tag_pair_open name text :
  has_tag_pair name text -> occurs icase (open_tag name) text.
Proof.
  intros (pre & o & mid & c & post & -> & Ho & _).
  exists pre, o, (mid ++ c ++ post). rewrite app_nil_r. auto.
Qed.

Ltac cat_head H o Ho :=
  let w := fresh "w" in apply Lang_Cat in H as (o & w & -> & Ho & H).

Lemma is_officer_pair text m :
  search icase is_officer_pattern text = Some m -> has_tag_pair "isOfficer" text.
Proof.
  destruct m as [s e]. intros H.
  apply scan_sound in H as (pre & w & post & cp & -> & HL & _).
  unfold is_officer_pattern in HL. simpl cats in HL. cat_head HL o Ho. cat_head HL a Ha. cat_head HL g Hg. cat_head HL b Hb.
  cat_head HL c Hc. simpl in HL. subst.
  replace (pre ++ (o ++ a ++ g ++ b ++ c ++ []) ++ post)
    with (pre ++ o ++ (a ++ g ++ b) ++ c ++ post)
    by (rewrite <- !app_assoc; reflexivity).
  eapply (has_tag_pair_intro icase); [reflexivity|eassumption|eassumption].
Qed.

Lemma officer_title_pair text m :
  search icase_dotall officer_title_pattern text = Some m ->
  has_tag_pair "officerTitle" text.
Proof.
  destruct m as [s e]. intros H.
  apply scan_sound in H as (pre & w & post & cp & -> & HL & _).
  unfold officer_title_pattern in HL. simpl cats in HL. cat_head HL o Ho. cat_head HL a Ha. cat_head HL g Hg. cat_head HL b Hb.
  cat_head HL c Hc. simpl in HL. subst.
  replace (pre ++ (o ++ a ++ g ++ b ++ c ++ []) ++ post)
    with (pre ++ o ++ (a ++ g ++ b) ++ c ++ post)
    by (rewrite <- !app_assoc; reflexivity).
  eapply (has_tag_pair_intro icase_dotall); [reflexivity|eassumption|eassumption].
Qed.

Lemma transaction_type_pair text m :
  search icase transaction_type_pattern text = Some m ->
  has_tag_pair "transactionAcquiredDisposedCode" text.
Proof.
  destruct m as [s e]. intros H.
  apply scan_sound in H as (pre & w & post & cp & -> & HL & _).
  unfold transaction_type_pattern in HL. simpl cats in HL. cat_head HL o Ho. cat_head HL a Ha. cat_head HL v Hv. cat_head HL b Hb.
  cat_head HL g Hg. cat_head HL d Hd. cat_head HL x Hx. cat_head HL f Hf.
  cat_head HL c Hc. simpl in HL. subst.
  replace (pre ++ (o ++ a ++ v ++ b ++ g ++ d ++ x ++ f ++ c ++ []) ++ post)
    with (pre ++ o ++ (a ++ v ++ b ++ g ++ d ++ x ++ f) ++ c ++ post)
    by (rewrite <- !app_assoc; reflexivity).
  eapply (has_tag_pair_intro icase); [reflexivity|eassumption|eassumption].
Qed.

Lemma scan_here fl r bef rst e :
  exec fl r (MState bef rst []) Some = Some e ->
  scan fl r bef rst = Some (MState bef rst [], e).
Proof. intros H. destruct rst; simpl; rewrite H; reflexivity. Qed.

Lemma lstrip_solid s : solid s = true -> PyStr.lstrip s = s.
Proof.
  destruct s as [|c s]; simpl; [reflexivity|].
  intros H. apply negb_true_iff in H. simpl in H. rewrite H. reflexivity.
Qed.

Lemma strip_solid s : solid s = true -> solid (rev s) = true -> PyStr.strip s = s.
Proof.
  intros H1 H2. unfold PyStr.strip. rewrite (lstrip_solid s H1), (lstrip_solid _ H2).
  apply rev_involutive.
Qed.

Lemma digits_solid d : digits d = true -> solid d = true.
Proof.
  destruct d as [|c d]; simpl; [reflexivity|]. intros H.
  apply andb_true_iff in H as [H _]. apply digit_not_space in H.
  unfold solid. simpl. rewrite H. reflexivity.
Qed.

Lemma digits_rev d : digits d = true -> digits (rev d) = true.
Proof.
  unfold digits. rewrite !forallb_forall. intros H x Hx. apply H.
  apply in_rev. exact Hx.
Qed.

Lemma strip_digits d : digits d = true -> PyStr.strip d = d.
Proof.
  intros H. apply strip_solid; apply digits_solid; [|apply digits_rev]; exact H.
Qed.

Lemma stops_digit_blank fl w aft :
  blank w = true -> stops fl CDigit aft = true -> stops fl CDigit (w ++ aft) = true.
Proof.
  destruct w as [|x w]; simpl; [auto|]. intros H _.
  apply andb_true_iff in H as [H _]. apply space_not_digit in H. rewrite H. reflexivity.
Qed.

(** The officer flag is read through any white space around the tag
    names, the slash and the number. *)
Lemma is_officer_run w1 w2 w3 d w4 w5 w6 w7 post :
  blank w1 = true -> blank w2 = true -> blank w3 = true -> blank w4 = true ->
  blank w5 = true -> blank w6 = true -> blank w7 = true ->
  digits d = true -> d <> [] ->
  extract_is_officer
    (open_text w1 "isOfficer" w2 ++ w3 ++ d ++ w4
     ++ close_text w5 w6 "isOfficer" w7 ++ post) = Some d.
Proof.
  intros H1 H2 H3 H4 H5 H6 H7 Hd Hne. unfold extract_is_officer, search.
  erewrite scan_here.
  2:{ unfold is_officer_pattern. simpl cats.
      rewrite run_cat. apply run_open_tag; [exact H1|exact H2|reflexivity|discriminate|].
      rewrite run_cat. apply run_ws; [exact H3| |].
      { destruct d as [|c d]; [congruence|]. apply (digits_solid _ Hd). }
      rewrite run_cat, run_group. apply run_rep; [exact Hd| |..].
      { destruct d; [congruence|simpl; lia]. }
      { apply stops_digit_blank; [exact H4|reflexivity]. }
      cbn [before rest caps]. rewrite span_app.
      rewrite run_cat. apply run_ws; [exact H4|reflexivity|].
      rewrite run_cat.
      apply run_close_tag; [exact H5|exact H6|exact H7|reflexivity|discriminate|].
      rewrite run_eps. reflexivity. }
  unfold group. simpl. rewrite (strip_digits d Hd). reflexivity.
Qed.

Lemma code_solid c :
  class_match icase (CSet ["A"; "D"]%char) c = true -> Chr.is_space c = false.
Proof. destruct c as [[] [] [] [] [] [] [] []]; vm_compute; congruence. Qed.

Lemma code_upper c :
  class_match icase (CSet ["A"; "D"]%char) c = true ->
  Chr.upper c = "A"%char \/ Chr.upper c = "D"%char.
Proof. destruct c as [[] [] [] [] [] [] [] []]; vm_compute; intuition congruence. Qed.

Lemma run_atom fl c x bef aft cp k :
  class_match fl c x = true ->
  exec fl (Atom c) (MState bef ([x] ++ aft) cp) k = k (MState (x :: bef) aft cp).
Proof. intros H. simpl. rewrite H. reflexivity. Qed.

(** The transaction code is read from the inner [value] tag, through any
    white space, and comes back in upper case. *)
Lemma transaction_type_run a1 a2 b v1 v2 c1 code c2 e1 e2 e3 f g1 g2 g3 post :
  blank a1 = true -> blank a2 = true -> blank b = true ->
  blank v1 = true -> blank v2 = true -> blank c1 = true -> blank c2 = true ->
  blank e1 = true -> blank e2 = true -> blank e3 = true -> blank f = true ->
  blank g1 = true -> blank g2 = true -> blank g3 = true ->
  class_match icase (CSet ["A"; "D"]%char) code = true ->
  extract_transaction_type
    (open_text a1 "transactionAcquiredDisposedCode" a2 ++ b
     ++ open_text v1 "value" v2 ++ c1 ++ [code] ++ c2
     ++ close_text e1 e2 "value" e3 ++ f
     ++ close_text g1 g2 "transactionAcquiredDisposedCode" g3 ++ post)
  = Some [Chr.upper code].
Proof.
  intros Ha1 Ha2 Hb Hv1 Hv2 Hc1 Hc2 He1 He2 He3 Hf Hg1 Hg2 Hg3 Hcode.
  unfold extract_transaction_type, search.
  erewrite scan_here.
  2:{ unfold transaction_type_pattern. simpl cats.
      rewrite run_cat. apply run_open_tag; [exact Ha1|exact Ha2|reflexivity|discriminate|].
      rewrite run_cat. apply run_ws; [exact Hb|reflexivity|].
      rewrite run_cat. apply run_open_tag; [exact Hv1|exact Hv2|reflexivity|discriminate|].
      rewrite run_cat. apply run_ws; [exact Hc1| |].
      { simpl. rewrite (code_solid _ Hcode). reflexivity. }
      rewrite run_cat, run_group.
      rewrite run_atom by exact Hcode.
      cbn [before rest caps]. rewrite span_one.
      rewrite run_cat. apply run_ws; [exact Hc2|reflexivity|].
      rewrite run_cat.
      apply run_close_tag; [exact He1|exact He2|exact He3|reflexivity|discriminate|].
      rewrite run_cat. apply run_ws; [exact Hf|reflexivity|].
      rewrite run_cat.
      apply run_close_tag; [exact Hg1|exact Hg2|exact Hg3|reflexivity|discriminate|].
      rewrite run_eps. reflexivity. }
  unfold group. simpl. unfold PyStr.strip. simpl.
  rewrite (code_solid _ Hcode). simpl. rewrite (code_solid _ Hcode). reflexivity.
Qed.

End TagFacts.

(** ** Between the markers of item 1 *)

Module Item1Run.
Import Re ReFacts RunFacts Extract TagFacts.

(** A pattern that begins with a literal fails where the text begins
    with another character. *)
Lemma lits_head_fail fl c s' r x t bef cp k :
  lit_match fl c x = false ->
  exec fl (Cat (lits (String c s')) r) (MState bef (x :: t) cp) k = None.
Proof. intros H. unfold lits. simpl. rewrite H. reflexivity. Qed.

Lemma item1_end_head x t bef cp k :
  lit_match icase "I"%char x = false ->
  exec icase_dotall item1_end (MState bef (x :: t) cp) k = None.
Proof. intros H. unfold item1_end. simpl cats. apply lits_head_fail. exact H. Qed.

Lemma item1_pattern_head x t bef :
  lit_match icase "I"%char x = false ->
  exec icase_dotall item1_pattern (MState bef (x :: t) []) Some = None.
Proof.
  intros H. unfold item1_pattern, item1_start. simpl cats. rewrite run_cat.
  apply lits_head_fail. exact H.
Qed.

Lemma no_i_drop body i :
  no_i body = true -> i < length body ->
  exists x t, drop i body = x :: t /\ lit_match icase "I"%char x = false.
Proof.
  intros Hb Hi. destruct (drop i body) as [|x t] eqn:E.
  - apply (f_equal (@length ascii)) in E. rewrite length_drop in E. simpl in E. lia.
  - exists x, t. split; [reflexivity|]. unfold no_i in Hb.
    rewrite <- (take_drop i body), forallb_app, E in Hb. simpl in Hb.
    apply andb_true_iff in Hb as [_ Hb]. apply andb_true_iff in Hb as [Hx _].
    apply negb_true_iff. exact Hx.
Qed.

(** The end marker as the look-ahead reads it. *)
Lemma item1_end_run bef post cp :
  exec icase_dotall item1_end (MState bef (str "ITEM 1A. RISK FACTORS" ++ post) cp) Some
  = Some (MState (rev (str "ITEM 1A. RISK FACTORS") ++ bef) post cp).
Proof.
  unfold item1_end. simpl cats.
  change (str "ITEM 1A. RISK FACTORS")
    with (str "ITEM" ++ str " " ++ str "1A" ++ [] ++ ["."%char] ++ str " "
          ++ str "RISK" ++ str " " ++ str "FACTORS").
  rewrite <- !app_assoc.
  rewrite run_cat, run_lits, run_cat. apply run_rep; [reflexivity|simpl; lia|reflexivity|].
  rewrite run_cat, run_lits, run_cat. apply run_ws; [reflexivity|reflexivity|].
  rewrite run_cat. apply run_opt. rewrite run_atom by reflexivity.
  rewrite run_cat. apply run_ws; [reflexivity|reflexivity|].
  rewrite run_cat, run_lits, run_cat. apply run_rep; [reflexivity|simpl; lia|reflexivity|].
  rewrite run_cat, run_lits, run_eps. reflexivity.
Qed.

(** Between the two markers: the start marker and the body are returned,
    up to the first end marker. *)
Lemma item1_between pre body post :
  no_i pre = true -> no_i body = true ->
  extract_item1_business
    (pre ++ str "ITEM 1. BUSINESS" ++ body ++ str "ITEM 1A. RISK FACTORS" ++ post)
  = str "ITEM 1. BUSINESS" ++ body.
Proof.
  intros Hpre Hbody. rewrite Item1Facts.extract_item1_search. unfold search.
  rewrite (scan_skip icase_dotall item1_pattern (lit_match icase "I"%char)
             item1_pattern_head pre) by exact Hpre.
  erewrite scan_here.
  2:{ unfold item1_pattern, item1_start. simpl cats.
      change (str "ITEM 1. BUSINESS")
        with (str "ITEM" ++ str " " ++ str "1" ++ [] ++ ["."%char] ++ str " "
              ++ str "BUSINESS").
      rewrite <- !app_assoc.
      rewrite !run_cat, run_lits, run_cat.
      apply run_rep; [reflexivity|simpl; lia|reflexivity|].
      rewrite run_cat, run_lits, run_cat. apply run_ws; [reflexivity|reflexivity|].
      rewrite run_cat. apply run_opt. rewrite run_atom by reflexivity.
      rewrite run_cat. apply run_ws; [reflexivity|reflexivity|].
      rewrite run_cat, run_lits, run_eps, run_cat.
      apply run_lazy.
      - clear. induction body; simpl; auto.
      - intros i Hi. destruct (no_i_drop body i Hbody Hi) as (x & t & Hd & Hx).
        rewrite Hd. cbn [exec app before rest caps].
        rewrite item1_end_head by exact Hx. reflexivity.
      - cbn [exec before rest caps]. rewrite item1_end_run. reflexivity. }
  unfold group0. cbn [fst snd].
  match goal with
  | |- span (MState ?b _ _) (MState ?b' _ _) = ?w =>
      replace b' with (rev w ++ b);
        [apply span_app
        |rewrite !rev_app_distr; simpl; rewrite <- !app_assoc; reflexivity]
  end.
Qed.

End Item1Run.

(** ** The value between the officer-title tags *)

Module TitleRun.
Import Re ReFacts RunFacts Extract TagFacts Item1Run.

Lemma space_not_lt x : Chr.is_space x = true -> Chr.eqb "<"%char x = false.
Proof. destruct x as [[] [] [] [] [] [] [] []]; vm_compute; congruence. Qed.

Lemma lit_lt fl x : lit_match fl "<"%char x = Chr.eqb "<"%char x.
Proof.
  unfold lit_match. destruct (ignorecase fl); [|reflexivity].
  destruct x as [[] [] [] [] [] [] [] []]; vm_compute; reflexivity.
Qed.

(** White space and a closing tag do not match a text that is blocked. *)
Lemma ws_blocked fl (k : mstate -> option mstate) :
  (forall b cp, k (MState b [] cp) = None) ->
  (forall b x t cp, Chr.eqb "<"%char x = false -> k (MState b (x :: t) cp) = None) ->
  forall rst bef cp,
    blocked rst = true -> rep fl true CSpace k 0 bef rst cp = None.
Proof.
  intros Hnil Hcons. induction rst as [|x t IH]; intros bef cp Hb; simpl.
  - apply Hnil.
  - simpl in Hb. destruct (Chr.is_space x) eqn:Hx; simpl.
    + rewrite (IH _ _ Hb). simpl. apply Hcons. apply space_not_lt. exact Hx.
    + apply Hcons. apply negb_true_iff. exact Hb.
Qed.

Lemma close_blocked fl name rst bef cp k :
  blocked rst = true ->
  exec fl (Cat ws_star (Cat (close_tag name) Eps)) (MState bef rst cp) k = None.
Proof.
  intros Hb. rewrite run_cat. unfold ws_star. cbn [exec before rest caps].
  apply ws_blocked; [| |exact Hb].
  - intros b cp'. unfold close_tag. simpl cats. rewrite !run_cat. reflexivity.
  - intros b x t cp' Hx. unfold close_tag. simpl cats. rewrite !run_cat.
    apply (lits_head_fail fl "<"%char ""). rewrite lit_lt. exact Hx.
Qed.

Lemma blocked_app u v :
  no_lt u = true -> existsb (fun c => negb (Chr.is_space c)) u = true ->
  blocked (u ++ v) = true.
Proof.
  induction u as [|x u IH]; intros Hlt Hs; simpl in *; [discriminate|].
  apply andb_true_iff in Hlt as [Hx Hlt].
  destruct (Chr.is_space x); simpl in *; [apply IH; assumption|exact Hx].
Qed.

Lemma solid_tail content i :
  content <> [] -> solid (rev content) = true -> i < length content ->
  existsb (fun c => negb (Chr.is_space c)) (drop i content) = true.
Proof.
  intros Hne Hs Hi. destruct (rev content) as [|z r] eqn:E.
  - apply (f_equal (@rev ascii)) in E. rewrite rev_involutive in E. contradiction.
  - apply (f_equal (@rev ascii)) in E. rewrite rev_involutive in E. simpl in E.
    subst content. rewrite length_app in Hi. simpl in Hi.
    rewrite drop_app_le by (rewrite length_rev in *; lia).
    rewrite existsb_app. unfold solid in Hs. simpl in Hs. simpl. rewrite Hs.
    rewrite orb_true_r. reflexivity.
Qed.

Lemma no_lt_drop u i : no_lt u = true -> no_lt (drop i u) = true.
Proof.
  intros H. unfold no_lt in *. rewrite <- (take_drop i u), forallb_app in H.
  apply andb_true_iff in H as [_ H]. exact H.
Qed.

(** The title is read between the tags, through any white space around
    the tag names and around the value. *)
Lemma officer_title_run w1 w2 l content t w5 w6 w7 post :
  blank w1 = true -> blank w2 = true -> blank l = true -> blank t = true ->
  blank w5 = true -> blank w6 = true -> blank w7 = true ->
  content <> [] -> no_lt content = true ->
  solid content = true -> solid (rev content) = true ->
  extract_officer_title
    (open_text w1 "officerTitle" w2 ++ l ++ content ++ t
     ++ close_text w5 w6 "officerTitle" w7 ++ post)
  = clean_title content.
Proof.
  intros H1 H2 Hl Ht H5 H6 H7 Hne Hlt Hhead Hlast.
  unfold extract_officer_title, search.
  erewrite scan_here.
  2:{ unfold officer_title_pattern. simpl cats.
      rewrite run_cat. apply run_open_tag; [exact H1|exact H2|reflexivity|discriminate|].
      rewrite run_cat. apply run_ws; [exact Hl| |].
      { destruct content; [congruence|exact Hhead]. }
      rewrite run_cat, run_group. apply run_lazy.
      - clear. induction content; simpl; auto.
      - intros i Hi. cbn [before rest caps]. apply close_blocked.
        apply blocked_app; [apply no_lt_drop; exact Hlt|].
        apply solid_tail; assumption.
      - cbn [before rest caps]. rewrite span_app.
        rewrite run_cat. apply run_ws; [exact Ht|reflexivity|].
        rewrite run_cat.
        apply run_close_tag; [exact H5|exact H6|exact H7|reflexivity|discriminate|].
        rewrite run_eps. reflexivity. }
  unfold group. simpl. reflexivity.
Qed.

End TitleRun.

(** ** The cleaning of officer titles *)

Module TitleFacts.
Import Re ReFacts Extract.

Lemma upper_not_lower c : Chr.is_lower (Chr.upper c) = false.
Proof. destruct c as [[] [] [] [] [] [] [] []]; vm_compute; reflexivity. Qed.

Lemma upper_space c : Chr.is_space (Chr.upper c) = Chr.is_space c.
Proof. destruct c as [[] [] [] [] [] [] [] []]; vm_compute; reflexivity. Qed.

Lemma upper_comma c : Chr.eqb ","%char (Chr.upper c) = Chr.eqb ","%char c.
Proof. destruct c as [[] [] [] [] [] [] [] []]; vm_compute; reflexivity. Qed.

Lemma comma_solid c : Chr.eqb ","%char c = true -> Chr.is_space c = false.
Proof. destruct c as [[] [] [] [] [] [] [] []]; vm_compute; congruence. Qed.

(** [replace(',', '')] leaves no comma. *)
Lemma replace_comma s :
  existsb (Chr.eqb ","%char) (PyStr.replace (str ",") [] s) = false.
Proof.
  unfold PyStr.replace. induction s as [|c s IH]; simpl; [reflexivity|].
  rewrite andb_true_r. destruct (Chr.eqb ","%char c) eqn:E; simpl.
  - exact IH.
  - rewrite E. exact IH.
Qed.

(** The words of [split()] are not empty, hold no white space, and hold
    only characters of the text. *)
Lemma split_ws_words P : forall s cur,
  forallb (fun c => negb (Chr.is_space c) && P c) cur = true ->
  forallb (fun c => Chr.is_space c || P c) s = true ->
  Forall (word_of P) (PyStr.split_ws cur s).
Proof.
  induction s as [|c s IH]; intros cur Hcur Hs; simpl in *.
  - destruct cur as [|x cur]; [constructor|]. constructor; [|constructor].
    split.
    + intros H. apply (f_equal (@length ascii)) in H.
      rewrite length_rev in H. discriminate.
    + rewrite forallb_forall in *. intros y Hy. apply Hcur. apply in_rev. exact Hy.
  - apply andb_true_iff in Hs as [Hc Hs].
    destruct (Chr.is_space c) eqn:Ec.
    + destruct cur as [|x cur]; [apply IH; auto|].
      constructor; [|apply IH; auto]. split.
      * intros H. apply (f_equal (@length ascii)) in H.
        rewrite length_rev in H. discriminate.
      * rewrite forallb_forall in *. intros y Hy. apply Hcur. apply in_rev. exact Hy.
    + apply IH; [|exact Hs]. simpl in *. rewrite Ec, Hc, Hcur. reflexivity.
Qed.

Lemma nds_word P w t :
  forallb (fun c => negb (Chr.is_space c) && P c) w = true ->
  no_double_space (w ++ t) = no_double_space t.
Proof.
  induction w as [|a w IH]; intros H; simpl in *; [reflexivity|].
  apply andb_true_iff in H as [Ha Hw]. apply andb_true_iff in Ha as [Ha _].
  apply negb_true_iff in Ha. rewrite <- (IH Hw).
  destruct (w ++ t) eqn:E; [destruct w; reflexivity|].
  rewrite Ha. reflexivity.
Qed.

(** Joined by one space, such words give a text without two white-space
    characters in a row, made of the words' characters and spaces. *)
Lemma join_words P ws :
  Forall (word_of P) ws ->
  no_double_space (PyStr.join (str " ") ws) = true
  /\ forallb (fun c => Chr.is_space c || P c) (PyStr.join (str " ") ws) = true
  /\ (ws <> [] -> exists c t, PyStr.join (str " ") ws = c :: t /\ Chr.is_space c = false).
Proof.
  induction 1 as [|w ws [Hne Hw] Hws (IH1 & IH2 & IH3)]; simpl.
  - repeat split; auto. congruence.
  - assert (Hhead : exists c t, w = c :: t /\ Chr.is_space c = false).
    { destruct w as [|c t]; [congruence|]. exists c, t. split; [reflexivity|].
      simpl in Hw. apply andb_true_iff in Hw as [Hc _].
      apply andb_true_iff in Hc as [Hc _]. apply negb_true_iff in Hc. exact Hc. }
    assert (Hall : forallb (fun c => Chr.is_space c || P c) w = true).
    { rewrite forallb_forall in *. intros c Hc. specialize (Hw c Hc).
      apply andb_true_iff in Hw as [_ Hp]. rewrite Hp. apply orb_true_r. }
    destruct ws as [|w' ws'].
    + repeat split.
      * rewrite <- (app_nil_r w). rewrite (nds_word P); auto.
      * exact Hall.
      * intros _. destruct Hhead as (c & t & -> & Hc). eauto.
    + destruct IH3 as (c' & t' & Hj & Hc'); [congruence|].
      repeat split.
      * rewrite (nds_word P) by exact Hw.
        change (str " ") with [" "%char] in *. rewrite Hj in *.
        change ([" "%char] ++ c' :: t') with (" "%char :: c' :: t').
        change (no_double_space (" "%char :: c' :: t'))
          with (negb (Chr.is_space " "%char && Chr.is_space c')
                && no_double_space (c' :: t')).
        rewrite Hc', andb_false_r. exact IH1.
      * rewrite forallb_app, Hall. simpl. exact IH2.
      * intros _. destruct Hhead as (c & t & -> & Hc). simpl. eauto.
Qed.

Lemma contains_chars p : forall s,
  PyStr.contains p s = true -> forall c, In c p -> In c s.
Proof.
  assert (Hsw : forall p s, PyStr.startswith p s = true -> forall c, In c p -> In c s).
  { clear. induction p as [|a p IH]; intros s H c Hc; [destruct Hc|].
    destruct s as [|b s]; simpl in H; [discriminate|].
    apply andb_true_iff in H as [Hab H]. apply Ascii.eqb_eq in Hab. subst b.
    destruct Hc as [->|Hc]; [left; reflexivity|right; eauto]. }
  induction s as [|b s IH]; intros H c Hc; simpl in H.
  - rewrite orb_false_r in H. eapply Hsw; eauto.
  - apply orb_true_iff in H as [H|H]; [eapply Hsw; eauto|].
    right. eapply IH; eauto.
Qed.

Lemma nds_upper s : no_double_space (PyStr.upper s) = no_double_space s.
Proof.
  induction s as [|a s IH]; [reflexivity|].
  destruct s as [|b s]; [reflexivity|].
  change (PyStr.upper (a :: b :: s)) with (Chr.upper a :: PyStr.upper (b :: s)).
  change (PyStr.upper (b :: s)) with (Chr.upper b :: PyStr.upper s) in *.
  cbn [no_double_space] in *. rewrite IH, !upper_space. reflexivity.
Qed.

(** Whatever the raw title, the cleaned title is normalized. *)
Lemma clean_title_normalized title : normalized (clean_title title) = true.
Proof.
  unfold clean_title.
  set (t := PyStr.replace (str ",") [] (PyStr.replace (str "&amp;") [] title)).
  set (P := fun c => negb (Chr.eqb ","%char c)).
  assert (Ht : forallb (fun c => Chr.is_space c || P c) t = true).
  { pose proof (replace_comma (PyStr.replace (str "&amp;") [] title)) as H.
    fold t in H. revert H. generalize t. clear. intros t.
    induction t as [|c t IH]; simpl; [reflexivity|]. intros H.
    apply orb_false_iff in H as [Hc H]. unfold P at 1. rewrite Hc, IH by exact H.
    rewrite orb_true_r. reflexivity. }
  pose proof (split_ws_words P t [] eq_refl Ht) as Hw.
  apply join_words in Hw as (Hnds & Hall & _). fold (PyStr.split t) in *.
  set (j := PyStr.join (str " ") (PyStr.split t)) in *.
  assert (Hlow : forallb (fun c => negb (Chr.is_lower c)) (PyStr.upper j) = true).
  { unfold PyStr.upper. rewrite forallb_forall. intros c Hc.
    apply in_map_iff in Hc as (x & <- & _). rewrite upper_not_lower. reflexivity. }
  unfold normalized. rewrite Hlow, nds_upper, Hnds. simpl. rewrite andb_true_r.
  apply andb_true_iff. split.
  - apply negb_true_iff. apply not_true_is_false. intros H.
    apply existsb_exists in H as (c & Hc & Hcomma).
    unfold PyStr.upper in Hc. apply in_map_iff in Hc as (x & <- & Hx).
    rewrite upper_comma in Hcomma. rewrite forallb_forall in Hall.
    specialize (Hall x Hx). unfold P in Hall.
    rewrite Hcomma, (comma_solid _ Hcomma) in Hall. discriminate.
  - apply negb_true_iff. apply not_true_is_false. intros H.
    pose proof (contains_chars _ _ H "a"%char) as Ha.
    rewrite forallb_forall in Hlow.
    assert (Hin : In "a"%char (PyStr.upper j)) by (apply Ha; simpl; auto 10).
    apply Hlow in Hin. vm_compute in Hin. discriminate.
Qed.

End TitleFacts.

(** ** The sentence matcher *)

Module SentenceFacts.
Import Re ReFacts RunFacts Extract.

Lemma rep_spaces fl : forall rst bef,
  rep fl true CSpace Some 0 bef rst [] = Some (run_spaces bef rst).
Proof.
  induction rst as [|c t IH]; intros bef; simpl; [reflexivity|].
  destruct (Chr.is_space c); simpl; [|reflexivity].
  rewrite IH. reflexivity.
Qed.

Lemma class_terminal fl c :
  ignorecase fl = false ->
  class_match fl (CSet ["."; "!"; "?"]%char) c = terminal c.
Proof.
  intros Hi. unfold terminal. simpl. unfold lit_match. rewrite Hi.
  unfold Chr.eqb. rewrite !(Ascii.eqb_sym c). rewrite orb_false_r, orb_assoc.
  reflexivity.
Qed.

(** The break pattern matches where the text behind ends a sentence and
    white space is ahead; it takes all of that white space. *)
Lemma exec_break bef rst :
  exec plain sentence_break (MState bef rst []) Some =
  match rst with
  | c :: t => if ends_sentence bef && Chr.is_space c
              then Some (run_spaces (c :: bef) t) else None
  | [] => None
  end.
Proof.
  unfold sentence_break, ws_plus. cbn [exec before rest caps].
  destruct bef as [|x bef]; cbn [ends_sentence].
  - destruct rst; reflexivity.
  - rewrite class_terminal by reflexivity. destruct (terminal x); simpl.
    + destruct rst as [|c t]; [reflexivity|]. simpl.
      destruct (Chr.is_space c); [|reflexivity].
      simpl. rewrite rep_spaces. reflexivity.
    + destruct rst; reflexivity.
Qed.

Lemma space_not_terminal c : Chr.is_space c = true -> terminal c = false.
Proof. destruct c as [[] [] [] [] [] [] [] []]; vm_compute; congruence. Qed.

Lemma run_spaces_facts : forall t b c,
  Chr.is_space c = true ->
  let e := run_spaces (c :: b) t in
  split_sentences true [] t = split_sentences false [] (rest e)
  /\ rev (before e) ++ rest e = rev (c :: b) ++ t
  /\ length (rest e) <= length t
  /\ length (c :: b) <= pos e
  /\ ends_sentence (before e) = false
  /\ caps e = [].
Proof.
  induction t as [|x t IH]; intros b c Hc; simpl.
  - rewrite (space_not_terminal c Hc). unfold pos. simpl. repeat split; auto.
  - destruct (Chr.is_space x) eqn:Hx.
    + destruct (IH (c :: b) x Hx) as (H1 & H2 & H3 & H4 & H5 & H6).
      repeat split; auto.
      * rewrite H2. simpl. rewrite <- !app_assoc. reflexivity.
      * simpl in H4. lia.
    + simpl. rewrite Hx, (space_not_terminal c Hc). unfold pos. simpl.
      repeat split; auto.
Qed.

(** One search of the break pattern against one step of the
    specification's cutting. *)
Lemma scan_break bef0 : forall rst cur,
  ends_sentence (cur ++ bef0) = ends_sentence cur ->
  match scan plain sentence_break (cur ++ bef0) rst with
  | None => split_sentences false cur rst = [rev cur ++ rst]
  | Some (s, e) =>
      exists mid,
        rst = mid ++ rest s
        /\ before s = rev mid ++ cur ++ bef0
        /\ rev (before e) ++ rest e = rev (cur ++ bef0) ++ rst
        /\ length (rest e) < length rst
        /\ pos s < pos e
        /\ ends_sentence (before e) = false
        /\ split_sentences false cur rst
           = (rev cur ++ mid) :: split_sentences false [] (rest e)
  end.
Proof.
  induction rst as [|c t IH]; intros cur Hends.
  - cbn [scan]. rewrite exec_break. simpl. rewrite app_nil_r. reflexivity.
  - cbn [scan]. rewrite exec_break, Hends.
    destruct (ends_sentence cur && Chr.is_space c) eqn:Hbrk.
    + apply andb_true_iff in Hbrk as [He Hc].
      destruct (run_spaces_facts t (cur ++ bef0) c Hc) as (H1 & H2 & H3 & H4 & H5 & _).
      cbv zeta in *.
      exists []. cbn [split_sentences]. rewrite Hc, He.
      split; [reflexivity|]. split; [reflexivity|].
      split; [rewrite H2; simpl; rewrite <- app_assoc; reflexivity|].
      split; [cbn [length]; lia|].
      split; [unfold pos at 1; cbn [before length] in *; lia|].
      split; [exact H5|].
      rewrite app_nil_r, H1. reflexivity.
    + specialize (IH (c :: cur) eq_refl).
      assert (Hstep : split_sentences false cur (c :: t)
                      = split_sentences false (c :: cur) t).
      { cbn [split_sentences]. destruct (Chr.is_space c); [|reflexivity].
        rewrite andb_true_r in Hbrk. rewrite Hbrk. reflexivity. }
      change (c :: cur ++ bef0) with ((c :: cur) ++ bef0).
      destruct (scan plain sentence_break ((c :: cur) ++ bef0) t) as [[s e]|].
      * destruct IH as (mid & H1 & H2 & H3 & H4 & H5 & H6 & H7).
        exists (c :: mid). rewrite Hstep, H7.
        repeat split; auto.
        -- simpl. rewrite <- H1. reflexivity.
        -- rewrite H2. simpl. rewrite <- !app_assoc. reflexivity.
        -- rewrite H3. simpl. rewrite <- !app_assoc. reflexivity.
        -- simpl. lia.
        -- simpl. rewrite <- !app_assoc. reflexivity.
      * rewrite Hstep, IH. simpl. rewrite <- app_assoc. reflexivity.
Qed.

(** The loop of [re.split] against the specification's cutting. *)
Lemma pieces_sentences : forall n rst fuel bef0,
  length rst <= n -> length rst < fuel ->
  ends_sentence bef0 = false ->
  pieces (length bef0) (matches plain fuel sentence_break false bef0 rst)
         (rev bef0 ++ rst)
  = split_sentences false [] rst.
Proof.
  induction n as [|n IH]; intros rst fuel bef0 Hn Hfuel Hends;
    (destruct fuel as [|fuel]; [lia|]); cbn [matches]; rewrite scan_from_false;
    pose proof (scan_break bef0 rst [] Hends) as Hscan; simpl app in Hscan;
    destruct (scan plain sentence_break bef0 rst) as [[s e]|].
  - destruct Hscan as (mid & _ & _ & _ & Hlt & _). lia.
  - rewrite Hscan. simpl. rewrite drop_app_length'; [reflexivity|symmetry; apply length_rev].
  - destruct Hscan as (mid & H1 & H2 & H3 & H4 & H5 & H6 & H7).
    cbn [pieces]. rewrite H7. f_equal.
    + rewrite drop_app_length' by (symmetry; apply length_rev).
      unfold pos. rewrite H2, length_app, length_rev.
      replace (length mid + length bef0 - length bef0) with (length mid) by lia.
      rewrite H1 at 1. apply take_app_length.
    + replace (pos e =? pos s) with false by (symmetry; apply Nat.eqb_neq; lia).
      rewrite <- H3. apply IH; auto; lia.
  - rewrite Hscan. simpl. rewrite drop_app_length'; [reflexivity|symmetry; apply length_rev].
Qed.

Lemma split_sentences_ok text :
  Re.split plain sentence_break text = split_sentences false [] text.
Proof.
  unfold Re.split, rounds.
  apply (pieces_sentences (length text) text _ []); auto; lia.
Qed.

(** A literal pattern under [IGNORECASE] is a prefix test on the
    lower-case forms. *)
Lemma exec_chars_icase p : forall s bef cp k,
  exec icase (foldr (fun c r => Cat (Atom (CLit c)) r) Eps p) (MState bef s cp) k
  = if PyStr.startswith (PyStr.lower p) (PyStr.lower s)
    then k (MState (rev (take (length p) s) ++ bef) (drop (length p) s) cp)
    else None.
Proof.
  induction p as [|a p IH]; intros s bef cp k; [reflexivity|].
  destruct s as [|x s]; [reflexivity|].
  cbn [foldr exec rest before caps class_match PyStr.lower map PyStr.startswith].
  unfold lit_match. cbn [ignorecase icase].
  destruct (Chr.eqb (Chr.lower a) (Chr.lower x)); [|reflexivity].
  rewrite IH. simpl. rewrite <- app_assoc. reflexivity.
Qed.

Lemma found_scan_icase p : forall s bef,
  found (scan icase (foldr (fun c r => Cat (Atom (CLit c)) r) Eps p) bef s)
  = PyStr.contains (PyStr.lower p) (PyStr.lower s).
Proof.
  induction s as [|x s IH]; intros bef; cbn [scan]; rewrite exec_chars_icase.
  - simpl. destruct (PyStr.startswith _ _); reflexivity.
  - cbn [PyStr.lower map PyStr.contains].
    destruct (PyStr.startswith _ _); [reflexivity|]. apply IH.
Qed.

Lemma found_ai s : found (search icase pattern_ai s) = mentions_ai s.
Proof. unfold search, pattern_ai, lits. rewrite found_scan_icase. reflexivity. Qed.

Lemma extract_ai_sentences_ok text :
  extract_ai_sentences text = ai_sentences_spec text.
Proof.
  unfold extract_ai_sentences, ai_sentences_spec. rewrite split_sentences_ok.
  induction (split_sentences false [] text) as [|x l IH]; [reflexivity|].
  simpl. rewrite found_ai, IH. reflexivity.
Qed.

End SentenceFacts.

(** ** The sampling step and the fetch loop *)

Module FetchFacts.
Import Fetch.

(** Taking one item out of the pool: the item and the pool left are the
    pool before, in another order. *)
Lemma pool_step {A} (pool : list A) j x y :
  pool !! j = Some x -> last pool = Some y ->
  x :: take (length pool - 1) (<[j := y]> pool) ≡ₚ pool
  /\ length (take (length pool - 1) (<[j := y]> pool)) = length pool - 1.
Proof.
  intros Hx Hy. apply last_Some in Hy as [init ->].
  rewrite length_app. simpl.
  replace (length init + 1 - 1) with (length init) by lia.
  destruct (decide (j = length init)) as [->|Hj].
  - rewrite list_lookup_middle in Hx by reflexivity. inversion Hx; subst.
    rewrite list_insert_id by (apply list_lookup_middle; reflexivity).
    rewrite take_app_length. split; [|reflexivity].
    apply Permutation_cons_append.
  - assert (Hlt : j < length init).
    { apply lookup_lt_Some in Hx. rewrite length_app in Hx. simpl in Hx. lia. }
    rewrite lookup_app_l in Hx by exact Hlt.
    rewrite insert_app_l by exact Hlt.
    rewrite take_app_length' by (rewrite length_insert; reflexivity).
    split; [|apply length_insert].
    rewrite insert_take_drop by exact Hlt.
    rewrite <- (take_drop_middle init j x Hx) at 3.
    rewrite <- !app_assoc. simpl.
    transitivity (x :: take j init ++ drop (S j) init ++ [y]).
    + apply perm_skip. apply Permutation_app_head. apply Permutation_cons_append.
    + apply Permutation_middle.
Qed.

(** [k] draws from a pool of at least [k] items give [k] items, each
    from its own place in the pool. *)
Lemma sample_pool_spec {A} rnd : forall k i (pool : list A),
  k <= length pool ->
  length (sample_pool rnd i k pool) = k
  /\ exists rest, sample_pool rnd i k pool ++ rest ≡ₚ pool.
Proof.
  induction k as [|k IH]; intros i pool Hk; simpl.
  - split; [reflexivity|]. exists pool. reflexivity.
  - assert (Hn : length pool <> 0) by lia.
    assert (Hj : rnd i mod length pool < length pool) by (apply Nat.mod_upper_bound; exact Hn).
    destruct (lookup_lt_is_Some_2 pool _ Hj) as [x Hx]. rewrite Hx.
    destruct (last pool) as [y|] eqn:Hy.
    2:{ apply last_None in Hy. subst. simpl in Hn. congruence. }
    destruct (pool_step pool _ x y Hx Hy) as [Hperm Hlen].
    destruct (IH (S i) (take (length pool - 1) (<[rnd i mod length pool := y]> pool)))
      as [IHlen [rest IHperm]]; [lia|].
    simpl. split; [lia|]. exists rest. rewrite IHperm. exact Hperm.
Qed.

(** The sampling step on a target that is a count. *)
Lemma sampling_reducer_spec {A} rnd (records : list A) (target : nat) :
  exists out,
    sampling_reducer rnd records (Z.of_nat target) = Returned out
    /\ length out = Nat.min (length records) target
    /\ (length records <= target -> out = records)
    /\ (target < length records ->
        length out = target /\ exists rest, out ++ rest ≡ₚ records).
Proof.
  unfold sampling_reducer, random_sample.
  destruct (Z.gtb_spec (Z.of_nat (length records)) (Z.of_nat target)) as [Hgt|Hle].
  - assert (Hlt : target < length records) by lia.
    replace ((Z.of_nat target <? 0)%Z || (Z.of_nat (length records) <? Z.of_nat target)%Z)
      with false.
    2:{ symmetry. apply orb_false_iff. split; apply Z.ltb_ge; lia. }
    rewrite Nat2Z.id.
    destruct (sample_pool_spec rnd target 0 records) as [Hlen Hperm]; [lia|].
    eexists. split; [reflexivity|]. repeat split; auto; lia.
  - exists records. split; [reflexivity|]. repeat split; auto; lia.
Qed.

Section Loop.
Variable World : Type.
Variable get_filings : query -> World -> outcome api_result * World.
Variable query_str : list ascii.
Variable desired_count page_size : Z.

Lemma fetch_loop_spec : forall fuel start acc w,
  (desired_count <= Z.of_nat (length acc) + Z.of_nat fuel)%Z ->
  exists res tr w',
    fetch_loop World get_filings query_str desired_count page_size fuel start acc w
    = Some (res, tr, w')
    /\ run_ok query_str desired_count page_size start acc res (requests tr).
Proof.
  assert (Hstop : forall start acc (w : World),
    (desired_count <= Z.of_nat (length acc))%Z ->
    run_ok query_str desired_count page_size start acc (Returned acc) (requests [])).
  { intros start acc w Hge. split; [|split; [|split]].
    - intros i q r H. destruct i; discriminate.
    - intros pre q r post H. destruct pre; discriminate.
    - intros l H. inversion H; subst. simpl. rewrite app_nil_r. split; [reflexivity|].
      left. lia.
    - intros e H. discriminate. }
  induction fuel as [|fuel IH]; intros start acc w Hfuel; cbn [fetch_loop];
    destruct (Z.ltb_spec (Z.of_nat (length acc)) desired_count) as [Hlt|Hge];
    try (exists (Returned acc), [], w; split; [reflexivity|apply Hstop; auto]);
    try (exfalso; lia).
  - destruct (get_filings (Query query_str start page_size) w) as [[result|e] w'] eqn:Hget.
    + destruct (default [] result) as [|f fs] eqn:Hfs.
      * exists (Returned acc), [Request (Query query_str start page_size) (Returned result)], w'.
        split; [reflexivity|]. split; [|split; [|split]].
        -- intros i q r H. destruct i as [|[|i]]; simpl in H; try discriminate.
           inversion H; subst. f_equal. lia.
        -- intros pre q r post H. destruct pre as [|p [|p' pre]]; simpl in H;
             inversion H; subst; simpl.
           rewrite app_nil_r. split; [lia|]. split; [intros e He; discriminate|].
           intros _. auto.
        -- intros l H. inversion H; subst. simpl. rewrite Hfs. simpl.
           rewrite app_nil_r. split; [reflexivity|]. right.
           exists [], (Query query_str start page_size), (Returned result).
           split; [reflexivity|]. exists result. auto.
        -- intros e H. discriminate.
      * destruct (IH (start + page_size)%Z (acc ++ map to_row (f :: fs)) w')
          as (res & tr & w'' & Hrun & Hq & Hmid & Hres & Hexn).
        { rewrite length_app, length_map. simpl length. lia. }
        rewrite Hrun. eexists res, _, w''. split; [reflexivity|].
        cbn [requests]. split; [|split; [|split]].
        -- intros i q r H. destruct i as [|i]; simpl in H.
           ++ inversion H; subst. f_equal. lia.
           ++ apply Hq in H. subst q. f_equal. lia.
        -- intros pre q r post H. destruct pre as [|p pre]; simpl in H;
             inversion H; subst.
           ++ simpl. rewrite app_nil_r. split; [lia|]. split; [intros e He; discriminate|].
              intros (result' & Hr & Hnone). inversion Hr; subst. congruence.
           ++ match goal with
              | Hx : requests tr = _ |- _ =>
                  destruct (Hmid _ _ _ _ Hx) as (Ha & Hb & Hc)
              end.
              unfold rows_of_all in *. simpl. rewrite Hfs.
              rewrite <- app_assoc in Ha, Hc.
              split; [exact Ha|]. split; [exact Hb|exact Hc].
        -- intros l H. destruct (Hres l H) as [Hl Hend]. split.
           ++ rewrite Hl. unfold rows_of_all. simpl. rewrite Hfs, <- app_assoc. reflexivity.
           ++ destruct Hend as [Hend|(pre & q & r & Hrs & Hnone)]; [left; exact Hend|].
              right. exists ((Query query_str start page_size, Returned result) :: pre), q, r.
              rewrite Hrs. split; [reflexivity|exact Hnone].
        -- intros e H. destruct (Hexn e H) as (pre & q & Hrs).
           exists ((Query query_str start page_size, Returned result) :: pre), q.
           rewrite Hrs. reflexivity.
    + exists (Raised e), [Request (Query query_str start page_size) (Raised e)], w'.
      split; [reflexivity|]. split; [|split; [|split]].
      * intros i q r H. destruct i as [|[|i]]; simpl in H; try discriminate.
        inversion H; subst. f_equal. lia.
      * intros pre q r post H. destruct pre as [|p [|p' pre]]; simpl in H;
          inversion H; subst; simpl.
        rewrite app_nil_r. split; [lia|]. split; [intros e' He; inversion He; auto|].
        intros (result' & Hr & _). discriminate.
      * intros l H. discriminate.
      * intros e' H. inversion H; subst. exists [], (Query query_str start page_size).
        reflexivity.
Qed.

(** The whole routine ends, and its page requests are as [run_ok] says. *)
Lemma query_filings_run rnd w :
  exists res tr w',
    query_filings World get_filings query_str desired_count page_size rnd w
    = Some (res, tr, w')
    /\ forall pre q r post, requests tr = pre ++ (q, r) :: post ->
         (no_filings r -> post = [] /\ res = Returned (rows_of_all pre))
         /\ (forall e, r = Raised e -> post = [] /\ res = Raised e)
         /\ q = Query query_str (Z.of_nat (length pre) * page_size) page_size
         /\ (Z.of_nat (length (rows_of_all pre)) < desired_count)%Z.
Proof.
  unfold query_filings.
  destruct (fetch_loop_spec (Z.to_nat desired_count) 0 [] w)
    as (res & tr & w' & Hrun & Hq & Hmid & Hres & _); [simpl; lia|].
  rewrite Hrun. destruct res as [l|e].
  - eexists _, tr, w'. split; [reflexivity|].
    intros pre q r post H. destruct (Hmid pre q r post H) as (Hlt & Hraise & Hnone).
    split; [|split; [|split]].
    + intros Hr. destruct (Hnone Hr) as [-> Hl]. split; [reflexivity|].
      inversion Hl; subst. simpl in *. unfold sampling_reducer.
      destruct (Z.gtb_spec (Z.of_nat (length (rows_of_all pre))) desired_count);
        [lia|reflexivity].
    + intros e He. destruct (Hraise e He) as [_ Hbad]. discriminate.
    + rewrite (Hq (length pre) q r); [f_equal; lia|].
      rewrite H. apply list_lookup_middle. reflexivity.
    + exact Hlt.
  - exists (Raised e), tr, w'. split; [reflexivity|].
    intros pre q r post H. destruct (Hmid pre q r post H) as (Hlt & Hraise & Hnone).
    split; [|split; [|split]].
    + intros Hr. destruct (Hnone Hr) as [_ Hbad]. discriminate.
    + exact Hraise.
    + rewrite (Hq (length pre) q r); [f_equal; lia|].
      rewrite H. apply list_lookup_middle. reflexivity.
    + exact Hlt.
Qed.

(** Why the loop ended: the rows reached the target, or the last page
    brought nothing, or the last request raised. *)
Lemma query_filings_stops rnd w res tr w' :
  query_filings World get_filings query_str desired_count page_size rnd w
  = Some (res, tr, w') ->
  (desired_count <= Z.of_nat (length (rows_of_all (requests tr))))%Z
  \/ (exists pre q r, requests tr = pre ++ [(q, r)] /\ no_filings r)
  \/ (exists pre q e, requests tr = pre ++ [(q, Raised e)] /\ res = Raised e).
Proof.
  unfold query_filings.
  destruct (fetch_loop_spec (Z.to_nat desired_count) 0 [] w)
    as (res0 & tr0 & w0 & Hrun & _ & _ & Hres & Hexn); [simpl; lia|].
  rewrite Hrun. destruct res0 as [l|e]; intros H; inversion H; subst.
  - destruct (Hres l eq_refl) as [Hl [Hreach|Hlast]].
    + left. rewrite Hl in Hreach. exact Hreach.
    + right. left. exact Hlast.
  - destruct (Hexn e eq_refl) as (pre & q & Hrs). right. right. eauto.
Qed.

End Loop.

(** ceil(a / b) is past [j] exactly when [j] pages do not hold [a]. *)
Lemma cdiv_gt a b j : 0 < b -> j < cdiv a b <-> j * b < a.
Proof.
  intros Hb. unfold cdiv. split; intros H.
  - destruct (Nat.lt_ge_cases (j * b) a) as [|Hge]; [assumption|exfalso].
    assert ((a + b - 1) / b <= j); [|lia].
    apply Nat.lt_succ_r. apply Nat.Div0.div_lt_upper_bound; lia.
  - apply Nat.div_le_lower_bound; lia.
Qed.

Section Mock.
Variable records : list dict.
Variable query_str : list ascii.
Variable target P : nat.
Hypothesis P_pos : 0 < P.


(** The loop against the mock source, from the [j]-th page on. *)
Lemma mock_loop : forall fuel j,
  target <= Nat.min (j * P) (length records) + fuel ->
  ((length records) < target -> j <= cdiv (length records) P) ->
  exists m tr,
    fetch_loop unit (mock_source records) query_str (Z.of_nat target) (Z.of_nat P)
      fuel (Z.of_nat (j * P)) (map to_row (take (j * P) records)) tt
    = Some (Returned (map to_row (take m records)), tr, tt)
    /\ length (requests tr) = expected_requests (length records) target P - j
    /\ Nat.min (length records) target <= Nat.min m (length records).
Proof.
  induction fuel as [|fuel IH]; intros j Hfuel Hj; cbn [fetch_loop];
    rewrite length_map, length_take;
    destruct (Z.ltb_spec (Z.of_nat (Nat.min (j * P) (length records))) (Z.of_nat target)) as [Hlt|Hge];
    try (exfalso; lia).
  1,3: exists (j * P), []; split; [reflexivity|]; split; [|lia];
       simpl; unfold expected_requests; destruct (Nat.ltb_spec (length records) target); [lia|];
       assert (~ j < cdiv target P) by (rewrite cdiv_gt by exact P_pos; lia); lia.
  unfold mock_source at 1. cbn [q_size q_from]. rewrite !Nat2Z.id.
  set (page := take P (drop (j * P) records)).
  change (default [] (Some page)) with page.
  assert (Hlen : length page = Nat.min P ((length records) - j * P)).
  { unfold page. rewrite length_take, length_drop. reflexivity. }
  assert (Hacc : map to_row (take (j * P) records) ++ map to_row page
                 = map to_row (take (S j * P) records)).
  { unfold page. rewrite <- map_app, take_take_drop. f_equal. f_equal. lia. }
  clearbody page.
  destruct page as [|f fs].
  - exists (j * P), [Request (Query query_str (Z.of_nat (j * P)) (Z.of_nat P))
                       (Returned (Some []))].
    split; [reflexivity|]. simpl in Hlen. split; [|lia]. simpl. unfold expected_requests.
    destruct (Nat.ltb_spec (length records) target); [|lia].
    assert (~ j < cdiv (length records) P) by (rewrite cdiv_gt by exact P_pos; lia).
    specialize (Hj ltac:(lia)). lia.
  - simpl in Hlen. rewrite Hacc.
    replace (Z.of_nat (j * P) + Z.of_nat P)%Z with (Z.of_nat (S j * P)) by lia.
    destruct (IH (S j)) as (m & tr & Hrun & Hreq & Hm).
    { assert (Nat.min (j * P) (length records) < Nat.min (S j * P) (length records)) by lia. lia. }
    { intros HN. apply cdiv_gt; [exact P_pos|lia]. }
    rewrite Hrun. eexists m, _. split; [reflexivity|].
    split; [|exact Hm]. simpl. rewrite Hreq. unfold expected_requests.
    destruct (Nat.ltb_spec (length records) target).
    + assert (j < cdiv (length records) P) by (apply cdiv_gt; [exact P_pos|lia]). lia.
    + assert (j < cdiv target P) by (apply cdiv_gt; [exact P_pos|lia]). lia.
Qed.

(** [query_filings] against the mock source. *)
Lemma mock_query rnd :
  exists out tr,
    query_filings unit (mock_source records) query_str (Z.of_nat target) (Z.of_nat P)
      rnd tt
    = Some (Returned out, tr, tt)
    /\ length out = Nat.min (length records) target
    /\ length (requests tr) = expected_requests (length records) target P
    /\ exists rest, out ++ rest ≡ₚ map to_row records.
Proof.
  unfold query_filings. rewrite Nat2Z.id.
  destruct (mock_loop target 0) as (m & tr & Hrun & Hreq & Hm); [lia|lia|].
  change (Z.of_nat (0 * P)) with 0%Z in Hrun.
  change (map to_row (take (0 * P) records)) with (@nil filing_row) in Hrun.
  rewrite Hrun.
  destruct (sampling_reducer_spec rnd (map to_row (take m records)) target)
    as (out & Hout & Hlen & Hsame & Hsample).
  rewrite Hout. exists out, tr. split; [reflexivity|].
  rewrite length_map, length_take in *.
  split; [lia|]. split; [lia|].
  assert (Htake : exists rest', map to_row (take m records) ++ rest' ≡ₚ map to_row records).
  { exists (map to_row (drop m records)). rewrite <- map_app, take_drop. reflexivity. }
  destruct Htake as [rest' Hrest'].
  destruct (Nat.le_gt_cases (Nat.min m (length records)) target) as [Hle|Hgt].
  - rewrite (Hsame Hle). exists rest'. exact Hrest'.
  - destruct (Hsample Hgt) as [_ [rest Hrest]]. exists (rest ++ rest').
    rewrite app_assoc, Hrest. exact Hrest'.
Qed.

End Mock.

End FetchFacts.

(** ** A text mentions the phrase exactly when one of its sentences does *)

Module MentionFacts.
Import Re ReFacts Extract SentenceFacts.

(** A prefix test that runs into a character the pattern does not hold
    fails whatever follows. *)
Lemma startswith_cut x : forall p A R R',
  forallb (fun y => negb (Chr.eqb y x)) p = true ->
  PyStr.startswith p (A ++ x :: R) = PyStr.startswith p (A ++ x :: R').
Proof.
  induction p as [|y p IH]; intros A R R' Hp; [reflexivity|].
  simpl in Hp. apply andb_true_iff in Hp as [Hy Hp]. apply negb_true_iff in Hy.
  destruct A as [|a A]; simpl.
  - rewrite Hy. reflexivity.
  - rewrite (IH A R R' Hp). reflexivity.
Qed.

(** No occurrence of the pattern runs across [x] followed by [c], when
    the pattern does not hold [x] and does not begin with [c]. *)
Lemma contains_cut h p x c B : forall A,
  forallb (fun y => negb (Chr.eqb y x)) (h :: p) = true ->
  Chr.eqb h c = false ->
  PyStr.contains (h :: p) (A ++ x :: c :: B)
  = PyStr.contains (h :: p) (A ++ [x]) || PyStr.contains (h :: p) B.
Proof.
  intros A Hp Hc. induction A as [|a A IH].
  - assert (Hx : Chr.eqb h x = false).
    { simpl in Hp. apply andb_true_iff in Hp as [Hx _]. apply negb_true_iff in Hx.
      exact Hx. }
    cbn [app PyStr.contains PyStr.startswith]. rewrite Hx, Hc. reflexivity.
  - cbn [app PyStr.contains]. rewrite IH.
    change (a :: A ++ x :: c :: B) with ((a :: A) ++ x :: c :: B).
    change (a :: A ++ [x]) with ((a :: A) ++ [x]).
    rewrite (startswith_cut x (h :: p) (a :: A) (c :: B) [] Hp).
    rewrite orb_assoc. reflexivity.
Qed.

Lemma phrase_without_terminal x :
  terminal x = true ->
  forallb (fun y => negb (Chr.eqb y (Chr.lower x))) (str "artificial intelligence") = true.
Proof. destruct x as [[] [] [] [] [] [] [] []]; vm_compute; congruence. Qed.

Lemma phrase_head_solid c :
  Chr.is_space c = true -> Chr.eqb "a"%char (Chr.lower c) = false.
Proof. destruct c as [[] [] [] [] [] [] [] []]; vm_compute; congruence. Qed.

Lemma mentions_after_space c t :
  Chr.is_space c = true -> mentions_ai (c :: t) = mentions_ai t.
Proof.
  intros Hc. unfold mentions_ai. cbn [PyStr.lower map PyStr.contains].
  change (str "artificial intelligence")
    with ("a"%char :: str "rtificial intelligence").
  cbn [PyStr.startswith]. rewrite (phrase_head_solid c Hc). reflexivity.
Qed.

Lemma mentions_across_break cur c t :
  ends_sentence cur = true -> Chr.is_space c = true ->
  mentions_ai (rev cur ++ c :: t) = mentions_ai (rev cur) || mentions_ai t.
Proof.
  intros He Hc. destruct cur as [|x cur]; [discriminate|]. simpl in He.
  unfold mentions_ai, PyStr.lower. simpl rev.
  rewrite <- app_assoc. simpl app. rewrite !map_app. cbn [map].
  change (str "artificial intelligence")
    with ("a"%char :: str "rtificial intelligence").
  apply contains_cut.
  - apply (phrase_without_terminal x He).
  - apply phrase_head_solid. exact Hc.
Qed.

(** Cutting the text into sentences loses no mention and makes none. *)
Lemma mentions_split : forall text b cur,
  (b = true -> cur = []) ->
  existsb mentions_ai (split_sentences b cur text) = mentions_ai (rev cur ++ text).
Proof.
  induction text as [|c t IH]; intros b cur Hb; cbn [split_sentences].
  - simpl. rewrite orb_false_r, app_nil_r. reflexivity.
  - assert (Hpush : existsb mentions_ai (split_sentences false (c :: cur) t)
                    = mentions_ai (rev cur ++ c :: t)).
    { rewrite IH by discriminate. simpl. rewrite <- app_assoc. reflexivity. }
    destruct (Chr.is_space c) eqn:Hc; [|exact Hpush].
    destruct b.
    + rewrite (Hb eq_refl). rewrite IH by reflexivity. simpl.
      symmetry. apply mentions_after_space. exact Hc.
    + destruct (ends_sentence cur) eqn:He; [|exact Hpush].
      cbn [existsb]. rewrite IH by reflexivity. simpl.
      symmetry. apply mentions_across_break; assumption.
Qed.

(** [extract_ai_sentences] finds a sentence exactly in the texts that
    mention the phrase. *)
Lemma ai_sentences_found text :
  (0 <? length (extract_ai_sentences text)) = mentions_ai text.
Proof.
  rewrite extract_ai_sentences_ok. unfold ai_sentences_spec.
  pose proof (mentions_split text false [] ltac:(discriminate)) as H.
  change (rev [] ++ text) with text in H. rewrite <- H. clear H.
  induction (split_sentences false [] text) as [|x l IH]; [reflexivity|].
  simpl. destruct (mentions_ai x); simpl; [reflexivity|exact IH].
Qed.

End MentionFacts.

(** ** Enrichment and document fetching *)

Module PipelineFacts.
Import Fetch Pipeline Extract TagFacts.


Lemma subfield_returned submission key sub v :
  subfield submission key sub = Returned v -> v = address_field submission key sub.
Proof.
  unfold subfield, address_field.
  destruct (objects submission !! key) as [[entry|]|]; congruence.
Qed.

(** A state that is returned is the first candidate that is not empty. *)
Lemma resolve_state_returned submission v :
  resolve_state submission = Returned v ->
  v = first_non_empty (state_candidates submission).
Proof.
  unfold resolve_state, state_candidates. simpl.
  destruct (field submission "stateOfIncorporation") as [|c s]; [|congruence].
  destruct (subfield submission "businessAddress" "state") as [b|e] eqn:Hb; [|discriminate].
  apply subfield_returned in Hb. rewrite <- Hb.
  destruct b as [|c s]; [|congruence].
  intros Hm. apply subfield_returned in Hm. rewrite <- Hm. destruct v; reflexivity.
Qed.


Lemma header_of_returned row submission h :
  header_of row submission = Returned h ->
  State h = first_non_empty (state_candidates submission)
  /\ CIK h = cik row /\ FormType h = formType row /\ FilingDate h = filedAt row
  /\ AccessionNumber h = accessionNumber row /\ FileLink h = fileLink row
  /\ CompanyName h = default (companyName row) (Some <$> fields submission !! "name")
  /\ SIC h = field submission "sic"
  /\ City h = address_field submission "businessAddress" "city"
  /\ Zip h = address_field submission "businessAddress" "zip".
Proof.
  unfold header_of.
  destruct (resolve_state submission) as [st|e] eqn:Hst; [|discriminate].
  destruct (subfield submission "businessAddress" "city") as [city|e] eqn:Hc; [|discriminate].
  destruct (subfield submission "businessAddress" "zip") as [zip|e] eqn:Hz; [|discriminate].
  intros H. inversion H; subst; clear H. simpl.
  apply resolve_state_returned in Hst. apply subfield_returned in Hc, Hz.
  repeat split; auto. destruct (fields submission !! "name"); reflexivity.
Qed.



Section Network.
Variable World : Type.
Variable http_get : list ascii -> World -> outcome response * World.
Variable json : list ascii -> outcome profile.
Variable to_datetime : option (list ascii) -> outcome (option (list ascii)).

Lemma header_rows_app : forall pre rows w hs1 w1,
  header_rows World http_get json pre w = (Returned hs1, w1) ->
  header_rows World http_get json (pre ++ rows) w
  = match header_rows World http_get json rows w1 with
    | (Returned hs2, w2) => (Returned (hs1 ++ hs2), w2)
    | (Raised e, w2) => (Raised e, w2)
    end
  /\ length hs1 = length pre.
Proof.
  induction pre as [|r pre IH]; intros rows w hs1 w1 H; simpl in H.
  - inversion H; subst. simpl.
    destruct (header_rows World http_get json rows w1) as [[hs2|e] w2]; auto.
  - cbn [app header_rows].
    destruct (get_submission_data World http_get json (cik r) w) as [[sub|e] w0];
      [|discriminate].
    destruct (header_of r sub) as [h|e]; [|discriminate].
    destruct (header_rows World http_get json pre w0) as [[hs0|e] w3] eqn:E;
      [|discriminate].
    inversion H; subst. destruct (IH rows w0 hs0 w1 E) as [-> Hlen].
    split; [|simpl; lia].
    destruct (header_rows World http_get json rows w1) as [[hs2|e] w2]; reflexivity.
Qed.

Lemma parse_dates_lookup : forall hs hs' i h',
  parse_dates to_datetime hs = Returned hs' ->
  hs' !! i = Some h' ->
  exists h, hs !! i = Some h
    /\ to_datetime (FilingDate h) = Returned (FilingDate h')
    /\ State h' = State h /\ CIK h' = CIK h /\ CompanyName h' = CompanyName h
    /\ FormType h' = FormType h /\ SIC h' = SIC h /\ City h' = City h
    /\ Zip h' = Zip h /\ AccessionNumber h' = AccessionNumber h
    /\ FileLink h' = FileLink h.
Proof.
  induction hs as [|h hs IH]; intros hs' i h' H Hi; simpl in H.
  - inversion H; subst. discriminate.
  - destruct (to_datetime (FilingDate h)) as [d|e] eqn:Hd; [|discriminate].
    destruct (parse_dates to_datetime hs) as [hs1|e]; [|discriminate].
    inversion H; subst. destruct i as [|i]; simpl in Hi.
    + inversion Hi; subst. exists h. simpl. rewrite Hd. repeat split; reflexivity.
    + destruct (IH hs1 i h' eq_refl Hi) as (h0 & Hh0 & Hrest). exists h0. auto.
Qed.

Lemma parse_dates_length : forall hs hs',
  parse_dates to_datetime hs = Returned hs' -> length hs' = length hs.
Proof.
  induction hs as [|h hs IH]; intros hs' H; simpl in H.
  - inversion H; reflexivity.
  - destruct (to_datetime (FilingDate h)) as [d|e]; [|discriminate].
    destruct (parse_dates to_datetime hs) as [hs1|e]; [|discriminate].
    inversion H; subst. simpl. rewrite (IH hs1 eq_refl). reflexivity.
Qed.

Lemma enrich_returned rows w hs w' :
  enrich_header_data World http_get json to_datetime rows w = (Returned hs, w') ->
  exists hs0, header_rows World http_get json rows w = (Returned hs0, w')
              /\ parse_dates to_datetime hs0 = Returned hs /\ rows <> [].
Proof.
  unfold enrich_header_data.
  destruct (header_rows World http_get json rows w) as [[hs0|e] w0] eqn:E;
    [|discriminate].
  intros H. exists hs0.
  destruct hs0 as [|h0 hs0]; [discriminate|]. inversion H; subst.
  split; [reflexivity|]. split; [reflexivity|].
  intros ->. simpl in E. discriminate.
Qed.

(** The row that the enrichment returns for a filing: the header made
    of the filing and of the profile fetched for it, with its date
    parsed. *)
Lemma enrich_row pre row post w hs1 w1 submission w2 hs w' :
  header_rows World http_get json pre w = (Returned hs1, w1) ->
  get_submission_data World http_get json (cik row) w1 = (Returned submission, w2) ->
  enrich_header_data World http_get json to_datetime (pre ++ row :: post) w
  = (Returned hs, w') ->
  exists h0 h,
    header_of row submission = Returned h0
    /\ hs !! length pre = Some h
    /\ to_datetime (filedAt row) = Returned (FilingDate h)
    /\ State h = State h0 /\ CIK h = CIK h0 /\ CompanyName h = CompanyName h0
    /\ FormType h = FormType h0 /\ SIC h = SIC h0 /\ City h = City h0
    /\ Zip h = Zip h0 /\ AccessionNumber h = AccessionNumber h0
    /\ FileLink h = FileLink h0.
Proof.
  intros Hpre Hget H.
  apply enrich_returned in H as (hs0 & Hrows & Hp & _).
  destruct (header_rows_app pre (row :: post) w hs1 w1 Hpre) as [Happ Hlen].
  rewrite Happ in Hrows. cbn [header_rows] in Hrows. rewrite Hget in Hrows.
  destruct (header_of row submission) as [h0|e] eqn:Hh0; [|discriminate].
  destruct (header_rows World http_get json post w2) as [[hs2|e] w3]; [|discriminate].
  inversion Hrows; subst hs0.
  assert (Hi : (hs1 ++ h0 :: hs2) !! length pre = Some h0).
  { rewrite <- Hlen. apply list_lookup_middle. reflexivity. }
  assert (Hsome : is_Some (hs !! length pre)).
  { apply lookup_lt_is_Some. rewrite (parse_dates_length _ _ Hp).
    apply lookup_lt_Some in Hi. exact Hi. }
  destruct Hsome as [h Hh].
  destruct (parse_dates_lookup _ _ _ _ Hp Hh) as (h1 & Hh1 & Hd & Hrest).
  rewrite Hi in Hh1. inversion Hh1; subst h1.
  exists h0, h. split; [reflexivity|]. split; [exact Hh|].
  apply header_of_returned in Hh0. destruct Hh0 as (_ & _ & _ & Hfd & _).
  rewrite Hfd in Hd. split; [exact Hd|exact Hrest].
Qed.



End Network.




(** [strip] leaves nothing or a text with a solid first and last
    character. *)
Lemma lstrip_snoc l a :
  Chr.is_space a = false -> PyStr.lstrip (l ++ [a]) = PyStr.lstrip l ++ [a].
Proof.
  intros Ha. induction l as [|x l IH]; simpl; [rewrite Ha; reflexivity|].
  destruct (Chr.is_space x); [exact IH|reflexivity].
Qed.

Lemma lstrip_head s : solid (PyStr.lstrip s) = true.
Proof.
  induction s as [|x s IH]; simpl; [reflexivity|].
  destruct (Chr.is_space x) eqn:E; [exact IH|].
  unfold solid. simpl. rewrite E. reflexivity.
Qed.

Lemma strip_ends s :
  solid (PyStr.strip s) = true /\ solid (rev (PyStr.strip s)) = true.
Proof.
  unfold PyStr.strip. rewrite rev_involutive. split; [|apply lstrip_head].
  pose proof (lstrip_head s) as Hs. destruct (PyStr.lstrip s) as [|a l]; [reflexivity|].
  unfold solid in Hs. simpl in Hs. apply negb_true_iff in Hs.
  simpl rev. rewrite (lstrip_snoc _ a Hs), rev_app_distr. simpl.
  unfold solid. simpl. rewrite Hs. reflexivity.
Qed.

Lemma solid_app a b : a <> [] -> solid a = true -> solid (a ++ b) = true.
Proof. destruct a; [congruence|auto]. Qed.



(** *** The text of a tree *)











(** *** The aggregation by state *)

Lemma existsb_filter_nil {A} (f : A -> bool) l :
  existsb f l = false -> List.filter f l = [].
Proof.
  induction l as [|x l IH]; simpl; [reflexivity|].
  destruct (f x); simpl; [discriminate|exact IH].
Qed.

Lemma bucket_cons st hf rows :
  bucket st (hf :: rows)
  = if in_state st hf
    then (fst (bucket st rows) + counted (fst hf), snd (bucket st rows) + snd hf)
    else bucket st rows.
Proof. unfold bucket. simpl. destruct (in_state st hf); reflexivity. Qed.

(** Folding the rows into buckets gives, under each state that has
    rows, the count and the sum of its rows. *)
Lemma agg_lookup st : forall rows,
  foldr add_row ∅ rows !! st
  = if existsb (in_state st) rows then Some (bucket st rows) else None.
Proof.
  induction rows as [|hf rows IH]; [reflexivity|].
  cbn [foldr]. unfold add_row at 1. cbn [existsb]. rewrite bucket_cons.
  assert (Hb : default (0, 0) (foldr add_row ∅ rows !! st) = bucket st rows).
  { rewrite IH. destruct (existsb (in_state st) rows) eqn:E; [reflexivity|].
    unfold bucket. rewrite (existsb_filter_nil _ _ E). reflexivity. }
  destruct (in_state st hf) eqn:E; unfold in_state in E; simpl.
  - apply bool_decide_eq_true in E. rewrite E, lookup_insert_eq, Hb. reflexivity.
  - apply bool_decide_eq_false in E.
    rewrite lookup_insert_ne by exact E. rewrite IH. reflexivity.
Qed.

Lemma filter_in_state_has st rows :
  st <> [] ->
  List.filter (in_state st) (List.filter has_state rows) = List.filter (in_state st) rows.
Proof.
  intros Hst. induction rows as [|hf rows IH]; [reflexivity|]. simpl.
  destruct (has_state hf) eqn:Hh; simpl; [rewrite IH; reflexivity|].
  rewrite IH. unfold in_state at 2. rewrite bool_decide_eq_false_2; [reflexivity|].
  intros Heq. unfold has_state in Hh. rewrite Heq in Hh.
  destruct st; [congruence|discriminate].
Qed.

Lemma existsb_filter {A} (f : A -> bool) l :
  existsb f l = negb (Nat.eqb (length (List.filter f l)) 0).
Proof.
  induction l as [|x l IH]; simpl; [reflexivity|].
  destruct (f x); simpl; [reflexivity|exact IH].
Qed.

(** The bucket of a state in [state_agg]: none under the empty string,
    and under any other state the count and the sum of the rows of that
    state. *)
Lemma state_agg_lookup rows st :
  state_agg rows !! st
  = if bool_decide (st = []) then None
    else if existsb (in_state st) rows then Some (bucket st rows) else None.
Proof.
  unfold state_agg. rewrite agg_lookup.
  destruct (decide (st = [])) as [->|Hst].
  - rewrite bool_decide_eq_true_2 by reflexivity.
    replace (existsb (in_state []) (List.filter has_state rows)) with false; [reflexivity|].
    symmetry. apply not_true_is_false. intros H.
    apply existsb_exists in H as (hf & Hin & Hst).
    apply filter_In in Hin as [_ Hh]. unfold in_state in Hst.
    apply bool_decide_eq_true in Hst. unfold has_state in Hh. rewrite Hst in Hh.
    discriminate.
  - rewrite bool_decide_eq_false_2 by exact Hst.
    rewrite !existsb_filter. unfold bucket.
    rewrite (filter_in_state_has st rows Hst). reflexivity.
Qed.

Lemma ai_total_add hf agg : ai_total (add_row hf agg) = snd hf + ai_total agg.
Proof.
  unfold add_row, ai_total.
  set (f := fun (_ : list ascii) (b : nat * nat) (n : nat) => snd b + n).
  assert (Hcomm : forall (m : gmap (list ascii) (nat * nat)) j1 j2 z1 z2 y,
             j1 <> j2 -> m !! j1 = Some z1 -> m !! j2 = Some z2 ->
             f j1 z1 (f j2 z2 y) = f j2 z2 (f j1 z1 y)).
  { intros. unfold f. lia. }
  destruct (agg !! State (fst hf)) as [b|] eqn:E; simpl.
  - rewrite <- insert_delete_eq.
    rewrite map_fold_insert_L; [|apply Hcomm|apply lookup_delete_eq].
    rewrite <- (insert_delete_id agg _ _ E) at 2.
    rewrite map_fold_insert_L; [|apply Hcomm|apply lookup_delete_eq].
    unfold f. simpl. lia.
  - rewrite map_fold_insert_L; [|apply Hcomm|exact E]. unfold f. simpl. reflexivity.
Qed.

Lemma filings_total_add hf agg :
  filings_total (add_row hf agg) = counted (fst hf) + filings_total agg.
Proof.
  unfold add_row, filings_total.
  set (f := fun (_ : list ascii) (b : nat * nat) (n : nat) => fst b + n).
  assert (Hcomm : forall (m : gmap (list ascii) (nat * nat)) j1 j2 z1 z2 y,
             j1 <> j2 -> m !! j1 = Some z1 -> m !! j2 = Some z2 ->
             f j1 z1 (f j2 z2 y) = f j2 z2 (f j1 z1 y)).
  { intros. unfold f. lia. }
  destruct (agg !! State (fst hf)) as [b|] eqn:E; simpl.
  - rewrite <- insert_delete_eq.
    rewrite map_fold_insert_L; [|apply Hcomm|apply lookup_delete_eq].
    rewrite <- (insert_delete_id agg _ _ E) at 2.
    rewrite map_fold_insert_L; [|apply Hcomm|apply lookup_delete_eq].
    unfold f. simpl. lia.
  - rewrite map_fold_insert_L; [|apply Hcomm|exact E]. unfold f. simpl. reflexivity.
Qed.

(** Over all states the [AI_Filings] add up to the flags of the rows
    that have a state, and the [Total_Filings] to their number (those
    with an accession number). *)
Lemma state_agg_totals rows :
  ai_total (state_agg rows) = flag_sum (List.filter has_state rows)
  /\ filings_total (state_agg rows)
     = foldr (fun hf n => counted (fst hf) + n) 0 (List.filter has_state rows).
Proof.
  unfold state_agg. induction (List.filter has_state rows) as [|hf l [IH1 IH2]].
  - split; reflexivity.
  - cbn [foldr flag_sum]. rewrite ai_total_add, filings_total_add, IH1, IH2.
    split; reflexivity.
Qed.

(** The flag of a row is 1 exactly when the text stored under its
    accession number mentions the phrase. *)
Lemma ai_flag_mentions clean_docs h :
  ai_flag clean_docs (AccessionNumber h) = if doc_mentions clean_docs h then 1 else 0.
Proof.
  unfold ai_flag, doc_mentions. rewrite lookup_fmap.
  destruct (clean_docs !! AccessionNumber h) as [t|]; simpl; [|reflexivity].
  rewrite MentionFacts.ai_sentences_found. reflexivity.
Qed.

Lemma flag_sum_analyze clean_docs headers :
  flag_sum (analyze_filings headers clean_docs)
  = length (List.filter (doc_mentions clean_docs) headers).
Proof.
  induction headers as [|h hs IH]; [reflexivity|].
  simpl. rewrite ai_flag_mentions, IH.
  destruct (doc_mentions clean_docs h); reflexivity.
Qed.

Lemma flag_sum_analyze_states clean_docs headers :
  flag_sum (List.filter has_state (analyze_filings headers clean_docs))
  = length (List.filter (fun h => doc_mentions clean_docs h
                                  && negb (Nat.eqb (length (State h)) 0)) headers).
Proof.
  induction headers as [|h hs IH]; [reflexivity|].
  simpl. unfold has_state at 1. simpl.
  destruct (negb (length (State h) =? 0)); simpl.
  - rewrite ai_flag_mentions, IH. destruct (doc_mentions clean_docs h); reflexivity.
  - rewrite andb_false_r. exact IH.
Qed.

Section Documents.
Variable World : Type.
Variable http_get : list ascii -> World -> outcome response * World.
Variable lxml : list ascii -> outcome node.

(** With accession numbers that differ, each row finds under its number
    the text fetched for it. *)
Lemma process_lookup : forall rows docs w,
  NoDup (accessionNumber <$> rows) ->
  forall i row, rows !! i = Some row ->
  fst (process_filings_documents World http_get lxml rows docs w) !! accessionNumber row
  = Some (fst (get_filing_text World http_get lxml (fileLink row)
                 (snd (process_filings_documents World http_get lxml (take i rows) docs w)))).
Proof.
  assert (Hkeep : forall rows docs w k,
    k ∉ (accessionNumber <$> rows) ->
    fst (process_filings_documents World http_get lxml rows docs w) !! k = docs !! k).
  { induction rows as [|r rows IH]; intros docs w k Hk; simpl; [reflexivity|].
    destruct (get_filing_text World http_get lxml (fileLink r) w) as [t w1].
    rewrite fmap_cons, not_elem_of_cons in Hk. destruct Hk as [Hne Hk].
    rewrite IH by exact Hk. apply lookup_insert_ne. congruence. }
  assert (Hworld : forall rows docs docs' w,
    snd (process_filings_documents World http_get lxml rows docs w)
    = snd (process_filings_documents World http_get lxml rows docs' w)).
  { induction rows as [|r rows IH]; intros docs docs' w; simpl; [reflexivity|].
    destruct (get_filing_text World http_get lxml (fileLink r) w) as [t w1]. apply IH. }
  induction rows as [|r rows IH]; intros docs w Hnd i row Hi; [discriminate|].
  rewrite fmap_cons in Hnd. apply NoDup_cons in Hnd as [Hr Hnd].
  destruct i as [|i]; simpl in Hi.
  - inversion Hi; subst. simpl.
    destruct (get_filing_text World http_get lxml (fileLink row) w) as [t w1] eqn:E.
    rewrite Hkeep by exact Hr. rewrite lookup_insert_eq. reflexivity.
  - simpl. destruct (get_filing_text World http_get lxml (fileLink r) w) as [t w1] eqn:E.
    apply IH; assumption.
Qed.

End Documents.

End PipelineFacts.

(** * The claims of the specification *)

Import Re ReFacts Extract TagFacts.

(** C1, as the specification states it, fails: on the example text the
    extractor does not return ["Foo bar. "]; the start marker is part of
    what it returns. *)
Lemma item1_example_not_body_only :
  extract_item1_business item1_example <> str "Foo bar. ".
Proof. vm_compute. discriminate. Qed.

(** C1, amended: on the example text [extract_item1_business] returns
    ["ITEM 1. BUSINESS Foo bar. "], the start marker and the text up to
    the end marker, which is left out.  When the start marker does not
    occur, or no end marker follows any occurrence of the start marker,
    it returns the empty string.  Whatever it returns that is not empty
    is a start marker and a body that an end marker follows in the text;
    and between a start marker and the first end marker after it, it
    returns the start marker and all the text up to that end marker. *)
Theorem item1_section_from_start_marker :
  extract_item1_business item1_example = str "ITEM 1. BUSINESS Foo bar. "
  /\ (forall text,
        ~ occurs icase_dotall item1_start text ->
        extract_item1_business text = [])
  /\ (forall text,
        (forall pre m post,
            text = pre ++ m ++ post ->
            Lang icase_dotall item1_start (rev pre) m post ->
            ~ occurs_from icase_dotall item1_end (rev (pre ++ m)) post) ->
        extract_item1_business text = [])
  /\ (forall text,
        extract_item1_business text <> [] ->
        exists pre m body e post,
          text = pre ++ m ++ body ++ e ++ post
          /\ Lang icase_dotall item1_start (rev pre) m (body ++ e ++ post)
          /\ Lang icase_dotall item1_end (rev (pre ++ m ++ body)) e post
          /\ extract_item1_business text = m ++ body)
  /\ (forall pre body post,
        no_i pre = true -> no_i body = true ->
        extract_item1_business
          (pre ++ str "ITEM 1. BUSINESS" ++ body ++ str "ITEM 1A. RISK FACTORS" ++ post)
        = str "ITEM 1. BUSINESS" ++ body).
Proof.
  split; [vm_compute; reflexivity|].
  assert (Hno : forall text,
    (forall pre m post,
        text = pre ++ m ++ post ->
        Lang icase_dotall item1_start (rev pre) m post ->
        ~ occurs_from icase_dotall item1_end (rev (pre ++ m)) post) ->
    extract_item1_business text = []).
  { intros text H. rewrite Item1Facts.extract_item1_search.
    destruct (search icase_dotall item1_pattern text) as [m0|] eqn:E; [|reflexivity].
    exfalso. apply Item1Facts.item1_match in E
      as (pre & m & body & e & post & -> & Hm & He & _).
    apply (H pre m (body ++ e ++ post) eq_refl Hm).
    exists body, e, post. split; [reflexivity|].
    rewrite !rev_app_distr, <- !app_assoc in *. exact He. }
  split; [|split; [exact Hno|split]].
  - intros text H. apply Hno. intros pre m post -> Hm _. apply H.
    exists pre, m, post. rewrite app_nil_r. auto.
  - intros text H. rewrite Item1Facts.extract_item1_search in *.
    destruct (search icase_dotall item1_pattern text) as [m0|] eqn:E; [|congruence].
    apply Item1Facts.item1_match in E as (pre & m & body & e & post & ? & ? & ? & ?).
    exists pre, m, body, e, post. auto.
  - exact Item1Run.item1_between.
Qed.

Lemma item1_section_from_start_marker_witness :
  extract_item1_business (str "ITEM 2. PROPERTIES None.") = []
  /\ extract_item1_business (str "ITEM 1. BUSINESS Foo bar. ITEM 2.") = []
  /\ (exists pre m body e post,
       item1_example = pre ++ m ++ body ++ e ++ post
       /\ Lang icase_dotall item1_start (rev pre) m (body ++ e ++ post)
       /\ Lang icase_dotall item1_end (rev (pre ++ m ++ body)) e post
       /\ extract_item1_business item1_example = m ++ body)
  /\ extract_item1_business
       (str "PART 1 " ++ str "ITEM 1. BUSINESS" ++ str " We make bolts. "
        ++ str "ITEM 1A. RISK FACTORS" ++ str " ITEM 1A. RISK FACTORS again")
     = str "ITEM 1. BUSINESS" ++ str " We make bolts. ".
Proof.
  destruct item1_section_from_start_marker as (_ & Habsent & Hnoend & Hshape & Hbetween).
  split; [|split; [|split]]; [| | |apply Hbetween; reflexivity].
  - apply Habsent. apply search_none. vm_compute. reflexivity.
  - apply Hnoend. intros pre m post Heq _ Hocc.
    apply occurs_later in Hocc. rewrite <- app_assoc, <- Heq in Hocc.
    revert Hocc. apply search_none. vm_compute. reflexivity.
  - apply Hshape. vm_compute. discriminate.
Defined.

(** C8: on ["<isOfficer>1</isOfficer>"] the tag-value extractor returns
    ["1"]; on a text without a pair of opening and closing tag it returns
    the missing-value sentinel [None]; white space between the angle
    brackets and the tag name or the slash, and around the value, is
    passed over; and for the code wrapped in an outer and an inner tag it
    returns the inner value, trimmed (and in upper case). *)
Theorem tag_value_extractor :
  extract_is_officer (str "<isOfficer>1</isOfficer>") = Some (str "1")
  /\ (forall text,
        ~ has_tag_pair "isOfficer" text -> extract_is_officer text = None)
  /\ (forall text,
        ~ has_tag_pair "transactionAcquiredDisposedCode" text ->
        extract_transaction_type text = None)
  /\ (forall w1 w2 w3 d w4 w5 w6 w7 post,
        blank w1 = true -> blank w2 = true -> blank w3 = true ->
        blank w4 = true -> blank w5 = true -> blank w6 = true ->
        blank w7 = true -> digits d = true -> d <> [] ->
        extract_is_officer
          (open_text w1 "isOfficer" w2 ++ w3 ++ d ++ w4
           ++ close_text w5 w6 "isOfficer" w7 ++ post) = Some d)
  /\ (forall a1 a2 b v1 v2 c1 code c2 e1 e2 e3 f g1 g2 g3 post,
        blank a1 = true -> blank a2 = true -> blank b = true ->
        blank v1 = true -> blank v2 = true -> blank c1 = true ->
        blank c2 = true -> blank e1 = true -> blank e2 = true ->
        blank e3 = true -> blank f = true -> blank g1 = true ->
        blank g2 = true -> blank g3 = true ->
        class_match icase (CSet ["A"; "D"]%char) code = true ->
        extract_transaction_type
          (open_text a1 "transactionAcquiredDisposedCode" a2 ++ b
           ++ open_text v1 "value" v2 ++ c1 ++ [code] ++ c2
           ++ close_text e1 e2 "value" e3 ++ f
           ++ close_text g1 g2 "transactionAcquiredDisposedCode" g3 ++ post)
        = Some [Chr.upper code]
        /\ (Chr.upper code = "A"%char \/ Chr.upper code = "D"%char)).
Proof.
  split; [vm_compute; reflexivity|]. split; [|split; [|split]].
  - intros text H. unfold extract_is_officer.
    destruct (search icase is_officer_pattern text) as [m|] eqn:E; [|reflexivity].
    exfalso. apply H. eapply is_officer_pair. exact E.
  - intros text H. unfold extract_transaction_type.
    destruct (search icase transaction_type_pattern text) as [m|] eqn:E; [|reflexivity].
    exfalso. apply H. eapply transaction_type_pair. exact E.
  - intros. apply is_officer_run; assumption.
  - intros. split; [apply transaction_type_run; assumption|].
    apply code_upper. assumption.
Qed.

Lemma tag_value_extractor_witness :
  extract_is_officer (str "<isDirector>1</isDirector>") = None
  /\ extract_transaction_type (str "<value>D</value>") = None
  /\ extract_is_officer
       (open_text (str " ") "isOfficer" (str "  ") ++ str " " ++ str "01" ++ str " "
        ++ close_text (str " ") (str " ") "isOfficer" [] ++ str "<x>") = Some (str "01")
  /\ extract_transaction_type
       (open_text [] "transactionAcquiredDisposedCode" [] ++ str " "
        ++ open_text [] "value" [] ++ [] ++ ["d"%char] ++ str " "
        ++ close_text [] [] "value" [] ++ str " "
        ++ close_text [] [] "transactionAcquiredDisposedCode" [] ++ [])
     = Some (str "D").
Proof.
  destruct tag_value_extractor as (_ & Hnone & Hnone' & Hrun & Hnest).
  split; [|split; [|split]].
  - apply Hnone. intros H. apply has_tag_pair_open in H. revert H.
    apply search_none. vm_compute. reflexivity.
  - apply Hnone'. intros H. apply has_tag_pair_open in H. revert H.
    apply search_none. vm_compute. reflexivity.
  - apply Hrun; try reflexivity. discriminate.
  - apply (Hnest [] [] (str " ") [] [] [] "d"%char (str " ") [] [] [] (str " ") [] [] [] []);
      reflexivity.
Defined.

(** C10: without a pair of [officerTitle] tags [extract_officer_title]
    returns ["UNKNOWN"]; and whatever the text, the title it returns
    holds no lower-case letter, no comma, no [&amp;] and no two
    white-space characters in a row: it is the raw tag value with
    [&amp;] and commas taken out, its words joined by single spaces, in
    upper case; the raw value is what stands between the tags, without
    the white space around it. *)
Theorem officer_title_normalized :
  (forall text,
     ~ has_tag_pair "officerTitle" text ->
     extract_officer_title text = str "UNKNOWN")
  /\ (forall text, normalized (extract_officer_title text) = true)
  /\ (forall text m,
        search icase_dotall officer_title_pattern text = Some m ->
        has_tag_pair "officerTitle" text
        /\ extract_officer_title text = clean_title (default [] (group 1 m)))
  /\ (forall w1 w2 l content t w5 w6 w7 post,
        blank w1 = true -> blank w2 = true -> blank l = true -> blank t = true ->
        blank w5 = true -> blank w6 = true -> blank w7 = true ->
        content <> [] -> no_lt content = true ->
        solid content = true -> solid (rev content) = true ->
        extract_officer_title
          (open_text w1 "officerTitle" w2 ++ l ++ content ++ t
           ++ close_text w5 w6 "officerTitle" w7 ++ post)
        = clean_title content)
  /\ extract_officer_title
       (str "<officerTitle> EVP, General   Counsel &amp; Secretary </officerTitle>")
     = str "EVP GENERAL COUNSEL SECRETARY".
Proof.
  split; [|split; [|split; [|split]]].
  - intros text H. unfold extract_officer_title.
    destruct (search icase_dotall officer_title_pattern text) as [m|] eqn:E;
      [|reflexivity].
    exfalso. apply H. eapply officer_title_pair. exact E.
  - intros text. unfold extract_officer_title.
    destruct (search icase_dotall officer_title_pattern text) as [m|].
    + apply TitleFacts.clean_title_normalized.
    + vm_compute. reflexivity.
  - intros text m H. split; [eapply officer_title_pair; exact H|].
    unfold extract_officer_title. rewrite H. reflexivity.
  - exact TitleRun.officer_title_run.
  - vm_compute. reflexivity.
Qed.

Lemma officer_title_normalized_witness :
  extract_officer_title (str "<isOfficer>1</isOfficer>") = str "UNKNOWN"
  /\ (exists m,
        search icase_dotall officer_title_pattern
          (str "<officerTitle>Chief Executive Officer</officerTitle>") = Some m
        /\ extract_officer_title
             (str "<officerTitle>Chief Executive Officer</officerTitle>")
           = clean_title (default [] (group 1 m)))
  /\ extract_officer_title
       (open_text [] "officerTitle" (str " ") ++ str "  " ++ str "Chief, Legal &amp; HR" ++ str " "
        ++ close_text [] [] "officerTitle" [] ++ str "<isOfficer>1</isOfficer>")
     = str "CHIEF LEGAL HR".
Proof.
  destruct officer_title_normalized as (Hunknown & _ & Hclean & Hrun & _).
  split; [|split].
  - apply Hunknown. intros H. apply has_tag_pair_open in H. revert H.
    apply search_none. vm_compute. reflexivity.
  - eexists. split; [vm_compute; reflexivity|].
    eapply Hclean. vm_compute. reflexivity.
  - rewrite Hrun; try reflexivity. discriminate.
Defined.

(** C5: [extract_ai_sentences] cuts the text at white space that follows
    [.], [!] or [?] and returns, in their order and unchanged, exactly
    the sentences whose lower-case form holds ["artificial
    intelligence"]; on ["We use AI. We use Artificial Intelligence
    daily."] it returns the second sentence alone. *)
Theorem ai_sentences_exact :
  (forall text, extract_ai_sentences text = ai_sentences_spec text)
  /\ extract_ai_sentences (str "We use AI. We use Artificial Intelligence daily.")
     = [str "We use Artificial Intelligence daily."].
Proof.
  split; [apply SentenceFacts.extract_ai_sentences_ok|vm_compute; reflexivity].
Qed.

Import Fetch FetchFacts.

(** C2, as the specification states it, fails: when the page request
    raises, [query_filings] does not return the rows it has; the
    exception leaves it. *)
Lemma page_failure_leaves_fetch :
  query_filings unit failing_source (str "formType:10-K") 500 200 (fun _ => 0) tt
  = Some (Raised "ConnectionError",
          [Request (Query (str "formType:10-K") 0 200) (Raised "ConnectionError")],
          tt)
  /\ forall rows tr w,
       query_filings unit failing_source (str "formType:10-K") 500 200 (fun _ => 0) tt
       <> Some (Returned rows, tr, w).
Proof.
  assert (H : query_filings unit failing_source (str "formType:10-K") 500 200
                (fun _ => 0) tt
              = Some (Raised "ConnectionError",
                      [Request (Query (str "formType:10-K") 0 200)
                         (Raised "ConnectionError")], tt))
    by (vm_compute; reflexivity).
  split; [exact H|]. intros rows tr w. rewrite H. discriminate.
Qed.

(** C2, amended: [query_filings] always ends.  A page request answered
    without filings is the last request, and the rows of the pages
    before it are returned as they are; a page request that raises is
    the last request too, and its exception leaves [query_filings]. *)
Theorem page_without_filings_ends_fetch :
  forall (World : Type) (get_filings : query -> World -> outcome api_result * World)
         (query_str : list ascii) (desired_count page_size : Z)
         (rnd : nat -> nat) (w : World),
  exists res tr w',
    query_filings World get_filings query_str desired_count page_size rnd w
    = Some (res, tr, w')
    /\ forall pre q r post, requests tr = pre ++ (q, r) :: post ->
         (no_filings r -> post = [] /\ res = Returned (rows_of_all pre))
         /\ (forall e, r = Raised e -> post = [] /\ res = Raised e).
Proof.
  intros World get_filings query_str desired_count page_size rnd w.
  destruct (query_filings_run World get_filings query_str desired_count page_size rnd w)
    as (res & tr & w' & Hrun & H).
  exists res, tr, w'. split; [exact Hrun|].
  intros pre q r post Hsplit. destruct (H pre q r post Hsplit) as (H1 & H2 & _).
  auto.
Qed.

Lemma page_without_filings_ends_fetch_witness :
  exists res tr,
    query_filings unit (mock_source [∅]) [] 2 1 (fun _ => 0) tt = Some (res, tr, tt)
    /\ res = Returned (rows_of_all (take 1 (requests tr))).
Proof.
  destruct (page_without_filings_ends_fetch unit (mock_source [∅]) [] 2 1 (fun _ => 0) tt)
    as (res & tr & w' & Hrun & H).
  destruct w'. exists res, tr. split; [exact Hrun|].
  assert (Htr : requests tr
                = [(Query [] 0 1, Returned (Some [∅]))] ++ (Query [] 1 1, Returned (Some []))
                  :: []).
  { vm_compute in Hrun. inversion Hrun; subst. reflexivity. }
  destruct (H _ _ _ _ Htr) as [Hnone _].
  destruct Hnone as [_ Hres]; [exists (Some []); split; reflexivity|].
  rewrite Htr. exact Hres.
Defined.

(** C3, as the specification states it, fails: a source of one record,
    pages of one record and a target of two take two page requests, one
    more than ceil(min(1, 2) / 1). *)
Lemma exhausted_source_takes_one_more_request :
  page_requests (query_filings unit (mock_source [∅]) [] 2 1 (fun _ => 0) tt) = 2
  /\ ~ page_requests (query_filings unit (mock_source [∅]) [] 2 1 (fun _ => 0) tt)
       <= cdiv (Nat.min 1 2) 1.
Proof.
  assert (H : page_requests (query_filings unit (mock_source [∅]) [] 2 1 (fun _ => 0) tt) = 2)
    by (vm_compute; reflexivity).
  split; [exact H|]. rewrite H. vm_compute. lia.
Qed.

(** C3, amended: against a mock source of [N] records in pages of [P],
    [query_filings] with target [desired_count] returns exactly
    min(N, desired_count) rows, all of them rows of the source, and makes
    ceil(desired_count / P) page requests when the source holds the
    target, and ceil(N / P) + 1 when it does not, the last of these being
    the request that brings nothing: at most
    ceil(min(N, desired_count) / P) + 1.  The loop ends when the rows
    reach the target or a page brings no records. *)
Theorem mock_source_pagination :
  forall (records : list dict) (query_str : list ascii) (desired_count P : nat)
         (rnd : nat -> nat),
  0 < P ->
  let N := length records in
  exists out tr,
    query_filings unit (mock_source records) query_str
      (Z.of_nat desired_count) (Z.of_nat P) rnd tt
    = Some (Returned out, tr, tt)
    /\ length out = Nat.min N desired_count
    /\ (exists rest, out ++ rest ≡ₚ map to_row records)
    /\ length (requests tr)
       = expected_requests N desired_count P
    /\ length (requests tr) <= cdiv (Nat.min N desired_count) P + 1
    /\ ((Z.of_nat desired_count <= Z.of_nat (length (rows_of_all (requests tr))))%Z
        \/ exists pre q r, requests tr = pre ++ [(q, r)] /\ no_filings r).
Proof.
  intros records query_str desired_count P rnd HP N.
  destruct (mock_query records query_str desired_count P HP rnd)
    as (out & tr & Hrun & Hlen & Hreq & Hperm).
  exists out, tr. split; [exact Hrun|]. split; [exact Hlen|]. split; [exact Hperm|].
  split; [exact Hreq|]. split.
  - rewrite Hreq. unfold expected_requests. fold N.
    destruct (Nat.ltb_spec N desired_count).
    + rewrite Nat.min_l by lia. lia.
    + rewrite Nat.min_r by lia. lia.
  - destruct (query_filings_stops _ _ _ _ _ _ _ _ _ _ Hrun)
      as [Hreach|[Hlast|(pre & q & e & _ & Hbad)]]; [left; exact Hreach|right; exact Hlast|].
    discriminate.
Qed.

Lemma mock_source_pagination_witness :
  exists out tr,
    query_filings unit (mock_source [∅; ∅; ∅; ∅; ∅]) [] 4 2 (fun i => i) tt
    = Some (Returned out, tr, tt)
    /\ length out = 4 /\ length (requests tr) = 2.
Proof.
  destruct (mock_source_pagination [∅; ∅; ∅; ∅; ∅] [] 4 2 (fun i => i))
    as (out & tr & Hrun & Hlen & _ & Hreq & _); [lia|].
  exists out, tr. split; [exact Hrun|]. split; [exact Hlen|exact Hreq].
Defined.

(** C4: the sampling step returns min(len(records), targetCount)
    records; when the records are not more than the target they are
    returned as they are, and when they are more, exactly targetCount of
    them are returned, each from its own place in the input. *)
Theorem sampling_size_invariant :
  forall (A : Type) (rnd : nat -> nat) (records : list A) (targetCount : nat),
  exists out,
    sampling_reducer rnd records (Z.of_nat targetCount) = Returned out
    /\ length out = Nat.min (length records) targetCount
    /\ (length records <= targetCount -> out = records)
    /\ (targetCount < length records ->
        length out = targetCount /\ exists rest, out ++ rest ≡ₚ records).
Proof. intros. apply sampling_reducer_spec. Qed.

Lemma sampling_size_invariant_witness :
  (exists out, sampling_reducer (fun i => 2 * i) [10; 20; 30; 40; 50] 7%Z = Returned out
               /\ out = [10; 20; 30; 40; 50])
  /\ (exists out, sampling_reducer (fun i => 2 * i) [10; 20; 30; 40; 50] 3%Z = Returned out
                  /\ length out = 3 /\ exists rest, out ++ rest ≡ₚ [10; 20; 30; 40; 50]).
Proof.
  split.
  - destruct (sampling_size_invariant nat (fun i => 2 * i) [10; 20; 30; 40; 50] 7)
      as (out & Hout & _ & Hsame & _).
    exists out. split; [exact Hout|]. apply Hsame. simpl. lia.
  - destruct (sampling_size_invariant nat (fun i => 2 * i) [10; 20; 30; 40; 50] 3)
      as (out & Hout & _ & _ & Hsample).
    exists out. split; [exact Hout|]. apply Hsample. simpl. lia.
Defined.

Import Pipeline PipelineFacts.







(** C9: a row whose [State] is the empty string is in no bucket of the
    aggregation by state: there is no bucket under the empty string, the
    bucket of any other state counts and sums the rows of that state
    alone, and taking such a row away changes nothing.  The AI flag of a
    row is 1 exactly when the text under its accession number yields a
    matching sentence, which is when the text mentions the phrase; so
    for three rows of which two have such a text the flags sum to 2, and
    so do the [AI_Filings] of the buckets when those two rows have a
    state. *)
Theorem state_aggregation :
  (forall rows, state_agg rows !! [] = None)
  /\ (forall rows st, st <> [] ->
        state_agg rows !! st
        = if existsb (in_state st) rows then Some (bucket st rows) else None)
  /\ (forall pre hf post, State (fst hf) = [] ->
        state_agg (pre ++ hf :: post) = state_agg (pre ++ post))
  /\ (forall rows,
        ai_total (state_agg rows) = flag_sum (List.filter has_state rows))
  /\ (forall clean_docs h,
        ai_flag clean_docs (AccessionNumber h)
        = (if 0 <? length (default [] (extract_ai_sentences
                                         <$> clean_docs !! AccessionNumber h))
           then 1 else 0)
        /\ ai_flag clean_docs (AccessionNumber h)
           = (if doc_mentions clean_docs h then 1 else 0))
  /\ (forall clean_docs h1 h2 h3,
        length (List.filter (doc_mentions clean_docs) [h1; h2; h3]) = 2 ->
        flag_sum (analyze_filings [h1; h2; h3] clean_docs) = 2
        /\ ((forall h, In h [h1; h2; h3] -> doc_mentions clean_docs h = true ->
                       State h <> []) ->
            ai_total (state_agg (analyze_filings [h1; h2; h3] clean_docs)) = 2))
  /\ (forall World http_get lxml rows (w : World),
        NoDup (accessionNumber <$> rows) ->
        forall i row, rows !! i = Some row ->
        fst (process_filings_documents World http_get lxml rows ∅ w)
          !! accessionNumber row
        = Some (fst (get_filing_text World http_get lxml (fileLink row)
                       (snd (process_filings_documents World http_get lxml
                               (take i rows) ∅ w))))).
Proof.
  split.
  { intros rows. rewrite state_agg_lookup. reflexivity. }
  split.
  { intros rows st Hst. rewrite state_agg_lookup.
    rewrite bool_decide_eq_false_2 by exact Hst. reflexivity. }
  split.
  { intros pre hf post Hst. unfold state_agg. rewrite !List.filter_app. simpl.
    unfold has_state at 2. rewrite Hst. reflexivity. }
  split; [intros rows; apply state_agg_totals|].
  split.
  { intros clean_docs h. split; [|apply ai_flag_mentions].
    unfold ai_flag. rewrite lookup_fmap. reflexivity. }
  split.
  { intros clean_docs h1 h2 h3 Htwo. split.
    - rewrite flag_sum_analyze. exact Htwo.
    - intros Hstates. destruct (state_agg_totals (analyze_filings [h1; h2; h3] clean_docs))
        as [Hai _].
      rewrite Hai, flag_sum_analyze_states, <- Htwo. f_equal.
      apply filter_ext_in. intros h Hin.
      destruct (doc_mentions clean_docs h) eqn:Hm; [|reflexivity]. simpl.
      specialize (Hstates h Hin Hm). destruct (State h); [congruence|reflexivity]. }
  intros. apply process_lookup; assumption.
Qed.

Lemma state_aggregation_witness :
  let mk := fun acc st => Header None None None None [] st [] [] (Some (str acc)) None in
  let h1 := mk "0001-23-000001" (str "CO") in
  let h2 := mk "0001-23-000002" [] in
  let h3 := mk "0001-23-000003" (str "CA") in
  let clean_docs : gmap (option (list ascii)) (list ascii) :=
    {[ Some (str "0001-23-000001") := str "We build tools. We use Artificial Intelligence daily.";
       Some (str "0001-23-000002") := str "We sell shoes.";
       Some (str "0001-23-000003") := str "ARTIFICIAL INTELLIGENCE is a risk." ]} in
  flag_sum (analyze_filings [h1; h2; h3] clean_docs) = 2
  /\ ai_total (state_agg (analyze_filings [h1; h2; h3] clean_docs)) = 2
  /\ state_agg (analyze_filings [h1; h2; h3] clean_docs)
     = state_agg (analyze_filings [h1; h3] clean_docs)
  /\ state_agg (analyze_filings [h1; h2; h3] clean_docs) !! str "CO" = Some (1, 1).
Proof.
  intros mk h1 h2 h3 clean_docs.
  destruct state_aggregation as (_ & Hbucket & Hdrop & _ & _ & Hthree & _).
  destruct (Hthree clean_docs h1 h2 h3) as [Hsum Hagg]; [vm_compute; reflexivity|].
  split; [exact Hsum|]. split; [|split].
  - apply Hagg. intros h [<-|[<-|[<-|[]]]] Hm; [discriminate| |discriminate].
    vm_compute in Hm. discriminate.
  - apply (Hdrop [(h1, ai_flag clean_docs (AccessionNumber h1))]
                 (h2, ai_flag clean_docs (AccessionNumber h2))
                 [(h3, ai_flag clean_docs (AccessionNumber h3))]).
    reflexivity.
  - rewrite Hbucket by discriminate. vm_compute. reflexivity.
Defined.

(** * Further properties of the code *)

(** ** What a group returns *)

Module GroupFacts.
Import Re ReFacts Groups.

Section Caps.
Variable fl : flags.

Lemma span_state s w aft cp :
  span s (MState (rev w ++ before s) aft cp) = w.
Proof. destruct s. apply span_app. Qed.

Lemma captured_cat_l r1 r2 nv : captured fl r1 nv -> captured fl (Cat r1 r2) nv.
Proof.
  intros (r & b & a & Hin & HL). exists r, b, a. split; [|exact HL].
  simpl. apply in_or_app. left. exact Hin.
Qed.

Lemma captured_cat_r r1 r2 nv : captured fl r2 nv -> captured fl (Cat r1 r2) nv.
Proof.
  intros (r & b & a & Hin & HL). exists r, b, a. split; [|exact HL].
  simpl. apply in_or_app. right. exact Hin.
Qed.

(** A run of the matcher hands on, besides the groups it found closed,
    only groups of the pattern, each with a word of its own pattern. *)
Lemma exec_caps r : forall s k res,
  exec fl r s k = Some res ->
  exists w aft new,
    rest s = w ++ aft /\ Lang fl r (before s) w aft
    /\ Forall (captured fl r) new
    /\ k (MState (rev w ++ before s) aft (new ++ caps s)) = Some res.
Proof.
  induction r as [|c|r1 IH1 r2 IH2|g min c|r1 IH1|n r1 IH1|r1 IH1|c];
    intros s k res H; simpl in H.
  - exists [], (rest s), []. destruct s; simpl in *. auto.
  - destruct (rest s) as [|x t] eqn:Hr; [discriminate|].
    destruct (class_match fl c x) eqn:Hx; [|discriminate].
    exists [x], t, []. simpl. eauto 10.
  - apply IH1 in H as (w1 & aft1 & new1 & Hr1 & HL1 & Hc1 & H).
    apply IH2 in H as (w2 & aft2 & new2 & Hr2 & HL2 & Hc2 & H). simpl in *. subst aft1.
    exists (w1 ++ w2), aft2, (new2 ++ new1). rewrite <- app_assoc.
    split; [auto|]. split; [exists w1, w2; auto|]. split.
    + apply Forall_app. split.
      * eapply Forall_impl; [exact Hc2|]. intros nv. apply captured_cat_r.
      * eapply Forall_impl; [exact Hc1|]. intros nv. apply captured_cat_l.
    + rewrite rev_app_distr, <- !app_assoc. exact H.
  - apply rep_sound in H as (w & aft & Hr & Hlen & Hall & Hk).
    exists w, aft, []. simpl. auto.
  - destruct (exec fl r1 s k) eqn:E; simpl in H.
    + inversion H; subst. apply IH1 in E as (w & aft & new & ? & ? & Hc & ?).
      exists w, aft, new. simpl. repeat split; auto.
    + exists [], (rest s), []. destruct s; simpl in *. auto.
  - apply IH1 in H as (w & aft & new & Hr & HL & Hc & H). simpl in H.
    rewrite span_state in H.
    exists w, aft, ((n, w) :: new). split; [exact Hr|]. split; [exact HL|].
    split; [|exact H]. constructor.
    + exists r1, (before s), aft. simpl. auto.
    + eapply Forall_impl; [exact Hc|]. intros nv (r & b & a & Hin & HLr).
      exists r, b, a. simpl. auto.
  - destruct (exec fl r1 s Some) as [e|] eqn:E; [|discriminate].
    apply IH1 in E as (w & aft & new & Hr & HL & Hc & E). inversion E; subst. simpl in H.
    exists [], (rest s), new. simpl. split; [auto|]. split; [|split].
    + split; [auto|]. exists w, aft. auto.
    + exact Hc.
    + destruct s; simpl in *. exact H.
  - destruct (before s) as [|x b] eqn:Hb; [discriminate|].
    destruct (class_match fl c x) eqn:Hx; [|discriminate].
    exists [], (rest s), []. destruct s; simpl in *. subst. eauto 10.
Qed.

Lemma scan_caps r : forall rst bef s e,
  scan fl r bef rst = Some (s, e) -> Forall (captured fl r) (caps e).
Proof.
  induction rst as [|x t IH]; intros bef s e H; simpl in H.
  - destruct (exec fl r (MState bef [] []) Some) as [e'|] eqn:E; [|discriminate].
    inversion H; subst. apply exec_caps in E as (w & aft & new & _ & _ & Hc & E).
    inversion E; subst. simpl. rewrite app_nil_r. exact Hc.
  - destruct (exec fl r (MState bef (x :: t) []) Some) as [e'|] eqn:E.
    + inversion H; subst. apply exec_caps in E as (w & aft & new & _ & _ & Hc & E).
      inversion E; subst. simpl. rewrite app_nil_r. exact Hc.
    + eapply IH. exact H.
Qed.

(** [m.group(n)] of a match found by [search] is a word of a group
    numbered [n]. *)
Lemma group_captured r text m n v :
  search fl r text = Some m -> group n m = Some v ->
  exists r1 bef aft, In (n, r1) (groups r) /\ Lang fl r1 bef v aft.
Proof.
  destruct m as [s e]. intros Hs Hg. apply scan_caps in Hs.
  unfold group in Hg. simpl in Hg.
  destruct (List.find (fun p => fst p =? n) (caps e)) as [[n' v']|] eqn:Hf; [|discriminate].
  simpl in Hg. inversion Hg; subst. apply find_some in Hf as [Hin Hn].
  simpl in Hn. apply Nat.eqb_eq in Hn. subst n'.
  rewrite Forall_forall in Hs. apply list_elem_of_In in Hin.
  destruct (Hs _ Hin) as (r1 & b & a & Hg1 & HL). eauto.
Qed.

End Caps.
End GroupFacts.

(** ** The values of the tag extractors *)

Module TagValues.
Import Re ReFacts RunFacts Groups GroupFacts Extract TagFacts Scrape.

Lemma strip_spacefree v :
  forallb (fun c => negb (Chr.is_space c)) v = true -> PyStr.strip v = v.
Proof.
  intros H. apply strip_solid.
  - destruct v as [|c v]; [reflexivity|]. simpl in H.
    apply andb_true_iff in H as [H _]. exact H.
  - assert (Hr : forallb (fun c => negb (Chr.is_space c)) (rev v) = true).
    { rewrite forallb_forall in *. intros x Hx. apply H. apply in_rev. exact Hx. }
    destruct (rev v) as [|c r]; [reflexivity|]. simpl in Hr.
    apply andb_true_iff in Hr as [Hr _]. exact Hr.
Qed.

Lemma date_class c :
  class_match icase date_chars c = Chr.is_digit c || Chr.eqb "-"%char c.
Proof. destruct c as [[] [] [] [] [] [] [] []]; vm_compute; reflexivity. Qed.

Lemma date_char_solid c :
  Chr.is_digit c || Chr.eqb "-"%char c = true -> Chr.is_space c = false.
Proof. destruct c as [[] [] [] [] [] [] [] []]; vm_compute; congruence. Qed.

Lemma date_text_class d :
  forallb (class_match icase date_chars) d = date_text d.
Proof.
  unfold date_text. induction d as [|c d IH]; [reflexivity|].
  cbn [forallb]. rewrite IH, date_class. reflexivity.
Qed.

Lemma date_text_spacefree d :
  date_text d = true -> forallb (fun c => negb (Chr.is_space c)) d = true.
Proof.
  unfold date_text. rewrite !forallb_forall. intros H c Hc.
  rewrite (date_char_solid c (H c Hc)). reflexivity.
Qed.

(** [replace('-', '')] takes every hyphen out and nothing else. *)
Lemma replace_hyphen s : PyStr.replace (str "-") [] s = without_hyphens s.
Proof.
  unfold PyStr.replace, without_hyphens. change (str "-") with ["-"%char].
  induction s as [|c s IH]; [reflexivity|].
  simpl. rewrite andb_true_r. destruct (Chr.eqb "-"%char c); simpl; rewrite IH; reflexivity.
Qed.

Lemma without_hyphens_digits d :
  date_text d = true -> digits (without_hyphens d) = true.
Proof.
  unfold date_text, without_hyphens, digits. induction d as [|c d IH]; [reflexivity|].
  simpl. intros H. apply andb_true_iff in H as [Hc H].
  destruct (Chr.eqb "-"%char c) eqn:E; simpl; [apply IH; exact H|].
  rewrite orb_false_r in Hc. rewrite Hc. apply IH. exact H.
Qed.

Lemma transaction_date_pair text m :
  search icase transaction_date_pattern text = Some m ->
  has_tag_pair "transactionDate" text.
Proof.
  destruct m as [s e]. intros H.
  apply scan_sound in H as (pre & w & post & cp & -> & HL & _).
  unfold transaction_date_pattern in HL. simpl cats in HL.
  cat_head HL o Ho. cat_head HL a Ha. cat_head HL v Hv. cat_head HL b Hb.
  cat_head HL g Hg. cat_head HL d Hd. cat_head HL x Hx. cat_head HL f Hf.
  cat_head HL c Hc. simpl in HL. subst.
  replace (pre ++ (o ++ a ++ v ++ b ++ g ++ d ++ x ++ f ++ c ++ []) ++ post)
    with (pre ++ o ++ (a ++ v ++ b ++ g ++ d ++ x ++ f) ++ c ++ post)
    by (rewrite <- !app_assoc; reflexivity).
  eapply (has_tag_pair_intro icase); [reflexivity|eassumption|eassumption].
Qed.

Lemma stops_date_blank w aft :
  blank w = true -> stops icase date_chars aft = true ->
  stops icase date_chars (w ++ aft) = true.
Proof.
  destruct w as [|x w]; [simpl; auto|]. intros H _. simpl in H.
  apply andb_true_iff in H as [H _]. cbn [app stops].
  rewrite date_class. destruct (Chr.is_digit x || Chr.eqb "-"%char x) eqn:E; [|reflexivity].
  apply date_char_solid in E. congruence.
Qed.

Lemma transaction_date_run a1 a2 b v1 v2 c1 d c2 e1 e2 e3 f g1 g2 g3 post :
  blank a1 = true -> blank a2 = true -> blank b = true ->
  blank v1 = true -> blank v2 = true -> blank c1 = true -> blank c2 = true ->
  blank e1 = true -> blank e2 = true -> blank e3 = true -> blank f = true ->
  blank g1 = true -> blank g2 = true -> blank g3 = true ->
  date_text d = true -> d <> [] ->
  extract_transaction_date
    (open_text a1 "transactionDate" a2 ++ b
     ++ open_text v1 "value" v2 ++ c1 ++ d ++ c2
     ++ close_text e1 e2 "value" e3 ++ f
     ++ close_text g1 g2 "transactionDate" g3 ++ post)
  = Some (without_hyphens d).
Proof.
  intros Ha1 Ha2 Hb Hv1 Hv2 Hc1 Hc2 He1 He2 He3 Hf Hg1 Hg2 Hg3 Hd Hne.
  unfold extract_transaction_date, search.
  erewrite scan_here.
  2:{ unfold transaction_date_pattern. simpl cats.
      rewrite run_cat. apply run_open_tag; [exact Ha1|exact Ha2|reflexivity|discriminate|].
      rewrite run_cat. apply run_ws; [exact Hb|reflexivity|].
      rewrite run_cat. apply run_open_tag; [exact Hv1|exact Hv2|reflexivity|discriminate|].
      rewrite run_cat. apply run_ws; [exact Hc1| |].
      { destruct d as [|c d]; [congruence|]. simpl in Hd.
        apply andb_true_iff in Hd as [Hc _]. apply date_char_solid in Hc.
        simpl. rewrite Hc. reflexivity. }
      rewrite run_cat, run_group. apply run_rep.
      { rewrite date_text_class. exact Hd. }
      { destruct d; [congruence|simpl; lia]. }
      { apply stops_date_blank; [exact Hc2|reflexivity]. }
      cbn [before rest caps]. rewrite span_app.
      rewrite run_cat. apply run_ws; [exact Hc2|reflexivity|].
      rewrite run_cat.
      apply run_close_tag; [exact He1|exact He2|exact He3|reflexivity|discriminate|].
      rewrite run_cat. apply run_ws; [exact Hf|reflexivity|].
      rewrite run_cat.
      apply run_close_tag; [exact Hg1|exact Hg2|exact Hg3|reflexivity|discriminate|].
      rewrite run_eps. reflexivity. }
  unfold group. simpl.
  rewrite (strip_spacefree d (date_text_spacefree d Hd)), replace_hyphen. reflexivity.
Qed.

End TagValues.

Import Groups GroupFacts Scrape TagValues.

(** X1: a value that [extract_is_officer] returns is a string of digits
    and is not empty. *)
Theorem is_officer_value_digits :
  forall text d,
    extract_is_officer text = Some d -> digits d = true /\ d <> [].
Proof.
  intros text d H. unfold extract_is_officer in H.
  destruct (search icase is_officer_pattern text) as [m|] eqn:Hs; [|discriminate].
  destruct (group 1 m) as [v|] eqn:Hg; [|discriminate]. simpl in H. inversion H; subst.
  destruct (group_captured icase _ _ _ _ _ Hs Hg) as (r1 & bef & aft & Hin & HL).
  vm_compute in Hin. destruct Hin as [Hin|[]]. inversion Hin; subst r1.
  destruct HL as [Hlen Hall]. change (digits v = true) in Hall.
  rewrite (strip_digits v Hall). split; [exact Hall|].
  intros ->. simpl in Hlen. lia.
Qed.

Lemma is_officer_value_digits_witness :
  digits (str "1") = true /\ str "1" <> [].
Proof.
  apply (is_officer_value_digits (str "<isOfficer> 1 </isOfficer>") (str "1")).
  vm_compute. reflexivity.
Defined.

(** X2: a code that [extract_transaction_type] returns is ["A"] or
    ["D"]. *)
Theorem transaction_type_value :
  forall text v,
    extract_transaction_type text = Some v -> v = str "A" \/ v = str "D".
Proof.
  intros text v H. unfold extract_transaction_type in H.
  destruct (search icase transaction_type_pattern text) as [m|] eqn:Hs; [|discriminate].
  destruct (group 1 m) as [v0|] eqn:Hg; [|discriminate]. simpl in H. inversion H; subst.
  destruct (group_captured icase _ _ _ _ _ Hs Hg) as (r1 & bef & aft & Hin & HL).
  vm_compute in Hin. destruct Hin as [Hin|[]]. inversion Hin; subst r1.
  destruct HL as (x & -> & Hx).
  unfold PyStr.strip. simpl. rewrite (code_solid x Hx). simpl.
  rewrite (code_solid x Hx). simpl.
  destruct (code_upper x Hx) as [->| ->]; [left|right]; reflexivity.
Qed.

Lemma transaction_type_value_witness :
  str "D" = str "A" \/ str "D" = str "D".
Proof.
  apply (transaction_type_value
           (str "<transactionAcquiredDisposedCode><value>d</value></transactionAcquiredDisposedCode>")
           (str "D")).
  vm_compute. reflexivity.
Defined.

(** X3: [extract_transaction_date] returns [None] on a text without a
    pair of [transactionDate] tags; a date it returns holds digits only,
    being a non-empty text of digits and hyphens without its hyphens
    (so it is empty when the value is hyphens alone); and through any
    white space around the tag names, the slashes and the value it
    returns the value of the inner [value] tag without its hyphens. *)
Theorem transaction_date_digits :
  (forall text,
     ~ has_tag_pair "transactionDate" text -> extract_transaction_date text = None)
  /\ (forall text d,
        extract_transaction_date text = Some d ->
        digits d = true
        /\ exists v, v <> [] /\ date_text v = true /\ d = without_hyphens v)
  /\ (forall a1 a2 b v1 v2 c1 d c2 e1 e2 e3 f g1 g2 g3 post,
        blank a1 = true -> blank a2 = true -> blank b = true ->
        blank v1 = true -> blank v2 = true -> blank c1 = true ->
        blank c2 = true -> blank e1 = true -> blank e2 = true ->
        blank e3 = true -> blank f = true -> blank g1 = true ->
        blank g2 = true -> blank g3 = true ->
        date_text d = true -> d <> [] ->
        extract_transaction_date
          (open_text a1 "transactionDate" a2 ++ b
           ++ open_text v1 "value" v2 ++ c1 ++ d ++ c2
           ++ close_text e1 e2 "value" e3 ++ f
           ++ close_text g1 g2 "transactionDate" g3 ++ post)
        = Some (without_hyphens d))
  /\ extract_transaction_date
       (str "<transactionDate><value>--</value></transactionDate>") = Some [].
Proof.
  split; [|split; [|split]].
  - intros text H. unfold extract_transaction_date.
    destruct (search icase transaction_date_pattern text) as [m|] eqn:E; [|reflexivity].
    exfalso. apply H. eapply transaction_date_pair. exact E.
  - intros text d H. unfold extract_transaction_date in H.
    destruct (search icase transaction_date_pattern text) as [m|] eqn:Hs; [|discriminate].
    destruct (group 1 m) as [v|] eqn:Hg; [|discriminate]. simpl in H. inversion H; subst.
    destruct (group_captured icase _ _ _ _ _ Hs Hg) as (r1 & bef & aft & Hin & HL).
    vm_compute in Hin. destruct Hin as [Hin|[]]. inversion Hin; subst r1.
    destruct HL as [Hlen Hall].
    change (forallb (class_match icase date_chars) v = true) in Hall.
    rewrite date_text_class in Hall.
    rewrite (strip_spacefree v (date_text_spacefree v Hall)), replace_hyphen.
    split; [apply without_hyphens_digits; exact Hall|].
    exists v. split; [|auto]. intros ->. simpl in Hlen. lia.
  - intros. apply transaction_date_run; assumption.
  - vm_compute. reflexivity.
Qed.

Lemma transaction_date_digits_witness :
  extract_transaction_date (str "<value>2021-06-02</value>") = None
  /\ digits (str "20210602") = true
  /\ extract_transaction_date
       (open_text [] "transactionDate" [] ++ str " "
        ++ open_text [] "value" [] ++ [] ++ str "2021-06-02" ++ str " "
        ++ close_text [] [] "value" [] ++ []
        ++ close_text [] [] "transactionDate" [] ++ [])
     = Some (str "20210602").
Proof.
  destruct transaction_date_digits as (Hnone & Hdigits & Hrun & _).
  split; [|split].
  - apply Hnone. intros H. apply has_tag_pair_open in H. revert H.
    apply search_none. vm_compute. reflexivity.
  - apply (Hdigits (str "<transactionDate><value>2021-06-02</value></transactionDate>")).
    vm_compute. reflexivity.
  - apply (Hrun [] [] (str " ") [] [] [] (str "2021-06-02") (str " ") [] [] [] [] [] [] [] []);
      try reflexivity. discriminate.
Defined.

(** ** The first topic of an 8-K header *)

Module TopicFacts.
Import Re ReFacts RunFacts Groups GroupFacts Extract TagFacts Item1Run Scrape Fetch.
Import PipelineFacts.

Lemma splitlines_from_nonempty : forall s cur,
  s <> [] \/ cur <> [] -> splitlines_from cur s <> [].
Proof.
  induction s as [|c s IH]; intros cur H; simpl.
  - destruct cur; [destruct H; congruence|discriminate].
  - destruct (is_linebreak c).
    + destruct s as [|c' s']; [discriminate|].
      destruct (Chr.eqb c "013"%char && Chr.eqb c' "010"%char); discriminate.
    + apply IH. right. discriminate.
Qed.

Lemma one_line_rev cur : one_line cur = true -> one_line (rev cur) = true.
Proof.
  unfold one_line. rewrite !forallb_forall. intros H x Hx. apply H.
  apply in_rev. exact Hx.
Qed.

(** Every line of [splitlines] is without a line end. *)
Lemma splitlines_from_lines : forall n s cur,
  length s <= n -> one_line cur = true ->
  Forall (fun l => one_line l = true) (splitlines_from cur s).
Proof.
  induction n as [|n IH]; intros s cur Hn Hcur.
  - destruct s; [|simpl in Hn; lia]. simpl.
    destruct cur; [constructor|]. constructor; [apply one_line_rev; exact Hcur|constructor].
  - destruct s as [|c s]; simpl.
    + destruct cur; [constructor|].
      constructor; [apply one_line_rev; exact Hcur|constructor].
    + simpl in Hn. destruct (is_linebreak c) eqn:Hc.
      * destruct s as [|c' s'].
        -- constructor; [apply one_line_rev; exact Hcur|constructor].
        -- simpl in Hn.
           destruct (Chr.eqb c "013"%char && Chr.eqb c' "010"%char);
             (constructor; [apply one_line_rev; exact Hcur|]);
             apply IH; simpl; auto; lia.
      * apply IH; [lia|]. unfold one_line in *. simpl. rewrite Hc, Hcur. reflexivity.
Qed.

(** The first line of a text that begins with a line and goes on with
    nothing or with a line end. *)
Lemma splitlines_first : forall topic cur rest,
  one_line topic = true -> topic <> [] ->
  stops icase CAny rest = true \/ (exists lb r, rest = lb :: r /\ is_linebreak lb = true) ->
  exists ls, splitlines_from cur (topic ++ rest) = (rev cur ++ topic) :: ls.
Proof.
  assert (Hend : forall cur rest, cur <> [] ->
    stops icase CAny rest = true \/ (exists lb r, rest = lb :: r /\ is_linebreak lb = true) ->
    exists ls, splitlines_from cur rest = rev cur :: ls).
  { intros cur rest Hcur [Hstop|(lb & r & -> & Hlb)].
    - destruct rest as [|y r]; simpl.
      + destruct cur; [congruence|]. eauto.
      + simpl in Hstop. apply negb_true_iff in Hstop. apply negb_false_iff in Hstop.
        unfold Chr.eqb in Hstop. apply Ascii.eqb_eq in Hstop. subst y.
        change (is_linebreak "010"%char) with true. cbv iota.
        destruct r as [|c' r']; [eauto|].
        destruct (Chr.eqb "010"%char "013"%char && Chr.eqb c' "010"%char); eauto.
    - simpl. rewrite Hlb. destruct r as [|c' r']; [eauto|].
      destruct (Chr.eqb lb "013"%char && Chr.eqb c' "010"%char); eauto. }
  induction topic as [|c topic IH]; intros cur rest Hone Hne Hrest; [congruence|].
  simpl in Hone. apply andb_true_iff in Hone as [Hc Hone]. apply negb_true_iff in Hc.
  cbn [app splitlines_from]. rewrite Hc.
  destruct topic as [|c2 topic].
  - simpl app. destruct (Hend [c] rest) as [ls Hls]; [discriminate|exact Hrest|].
    destruct (Hend (c :: cur) rest) as [ls' Hls']; [discriminate|exact Hrest|].
    exists ls'. rewrite Hls'. simpl. reflexivity.
  - destruct (IH (c :: cur) rest Hone) as [ls Hls]; [discriminate|exact Hrest|].
    exists ls. rewrite Hls. simpl. rewrite <- app_assoc. reflexivity.
Qed.

Lemma strip_strip s : PyStr.strip (PyStr.strip s) = PyStr.strip s.
Proof. apply strip_solid; apply strip_ends. Qed.

Lemma lstrip_one_line s : one_line s = true -> one_line (PyStr.lstrip s) = true.
Proof.
  induction s as [|c s IH]; [reflexivity|]. intros H. simpl.
  destruct (Chr.is_space c); [|exact H].
  simpl in H. apply andb_true_iff in H as [_ H]. apply IH. exact H.
Qed.

Lemma strip_one_line s : one_line s = true -> one_line (PyStr.strip s) = true.
Proof.
  intros H. unfold PyStr.strip. apply one_line_rev. apply lstrip_one_line.
  apply one_line_rev. apply lstrip_one_line. exact H.
Qed.

(** A match of the pattern closes group 1 on a text that is not empty. *)
Lemma first_topic_group text m :
  search icase first_topic_pattern text = Some m ->
  occurs icase (lits "ITEM INFORMATION:") text
  /\ exists g, group 1 m = Some g /\ g <> [].
Proof.
  destruct m as [s e]. unfold search. intros H.
  assert (Hocc : occurs icase (lits "ITEM INFORMATION:") text).
  { apply scan_sound in H as (pre & w & post & cp & -> & HL & _).
    unfold first_topic_pattern in HL. simpl cats in HL.
    apply Lang_Cat in HL as (w1 & w2 & -> & H1 & _).
    exists pre, w1, (w2 ++ post). rewrite <- app_assoc. auto. }
  split; [exact Hocc|]. clear Hocc.
  assert (Hgen : forall t bef s e,
    scan icase first_topic_pattern bef t = Some (s, e) ->
    exists g, group 1 (s, e) = Some g /\ g <> []); [|exact (Hgen text [] s e H)].
  clear. induction t as [|x t IH]; intros bef s e H; cbn [scan] in H.
  - destruct (exec icase first_topic_pattern (MState bef [] []) Some) eqn:E; [|discriminate].
    exfalso. unfold first_topic_pattern in E. simpl cats in E. rewrite run_cat in E.
    apply exec_sound in E as (w & aft & cp & Hr & HL & _).
    simpl in Hr. destruct w; [|discriminate].
    unfold lits in HL. simpl in HL. destruct HL as (a & b & Hab & (y & -> & _) & _).
    discriminate.
  - destruct (exec icase first_topic_pattern (MState bef (x :: t) []) Some) as [e'|] eqn:E.
    + inversion H; subst. clear H IH.
      unfold first_topic_pattern in E. simpl cats in E. rewrite run_cat in E.
      apply exec_sound in E as (w1 & aft1 & cp1 & _ & _ & E).
      rewrite run_cat in E.
      apply exec_sound in E as (w2 & aft2 & cp2 & _ & _ & E).
      rewrite run_cat, run_group in E.
      apply exec_sound in E as (g & aft3 & cp3 & _ & HL & E).
      cbn [before rest caps] in E. rewrite run_eps in E. inversion E; subst.
      rewrite span_state. exists g. split; [reflexivity|].
      destruct HL as [Hlen _]. intros ->. simpl in Hlen. lia.
    + eapply IH. exact H.
Qed.

End TopicFacts.

Import Fetch TopicFacts.

(** X4: [extract_first_topic] never raises: the list of lines it
    indexes is never empty.  The topic it returns is stripped and holds
    no line end, and it is ["Unknown"] when the label
    [ITEM INFORMATION:] does not occur in the text. *)
Theorem first_topic_total :
  (forall text,
     exists topic,
       extract_first_topic text = Returned topic
       /\ PyStr.strip topic = topic /\ one_line topic = true)
  /\ (forall text,
        ~ occurs icase (lits "ITEM INFORMATION:") text ->
        extract_first_topic text = Returned (str "Unknown")).
Proof.
  split.
  - intros text. unfold extract_first_topic.
    destruct (search icase first_topic_pattern text) as [m|] eqn:Hs.
    + destruct (first_topic_group text m Hs) as (_ & g & Hg & Hne). rewrite Hg.
      pose proof (splitlines_from_nonempty g [] (or_introl Hne)) as Hlines.
      pose proof (splitlines_from_lines (length g) g [] (le_n _) eq_refl) as Hone.
      fold (splitlines g) in Hlines, Hone.
      destruct (splitlines g) as [|line ls]; [congruence|].
      exists (PyStr.strip line). split; [reflexivity|]. split; [apply strip_strip|].
      apply strip_one_line. inversion Hone; subst. assumption.
    + exists (str "Unknown"). split; [reflexivity|]. split; vm_compute; reflexivity.
  - intros text H. unfold extract_first_topic.
    destruct (search icase first_topic_pattern text) as [m|] eqn:Hs; [|reflexivity].
    exfalso. apply H. apply (first_topic_group text m Hs).
Qed.

Lemma first_topic_total_witness :
  extract_first_topic (str "ACCESSION NUMBER: 0001") = Returned (str "Unknown").
Proof.
  apply (proj2 first_topic_total). apply search_none. vm_compute. reflexivity.
Defined.

(** ** The first topic, on a header made for the pattern *)

Module TopicRun.
Import Re ReFacts RunFacts Extract TagFacts Scrape PipelineFacts SentenceFacts.

Lemma startswith_long p : forall a b,
  length p <= length a -> PyStr.startswith p (a ++ b) = PyStr.startswith p a.
Proof.
  induction p as [|c p IH]; intros a b Hlen; [reflexivity|].
  destruct a as [|x a]; simpl in *; [lia|].
  rewrite IH by lia. reflexivity.
Qed.

(** A literal pattern under [IGNORECASE] passes over a text with the
    same lower-case form. *)
Lemma run_chars_icase p : forall w bef aft cp k,
  PyStr.lower w = PyStr.lower p ->
  exec icase (foldr (fun c r => Cat (Atom (CLit c)) r) Eps p) (MState bef (w ++ aft) cp) k
  = k (MState (rev w ++ bef) aft cp).
Proof.
  induction p as [|c p IH]; intros w bef aft cp k Hw.
  - destruct w; [reflexivity|discriminate].
  - destruct w as [|x w]; [discriminate|]. simpl in Hw. inversion Hw as [[Hx Hrest]].
    cbn [foldr exec rest before caps class_match app].
    unfold lit_match. cbn [ignorecase icase]. rewrite Hx.
    unfold Chr.eqb at 1. rewrite Ascii.eqb_refl.
    rewrite (IH w (x :: bef) aft cp k Hrest). simpl. rewrite <- app_assoc. reflexivity.
Qed.

(** The search passes over the text before the first label. *)
Lemma scan_to_label lab16 c tail : forall pre bef,
  length lab16 = 16 ->
  PyStr.contains (str "item information:") (PyStr.lower (pre ++ lab16)) = false ->
  scan icase first_topic_pattern bef (pre ++ lab16 ++ c :: tail)
  = scan icase first_topic_pattern (rev pre ++ bef) (lab16 ++ c :: tail).
Proof.
  intros pre bef Hlen. revert bef.
  induction pre as [|x pre IH]; intros bef Hno; [reflexivity|].
  cbn [app PyStr.lower map PyStr.contains] in Hno.
  apply orb_false_iff in Hno as [Hhere Hlater].
  cbn [app scan].
  replace (exec icase first_topic_pattern
             (MState bef (x :: pre ++ lab16 ++ c :: tail) []) Some) with (@None mstate).
  - rewrite IH by exact Hlater. simpl. rewrite <- app_assoc. reflexivity.
  - symmetry. unfold first_topic_pattern. simpl cats. rewrite run_cat.
    unfold lits. rewrite exec_chars_icase.
    replace (PyStr.lower (x :: pre ++ lab16 ++ c :: tail))
      with (PyStr.lower (x :: pre ++ lab16) ++ PyStr.lower (c :: tail)).
    + rewrite startswith_long.
      * change (PyStr.lower (str "ITEM INFORMATION:")) with (str "item information:").
        cbn [PyStr.lower map]. rewrite Hhere. reflexivity.
      * unfold PyStr.lower. rewrite !length_map.
        change (length (str "ITEM INFORMATION:")) with 17.
        change (x :: pre ++ lab16) with ((x :: pre) ++ lab16).
        rewrite length_app, Hlen. simpl. lia.
    + unfold PyStr.lower. rewrite <- map_app. f_equal. simpl. rewrite <- app_assoc.
      reflexivity.
Qed.

(** A text is a run without line feed and a rest that is empty or
    begins with a line feed. *)
Lemma cut_at_linefeed : forall tl : list ascii,
  exists r1 r2, tl = r1 ++ r2
    /\ forallb (class_match icase CAny) r1 = true
    /\ stops icase CAny r2 = true
    /\ (r1 = [] \/ exists r, r1 = hd "000"%char tl :: r).
Proof.
  induction tl as [|x tl (r1 & r2 & Hr & Hall & Hstop & _)].
  - exists [], []. auto.
  - destruct (class_match icase CAny x) eqn:Hx.
    + exists (x :: r1), r2. rewrite Hr at 1. cbn [forallb hd app]. rewrite Hx, Hall.
      repeat split; auto. right. eauto.
    + exists [], (x :: tl). cbn [stops forallb app]. rewrite Hx. auto.
Qed.

Lemma one_line_any line :
  one_line line = true -> forallb (class_match icase CAny) line = true.
Proof.
  unfold one_line. rewrite !forallb_forall. intros H x Hx. specialize (H x Hx).
  revert H. clear. destruct x as [[] [] [] [] [] [] [] []]; vm_compute; congruence.
Qed.

Lemma first_topic_run pre lab w line more :
  PyStr.lower lab = str "item information" ->
  PyStr.contains (str "item information:") (PyStr.lower (pre ++ lab)) = false ->
  blank w = true -> solid line = true -> line <> [] -> one_line line = true ->
  (more = [] \/ exists lb r, more = lb :: r /\ is_linebreak lb = true) ->
  exists r1 s e,
    search icase first_topic_pattern (pre ++ lab ++ str ":" ++ w ++ line ++ more)
    = Some (s, e)
    /\ group 1 (s, e) = Some (line ++ r1)
    /\ (stops icase CAny r1 = true \/ exists lb r, r1 = lb :: r /\ is_linebreak lb = true).
Proof.
  intros Hlab Hno Hw Hsolid Hne Hone Hrest.
  assert (Hlen : length lab = 16).
  { apply (f_equal (@length ascii)) in Hlab. unfold PyStr.lower in Hlab.
    rewrite length_map in Hlab. exact Hlab. }
  destruct (cut_at_linefeed more) as (r1 & r2 & Hr & Hall & Hstop & Hhead).
  exists r1. unfold search.
  change (str ":" ++ w ++ line ++ more) with (":"%char :: (w ++ line ++ more)).
  rewrite (scan_to_label lab ":"%char (w ++ line ++ more) pre [] Hlen Hno).
  rewrite app_nil_r.
  set (e := MState (rev (line ++ r1) ++ rev w ++ rev (lab ++ str ":") ++ rev pre) r2
              [(1, line ++ r1)]).
  exists (MState (rev pre) (lab ++ ":"%char :: w ++ line ++ more) []), e.
  split; [|split].
  - apply scan_here. unfold first_topic_pattern. simpl cats. rewrite run_cat.
    unfold lits.
    replace (lab ++ ":"%char :: w ++ line ++ more)
      with ((lab ++ str ":") ++ w ++ line ++ more)
      by (rewrite <- app_assoc; reflexivity).
    rewrite run_chars_icase.
    2:{ unfold PyStr.lower in *. rewrite map_app, Hlab. reflexivity. }
    rewrite run_cat.
    apply run_ws; [exact Hw|apply solid_app; assumption|].
    rewrite run_cat, run_group. rewrite Hr, (app_assoc line r1 r2).
    apply run_rep.
    + rewrite forallb_app, Hall, (one_line_any line Hone). reflexivity.
    + rewrite length_app. destruct line; [congruence|simpl; lia].
    + exact Hstop.
    + cbn [before rest caps]. rewrite run_eps. unfold e.
      rewrite (span_app _ (line ++ r1)). reflexivity.
  - reflexivity.
  - destruct Hhead as [->|(r & Hr1)]; [left; reflexivity|].
    destruct Hrest as [->|(lb & r' & -> & Hlb)]; [destruct r1; discriminate|].
    right. exists lb, r. split; [exact Hr1|exact Hlb].
Qed.

End TopicRun.

Import TopicRun.

(** X5: when the first label [ITEM INFORMATION:] of a text (in any case
    of letters) is followed by white space, line ends included, and
    then by a line that begins with a character that is no white space,
    [extract_first_topic] returns that line, stripped: what follows the
    first line end after it is left out. *)
Theorem first_topic_line :
  forall pre lab w line rest,
  PyStr.lower lab = str "item information" ->
  PyStr.contains (str "item information:") (PyStr.lower (pre ++ lab)) = false ->
  blank w = true -> solid line = true -> line <> [] -> one_line line = true ->
  (rest = [] \/ exists lb r, rest = lb :: r /\ is_linebreak lb = true) ->
  extract_first_topic (pre ++ lab ++ str ":" ++ w ++ line ++ rest)
  = Returned (PyStr.strip line).
Proof.
  intros pre lab w line rest Hlab Hno Hw Hsolid Hne Hone Hrest.
  destruct (first_topic_run pre lab w line rest Hlab Hno Hw Hsolid Hne Hone Hrest)
    as (r1 & s & e & Hs & Hg & Hr1).
  unfold extract_first_topic. rewrite Hs, Hg. unfold splitlines.
  destruct (splitlines_first line [] r1 Hone Hne Hr1) as [ls Hls].
  rewrite Hls. reflexivity.
Qed.

Lemma first_topic_line_witness :
  extract_first_topic
    (str "CONFORMED SUBMISSION TYPE: 8-K" ++ ["010"%char]
     ++ str "Item Information" ++ str ":" ++ [" "; "010"; "009"]%char
     ++ str "Regulation FD Disclosure  " ++ ["013"; "010"]%char ++ str "ITEM INFORMATION: Other")
  = Returned (str "Regulation FD Disclosure").
Proof.
  apply (first_topic_line (str "CONFORMED SUBMISSION TYPE: 8-K" ++ ["010"%char])
           (str "Item Information") [" "; "010"; "009"]%char
           (str "Regulation FD Disclosure  ")
           (["013"; "010"]%char ++ str "ITEM INFORMATION: Other"));
    try (vm_compute; reflexivity).
  - discriminate.
  - right. exists "013"%char, ("010"%char :: str "ITEM INFORMATION: Other").
    split; vm_compute; reflexivity.
Defined.

(** ** The pages of the fetcher *)

Module PagingFacts.
Import Fetch FetchFacts Report.

Section Pages.
Variable World : Type.
Variable get_filings : query -> World -> outcome api_result * World.
Variable query_str : list ascii.
Variable desired_count page_size : Z.

Lemma fetch_loop_trace : forall fuel start acc w res tr w',
  fetch_loop World get_filings query_str desired_count page_size fuel start acc w
  = Some (res, tr, w') ->
  tr = trace_of (requests tr).
Proof.
  induction fuel as [|fuel IH]; intros start acc w res tr w' H; cbn [fetch_loop] in H;
    destruct (Z.of_nat (length acc) <? desired_count)%Z;
    try discriminate; try (inversion H; subst; reflexivity).
  destruct (get_filings (Query query_str start page_size) w) as [[result|e] w1].
  - destruct (default [] result) as [|f fs] eqn:Hfs.
    + inversion H; subst. simpl. rewrite Hfs. reflexivity.
    + destruct (fetch_loop World get_filings query_str desired_count page_size fuel
                  (start + page_size) (acc ++ map to_row (f :: fs)) w1)
        as [[[res1 tr1] w2]|] eqn:E; [|discriminate].
      inversion H; subst. apply IH in E. cbn [requests].
      unfold trace_of. cbn [flat_map fst snd rows_of]. rewrite Hfs.
      cbn [map app]. fold (trace_of (requests tr1)). rewrite <- E. reflexivity.
  - inversion H; subst. reflexivity.
Qed.

Lemma query_filings_loop rnd w res tr w' :
  query_filings World get_filings query_str desired_count page_size rnd w
  = Some (res, tr, w') ->
  exists res0,
    fetch_loop World get_filings query_str desired_count page_size
      (Z.to_nat desired_count) 0 [] w = Some (res0, tr, w')
    /\ run_ok query_str desired_count page_size 0 [] res0 (requests tr)
    /\ res = match res0 with
             | Returned l => sampling_reducer rnd l desired_count
             | Raised e => Raised e
             end.
Proof.
  unfold query_filings.
  destruct (fetch_loop_spec World get_filings query_str desired_count page_size
              (Z.to_nat desired_count) 0 [] w)
    as (res0 & tr0 & w0 & Hrun & Hok); [simpl; lia|].
  rewrite Hrun. intros H. exists res0.
  destruct res0 as [l|e]; inversion H; subst; auto.
Qed.

End Pages.
End PagingFacts.

Import Report PagingFacts.

(** X6: the page requests of [query_filings], whatever the source
    answers: the request number [i] (from 0) asks for the same query
    string, [from = i * page_size] and [size = page_size]; it is made
    only while the rows brought by the requests before it are fewer than
    [desired_count]; and the routine sleeps one second after every page
    that brought filings, and at no other time. *)
Theorem query_filings_paging :
  forall (World : Type) (get_filings : query -> World -> outcome api_result * World)
         (query_str : list ascii) (desired_count page_size : Z)
         (rnd : nat -> nat) (w : World) res tr w',
  query_filings World get_filings query_str desired_count page_size rnd w
  = Some (res, tr, w') ->
  (forall i q r, requests tr !! i = Some (q, r) ->
     q = Query query_str (Z.of_nat i * page_size) page_size
     /\ (Z.of_nat (length (rows_of_all (take i (requests tr)))) < desired_count)%Z)
  /\ tr = trace_of (requests tr).
Proof.
  intros World get_filings query_str desired_count page_size rnd w res tr w' H.
  destruct (query_filings_loop _ _ _ _ _ _ _ _ _ _ H)
    as (res0 & Hloop & (Hq & Hmid & _) & _).
  split.
  - intros i q r Hi. split.
    + rewrite (Hq i q r Hi). f_equal; lia.
    + pose proof (take_drop_middle _ _ _ Hi) as Hsplit. symmetry in Hsplit.
      destruct (Hmid _ _ _ _ Hsplit) as [Hlt _]. exact Hlt.
  - eapply fetch_loop_trace. exact Hloop.
Qed.

Lemma query_filings_paging_witness :
  exists res tr,
    query_filings unit (mock_source [∅; ∅; ∅]) (str "formType:10-K") 3 2 (fun i => i) tt
    = Some (res, tr, tt)
    /\ fst <$> requests tr
       = [Query (str "formType:10-K") 0 2; Query (str "formType:10-K") 2 2]
    /\ tr = trace_of (requests tr).
Proof.
  destruct (query_filings unit (mock_source [∅; ∅; ∅]) (str "formType:10-K") 3 2
              (fun i => i) tt) as [[[res tr] []]|] eqn:E; [|vm_compute in E; discriminate].
  exists res, tr. split; [reflexivity|].
  destruct (query_filings_paging unit (mock_source [∅; ∅; ∅]) (str "formType:10-K") 3 2
              (fun i => i) tt res tr tt E) as [Hq Htr].
  split; [|exact Htr].
  assert (Hlen : length (requests tr) = 2)
    by (vm_compute in E; inversion E; subst; reflexivity).
  destruct (requests tr) as [|[q0 r0] [|[q1 r1] [|? ?]]]; try discriminate.
  destruct (Hq 0 q0 r0 eq_refl) as [-> _]. destruct (Hq 1 q1 r1 eq_refl) as [-> _].
  reflexivity.
Defined.

(** X7: what [query_filings] returns, whatever the source answers: with
    a negative [desired_count] it makes no request and [random.sample]
    raises [ValueError]; rows that are returned are at most
    [desired_count], namely min(rows fetched, desired_count) of them, and
    each is a row fetched by one of the page requests, none taken
    twice. *)
Theorem query_filings_result :
  forall (World : Type) (get_filings : query -> World -> outcome api_result * World)
         (query_str : list ascii) (desired_count page_size : Z)
         (rnd : nat -> nat) (w : World),
  ((desired_count < 0)%Z ->
   query_filings World get_filings query_str desired_count page_size rnd w
   = Some (Raised "ValueError", [], w))
  /\ (forall out tr w',
        query_filings World get_filings query_str desired_count page_size rnd w
        = Some (Returned out, tr, w') ->
        (0 <= desired_count)%Z
        /\ length out
           = Nat.min (length (rows_of_all (requests tr))) (Z.to_nat desired_count)
        /\ exists rest, out ++ rest ≡ₚ rows_of_all (requests tr)).
Proof.
  intros World get_filings query_str desired_count page_size rnd w.
  assert (Hneg : (desired_count < 0)%Z ->
    query_filings World get_filings query_str desired_count page_size rnd w
    = Some (Raised "ValueError", [], w)).
  { intros Hlt. unfold query_filings.
    replace (Z.to_nat desired_count) with 0 by lia. cbn [fetch_loop length].
    destruct (Z.ltb_spec (Z.of_nat 0) desired_count) as [|_]; [lia|].
    unfold sampling_reducer, random_sample. cbn [length].
    destruct (Z.gtb_spec (Z.of_nat 0) desired_count) as [_|]; [|lia].
    destruct (Z.ltb_spec desired_count 0) as [_|]; [reflexivity|lia]. }
  split; [exact Hneg|].
  intros out tr w' H.
  destruct (Z.lt_ge_cases desired_count 0) as [Hlt|Hge].
  { rewrite (Hneg Hlt) in H. discriminate. }
  split; [lia|].
  destruct (query_filings_loop _ _ _ _ _ _ _ _ _ _ H)
    as (res0 & _ & (_ & _ & Hres & _) & Hout).
  destruct res0 as [l|e]; [|discriminate].
  destruct (Hres l eq_refl) as [Hl _]. simpl in Hl. subst l.
  destruct (sampling_reducer_spec rnd (rows_of_all (requests tr)) (Z.to_nat desired_count))
    as (out' & Hs & Hlen & Hsame & Hsample).
  rewrite Z2Nat.id in Hs by exact Hge. rewrite Hs in Hout. inversion Hout; subst out'.
  split; [exact Hlen|].
  destruct (Nat.le_gt_cases (length (rows_of_all (requests tr))) (Z.to_nat desired_count))
    as [Hle|Hgt].
  - exists []. rewrite (Hsame Hle), app_nil_r. reflexivity.
  - destruct (Hsample Hgt) as [_ Hperm]. exact Hperm.
Qed.

Lemma query_filings_result_witness :
  query_filings unit (mock_source [∅; ∅; ∅]) (str "formType:10-K") (-1) 2 (fun i => i) tt
  = Some (Raised "ValueError", [], tt).
Proof.
  apply (proj1 (query_filings_result unit (mock_source [∅; ∅; ∅]) (str "formType:10-K")
                  (-1) 2 (fun i => i) tt)).
  lia.
Defined.

(** ** The rows of the enrichment *)

Module EnrichFacts.
Import Fetch Pipeline PipelineFacts.

Section Rows.
Variable World : Type.
Variable http_get : list ascii -> World -> outcome response * World.
Variable json : list ascii -> outcome profile.
Variable to_datetime : option (list ascii) -> outcome (option (list ascii)).

(** Every header of the loop is made of its row and of some profile. *)
Lemma header_rows_made : forall rows w hs w',
  header_rows World http_get json rows w = (Returned hs, w') ->
  Forall2 (fun row h => exists submission, header_of row submission = Returned h)
          rows hs.
Proof.
  induction rows as [|row rows IH]; intros w hs w' H; simpl in H.
  - inversion H; subst. constructor.
  - destruct (get_submission_data World http_get json (cik row) w) as [[sub|e] w1];
      [|discriminate].
    destruct (header_of row sub) as [h|e] eqn:Hh; [|discriminate].
    destruct (header_rows World http_get json rows w1) as [[hs1|e] w2] eqn:E;
      [|discriminate].
    inversion H; subst. constructor; [eauto|]. eapply IH. exact E.
Qed.

(** What the parsing of the dates leaves of a header. *)
Lemma parse_dates_rows : forall hs hs',
  parse_dates to_datetime hs = Returned hs' ->
  Forall2 (fun h h' =>
             to_datetime (FilingDate h) = Returned (FilingDate h')
             /\ CIK h' = CIK h /\ FormType h' = FormType h
             /\ AccessionNumber h' = AccessionNumber h
             /\ FileLink h' = FileLink h) hs hs'.
Proof.
  induction hs as [|h hs IH]; intros hs' H; simpl in H.
  - inversion H; subst. constructor.
  - destruct (to_datetime (FilingDate h)) as [d|e] eqn:Hd; [|discriminate].
    destruct (parse_dates to_datetime hs) as [hs1|e]; [|discriminate].
    inversion H; subst. constructor; [|apply IH; reflexivity].
    simpl. rewrite Hd. repeat split; reflexivity.
Qed.

(** The loop over the rows stops at the first profile request that
    raises. *)
Lemma header_rows_raise : forall pre row post w hs1 w1 e w2,
  header_rows World http_get json pre w = (Returned hs1, w1) ->
  get_submission_data World http_get json (cik row) w1 = (Raised e, w2) ->
  header_rows World http_get json (pre ++ row :: post) w = (Raised e, w2).
Proof.
  intros pre row post w hs1 w1 e w2 Hpre Hget.
  destruct (header_rows_app World http_get json pre (row :: post) w hs1 w1 Hpre)
    as [-> _].
  cbn [header_rows]. rewrite Hget. reflexivity.
Qed.

Lemma enrich_rows rows w hs w' :
  enrich_header_data World http_get json to_datetime rows w = (Returned hs, w') ->
  Forall2 (fun row h =>
             CIK h = cik row /\ FormType h = formType row
             /\ AccessionNumber h = accessionNumber row /\ FileLink h = fileLink row
             /\ to_datetime (filedAt row) = Returned (FilingDate h)) rows hs.
Proof.
  intros H. apply enrich_returned in H as (hs0 & Hrows & Hp & _).
  apply header_rows_made in Hrows. apply parse_dates_rows in Hp.
  revert hs Hp. induction Hrows as [|row h0 rows hs0 [sub Hsub] _ IH]; intros hs Hp.
  - inversion Hp; subst. constructor.
  - inversion Hp as [|? h' ? hs' (Hd & H1 & H2 & H3 & H4) Hrest]; subst.
    constructor; [|apply IH; exact Hrest].
    apply header_of_returned in Hsub as (_ & G1 & G2 & G3 & G4 & G5 & _).
    rewrite H1, H2, H3, H4, G1, G2, G4, G5, <- G3. auto.
Qed.

End Rows.
End EnrichFacts.

Import EnrichFacts.

(** X8: [enrich_header_data] keeps the filings as they are: when it
    returns, the frame has one row for each filing, in the same order;
    the row keeps the filing's CIK, form type, accession number and
    link, and its date is the filing's [filedAt] as [pd.to_datetime]
    parses it.  The company name of the row is the [name] of the
    profile fetched for the filing when that profile has one, and the
    filing's own name when it has not.  A frame without filings does
    not come back: line 145 raises [KeyError], and no request has been
    made. *)
Theorem enrich_keeps_filings :
  forall (World : Type) (http_get : list ascii -> World -> outcome response * World)
         (json : list ascii -> outcome profile)
         (to_datetime : option (list ascii) -> outcome (option (list ascii)))
         (w : World),
  enrich_header_data World http_get json to_datetime [] w = (Raised "KeyError", w)
  /\ (forall rows hs w',
        enrich_header_data World http_get json to_datetime rows w = (Returned hs, w') ->
        rows <> [] /\ length hs = length rows
        /\ Forall2 (fun row h =>
             CIK h = cik row /\ FormType h = formType row
             /\ AccessionNumber h = accessionNumber row /\ FileLink h = fileLink row
             /\ to_datetime (filedAt row) = Returned (FilingDate h)) rows hs)
  /\ (forall pre row post hs1 w1 submission w2 hs w',
        header_rows World http_get json pre w = (Returned hs1, w1) ->
        get_submission_data World http_get json (cik row) w1
        = (Returned submission, w2) ->
        enrich_header_data World http_get json to_datetime (pre ++ row :: post) w
        = (Returned hs, w') ->
        exists h, hs !! length pre = Some h
          /\ CompanyName h = match fields submission !! "name" with
                             | Some name => Some name
                             | None => companyName row
                             end).
Proof.
  intros World http_get json to_datetime w. split; [reflexivity|]. split.
  - intros rows hs w' H.
    pose proof (enrich_rows _ _ _ _ _ _ _ _ H) as Hrows.
    split; [|split; [|exact Hrows]].
    + intros ->. discriminate.
    + symmetry. eapply Forall2_length. exact Hrows.
  - intros pre row post hs1 w1 submission w2 hs w' Hpre Hget H.
    destruct (enrich_row World http_get json to_datetime pre row post w hs1 w1
                submission w2 hs w' Hpre Hget H)
      as (h0 & h & Hh0 & Hh & _ & _ & _ & Hname & _).
    exists h. split; [exact Hh|]. rewrite Hname.
    apply header_of_returned in Hh0 as (_ & _ & _ & _ & _ & _ & Hn & _).
    rewrite Hn. destruct (fields submission !! "name"); reflexivity.
Qed.

Lemma enrich_keeps_filings_witness :
  let row := FilingRow (Some (str "320193")) (Some (str "Apple")) (Some (str "10-K"))
               (Some (str "2023-11-03")) (Some (str "0000320193-23-000106")) None in
  exists h,
    enrich_header_data unit
      (fun _ w => (Returned (Response 200 (str "{}")), w))
      (fun _ => Returned (Profile {["name" := str "Apple Inc."]} ∅))
      (fun d => Returned d) [row] tt
    = (Returned [h], tt)
    /\ CIK h = Some (str "320193") /\ FormType h = Some (str "10-K")
    /\ AccessionNumber h = Some (str "0000320193-23-000106")
    /\ FilingDate h = Some (str "2023-11-03")
    /\ CompanyName h = Some (str "Apple Inc.").
Proof.
  intros row.
  destruct (enrich_header_data unit
              (fun _ w => (Returned (Response 200 (str "{}")), w))
              (fun _ => Returned (Profile {["name" := str "Apple Inc."]} ∅))
              (fun d => Returned d) [row] tt) as [[hs|e] []] eqn:E;
    [|vm_compute in E; discriminate].
  destruct (enrich_keeps_filings unit
              (fun _ w => (Returned (Response 200 (str "{}")), w))
              (fun _ => Returned (Profile {["name" := str "Apple Inc."]} ∅))
              (fun d => Returned d) tt) as (_ & Hkeep & Hname).
  destruct (Hkeep [row] hs tt E) as (_ & _ & Hrows).
  destruct (Hname [] row [] [] tt (Profile {["name" := str "Apple Inc."]} ∅) tt hs tt
              eq_refl eq_refl E) as (h' & Hh' & Hn).
  inversion Hrows as [|? h ? hs' (H1 & H2 & H3 & H4 & H5) Hnil]; subst.
  inversion Hnil; subst. simpl in Hh'. inversion Hh'; subst h'.
  exists h. split; [reflexivity|]. simpl in *. inversion H5. auto.
Defined.

(** X9: a profile request that raises is not caught: whatever rows came
    before it, the exception leaves [enrich_header_data] and no frame is
    returned. *)
Theorem enrich_request_failure :
  forall (World : Type) (http_get : list ascii -> World -> outcome response * World)
         (json : list ascii -> outcome profile)
         (to_datetime : option (list ascii) -> outcome (option (list ascii)))
         pre row post (w : World) hs1 w1 e w2,
  header_rows World http_get json pre w = (Returned hs1, w1) ->
  http_get (str "https://data.sec.gov/submissions/CIK"
            ++ PyStr.zfill 10 (default (str "None") (cik row)) ++ str ".json") w1
  = (Raised e, w2) ->
  enrich_header_data World http_get json to_datetime (pre ++ row :: post) w
  = (Raised e, w2).
Proof.
  intros World http_get json to_datetime pre row post w hs1 w1 e w2 Hpre Hget.
  unfold enrich_header_data.
  rewrite (header_rows_raise World http_get json pre row post w hs1 w1 e w2 Hpre);
    [reflexivity|].
  unfold get_submission_data. rewrite Hget. reflexivity.
Qed.

Lemma enrich_request_failure_witness :
  let row := fun c => FilingRow (Some (str c)) None None None None None in
  enrich_header_data nat
    (fun _ n => (if n =? 1 then Raised "ConnectionError"
                 else Returned (Response 404 []), S n))
    (fun _ => Returned empty_profile) (fun d => Returned d)
    ([row "1"] ++ row "2" :: [row "3"]) 0
  = (Raised "ConnectionError", 2).
Proof.
  intros row.
  eapply (enrich_request_failure nat
            (fun _ n => (if n =? 1 then Raised "ConnectionError"
                         else Returned (Response 404 []), S n))
            (fun _ => Returned empty_profile) (fun d => Returned d)
            [row "1"] (row "2") [row "3"] 0);
    reflexivity.
Defined.
